(** * vkhr: hair asset model, strand sampler, voxelizer and ray-traced shading

    A shallow embedding of [src/vkhr/scene_graph/hair_style.cc] and of the
    per-pixel body of [Raytracer::draw] in [src/vkhr/ray_tracer.cc].

    Conventions.
    - [std::vector<T>] is a [list T]; [v[i]] is [nth_error], and an index
      past the end (undefined behaviour in C++) makes the operation
      [Undefined].
    - [unsigned] is a [Z] reduced modulo [2^32], [std::uint64_t] a [Z]
      reduced modulo [2^64], [unsigned short] a [Z] reduced modulo [2^16].
    - [float] is IEEE 754 binary32 and [double] binary64, both given by the
      executable specification [SpecFloat] of the standard library
      (round to nearest, ties to even; NaN payloads are not represented).
    - The arrays of a [HairStyle] are generic in the scalar type [F], since
      the codec and the sampler only move scalars around; the procedural
      generators instantiate [F] with binary32. *)

From Stdlib Require Import ZArith List Bool Lia Arith PeanoNat Permutation.
From Stdlib Require Import SpecFloat.
From coqutil Require Import Byte Word.LittleEndianList.
Import ListNotations.
Local Open Scope Z_scope.

(* ===================================================================== *)
(** * Outcomes of operations that may hit undefined behaviour *)
(* ===================================================================== *)

Inductive outcome (A : Type) : Type :=
| Done (a : A)
| Undefined.
Arguments Done {A} a.
Arguments Undefined {A}.

Definition obind {A B} (m : outcome A) (k : A -> outcome B) : outcome B :=
  match m with
  | Done a => k a
  | Undefined => Undefined
  end.

Definition of_option {A} (o : option A) : outcome A :=
  match o with
  | Some a => Done a
  | None => Undefined
  end.

Notation "x <- m ;; k" := (obind m (fun x => k))
  (at level 61, m at next level, right associativity).
Notation "' p <- m ;; k" := (obind m (fun p => k))
  (at level 61, p pattern, m at next level, right associativity).

(** [v[i]] on a [std::vector]. *)
Definition at_index {A} (v : list A) (i : nat) : outcome A :=
  of_option (nth_error v i).

(** [v.back()]: undefined on an empty vector. *)
Definition back {A} (v : list A) : outcome A :=
  match v with
  | [] => Undefined
  | a :: v' => Done (last v' a)
  end.

(** [static_cast<unsigned>] of a size, and [unsigned] arithmetic. *)
Definition u32 (z : Z) : Z := z mod 2 ^ 32.
Definition u16 (z : Z) : Z := z mod 2 ^ 16.
Definition u64 (z : Z) : Z := z mod 2 ^ 64.

Definition size {A} (v : list A) : Z := Z.of_nat (length v).

(* ===================================================================== *)
(** * IEEE 754 arithmetic *)
(* ===================================================================== *)

Definition float : Set := spec_float.

(** Conversions and functions shared by both formats. *)
Section Format.
Variables prec emax : Z.

(** Integer to floating point: the nearest representable value. *)
Definition of_int (z : Z) : float := binary_normalize prec emax z 0 false.

(** The integer part of a finite value, rounded toward zero. *)
Definition trunc (x : float) : option Z :=
  match x with
  | S754_zero _ => Some 0
  | S754_finite s m e =>
      let a := if 0 <=? e then Z.pos m * 2 ^ e else Z.pos m / 2 ^ (- e) in
      Some (if s then - a else a)
  | _ => None
  end.

(** Floating point to an unsigned integer of [w] bits: truncation; the
    conversion is undefined when the truncated value does not fit. *)
Definition to_unsigned (w : Z) (x : float) : outcome Z :=
  match trunc x with
  | Some z => if (0 <=? z) && (z <? 2 ^ w) then Done z else Undefined
  | None => Undefined
  end.

(** Floating point to a signed integer of [w] bits. *)
Definition to_signed (w : Z) (x : float) : outcome Z :=
  match trunc x with
  | Some z =>
      if (- 2 ^ (w - 1) <=? z) && (z <? 2 ^ (w - 1)) then Done z else Undefined
  | None => Undefined
  end.

(** [std::ceil]: the least integral value not below [x]. *)
Definition ceil (x : float) : float :=
  match x with
  | S754_finite s m e =>
      if 0 <=? e then x
      else
        let a := Z.pos m in
        let d := 2 ^ (- e) in
        let n := if s then - (a / d) else (a + d - 1) / d in
        binary_normalize prec emax n 0 s
  | _ => x
  end.

(** [std::floor] / [glm::floor]: the greatest integral value not above [x]. *)
Definition floor (x : float) : float :=
  match x with
  | S754_finite s m e =>
      if 0 <=? e then x
      else
        let a := Z.pos m in
        let d := 2 ^ (- e) in
        let n := if s then - ((a + d - 1) / d) else a / d in
        binary_normalize prec emax n 0 s
  | _ => x
  end.
End Format.

(** Binary32, the C++ [float]. *)
Module F32.
Definition prec : Z := 24.
Definition emax : Z := 128.
Definition add := SFadd prec emax.
Definition sub := SFsub prec emax.
Definition mul := SFmul prec emax.
Definition div := SFdiv prec emax.
Definition sqrt := SFsqrt prec emax.
Definition ltb := SFltb.
Definition of_int := of_int prec emax.
Definition ceil := ceil prec emax.
Definition floor := floor prec emax.
Definition zero : float := S754_zero false.
Definition one : float := S754_finite false 8388608 (-23).
(** [glm::min(a, b)] is [(b < a) ? b : a]; [glm::max(a, b)] is
    [(a < b) ? b : a]. *)
Definition min (a b : float) : float := if ltb b a then b else a.
Definition max (a b : float) : float := if ltb a b then b else a.
(** [std::clamp(v, lo, hi)] is [(v < lo) ? lo : (hi < v) ? hi : v]. *)
Definition clamp (v lo hi : float) : float :=
  if ltb v lo then lo else if ltb hi v then hi else v.
(** The literal [0.042f]. *)
Definition lit_0_042 : float := S754_finite false 11274289 (-28).
End F32.

(** Binary64, the C++ [double]. *)
Module F64.
Definition prec : Z := 53.
Definition emax : Z := 1024.
Definition mul := SFmul prec emax.
Definition div := SFdiv prec emax.
Definition of_int := of_int prec emax.
End F64.

(* ===================================================================== *)
(** * Vectors of the maths library *)
(* ===================================================================== *)

Record vec3 (F : Type) : Type := Vec3 { vx : F; vy : F; vz : F }.
Arguments Vec3 {F} vx vy vz.
Arguments vx {F} v.
Arguments vy {F} v.
Arguments vz {F} v.

Record vec4 (F : Type) : Type := Vec4 { wx : F; wy : F; wz : F; ww : F }.
Arguments Vec4 {F} wx wy wz ww.
Arguments wx {F} v.
Arguments wy {F} v.
Arguments wz {F} v.
Arguments ww {F} v.

(** [glm::vec4 { v, w }]. *)
Definition vec4_of {F} (v : vec3 F) (w : F) : vec4 F :=
  Vec4 (vx v) (vy v) (vz v) w.

Module V3.
Definition map2 (f : float -> float -> float) (a b : vec3 float) : vec3 float :=
  Vec3 (f (vx a) (vx b)) (f (vy a) (vy b)) (f (vz a) (vz b)).
Definition add := map2 F32.add.
Definition sub := map2 F32.sub.
Definition mul := map2 F32.mul.
Definition div := map2 F32.div.
Definition min := map2 F32.min.
Definition scale (a : vec3 float) (s : float) : vec3 float :=
  Vec3 (F32.mul (vx a) s) (F32.mul (vy a) s) (F32.mul (vz a) s).
Definition div_scalar (a : vec3 float) (s : float) : vec3 float :=
  Vec3 (F32.div (vx a) s) (F32.div (vy a) s) (F32.div (vz a) s).
Definition sub_scalar (a : vec3 float) (s : float) : vec3 float :=
  Vec3 (F32.sub (vx a) s) (F32.sub (vy a) s) (F32.sub (vz a) s).
Definition floor (a : vec3 float) : vec3 float :=
  Vec3 (F32.floor (vx a)) (F32.floor (vy a)) (F32.floor (vz a)).
Definition zero : vec3 float := Vec3 F32.zero F32.zero F32.zero.
(** [glm::dot]: the products are summed left to right. *)
Definition dot (a b : vec3 float) : float :=
  F32.add (F32.add (F32.mul (vx a) (vx b)) (F32.mul (vy a) (vy b)))
          (F32.mul (vz a) (vz b)).
(** [glm::length(v)] is [sqrt(dot(v, v))]. *)
Definition length (a : vec3 float) : float := F32.sqrt (dot a a).
(** [glm::normalize(v)] is [v * inversesqrt(dot(v, v))], and
    [inversesqrt(x)] is [1 / sqrt(x)]. *)
Definition normalize (a : vec3 float) : vec3 float :=
  scale a (F32.div F32.one (F32.sqrt (dot a a))).
End V3.

(* ===================================================================== *)
(** * The hair asset *)
(* ===================================================================== *)

(** [HairStyle::Error], as far as the sources name its enumerants. *)
Inductive Error : Set :=
| ErrNone
| OpeningFile
| ReadingFileHeader
| InvalidSignature
| ReadingSegments
| ReadingVertices
| ReadingThickness
| ReadingTransparency
| ReadingColor
| ReadingTangents
| ReadingIndices
| WritingFileHeader
| WritingSegments
| WritingVertices
| WritingThickness
| WritingTransparency
| WritingColor
| WritingTangents
| WritingIndices
| InvalidFormat.

(** Modelled from the spec: the declaration of [FileHeader] is in
    [hair_style.hh], which is not among the sources.  The fields and their
    order are those of the binary file format: signature, strand and vertex
    counts, presence bitfield (one bit per optional section, a reserved
    extension field and the bounding box bit), default segment count,
    default thickness, transparency and colour, bounding box, information
    text. *)
Record Bitfield : Set := {
  has_segments_bit : bool;
  has_vertices_bit : bool;
  has_thickness_bit : bool;
  has_transparency_bit : bool;
  has_color_bit : bool;
  has_tangents_bit : bool;
  has_indices_bit : bool;
  future_extension : Z;
  has_bounding_box_bit : bool
}.

Record FileHeader (F : Type) : Type := {
  signature : byte * byte * byte * byte;
  strand_count : Z;
  vertex_count : Z;
  field : Bitfield;
  default_segment_count : Z;
  default_thickness : F;
  default_transparency : F;
  default_color : vec3 F;
  bounding_box_min : vec3 F;
  bounding_box_max : vec3 F;
  information : list byte
}.
Arguments signature {F} f.
Arguments strand_count {F} f.
Arguments vertex_count {F} f.
Arguments field {F} f.
Arguments default_segment_count {F} f.
Arguments default_thickness {F} f.
Arguments default_transparency {F} f.
Arguments default_color {F} f.
Arguments bounding_box_min {F} f.
Arguments bounding_box_max {F} f.
Arguments information {F} f.

(** The data members of [HairStyle] that the sources use. *)
Record HairStyle (F : Type) : Type := {
  file_header : FileHeader F;
  segments : list Z;               (* std::vector<unsigned short> *)
  vertices : list (vec3 F);
  thickness : list F;
  transparency : list F;
  color : list (vec3 F);
  tangents : list (vec3 F);
  indices : list Z;                (* std::vector<unsigned> *)
  seed : Z;                        (* std::uint64_t *)
  error_state : Error
}.
Arguments file_header {F} h.
Arguments segments {F} h.
Arguments vertices {F} h.
Arguments thickness {F} h.
Arguments transparency {F} h.
Arguments color {F} h.
Arguments tangents {F} h.
Arguments indices {F} h.
Arguments seed {F} h.
Arguments error_state {F} h.

Section Accessors.
Context {F : Type}.
Implicit Types hs : HairStyle F.

Definition set_file_header hs (h : FileHeader F) : HairStyle F :=
  {| file_header := h; segments := segments hs; vertices := vertices hs;
     thickness := thickness hs; transparency := transparency hs;
     color := color hs; tangents := tangents hs; indices := indices hs;
     seed := seed hs; error_state := error_state hs |}.

Definition set_tangents hs (t : list (vec3 F)) : HairStyle F :=
  {| file_header := file_header hs; segments := segments hs;
     vertices := vertices hs; thickness := thickness hs;
     transparency := transparency hs; color := color hs; tangents := t;
     indices := indices hs; seed := seed hs; error_state := error_state hs |}.

Definition set_indices hs (i : list Z) : HairStyle F :=
  {| file_header := file_header hs; segments := segments hs;
     vertices := vertices hs; thickness := thickness hs;
     transparency := transparency hs; color := color hs;
     tangents := tangents hs; indices := i; seed := seed hs;
     error_state := error_state hs |}.

Definition set_error_state hs (e : Error) : HairStyle F :=
  {| file_header := file_header hs; segments := segments hs;
     vertices := vertices hs; thickness := thickness hs;
     transparency := transparency hs; color := color hs;
     tangents := tangents hs; indices := indices hs; seed := seed hs;
     error_state := e |}.

Definition nonempty {A} (v : list A) : bool :=
  match v with [] => false | _ => true end.

Definition has_segments hs : bool := nonempty (segments hs).
Definition has_vertices hs : bool := nonempty (vertices hs).
Definition has_thickness hs : bool := nonempty (thickness hs).
Definition has_transparency hs : bool := nonempty (transparency hs).
Definition has_color hs : bool := nonempty (color hs).
Definition has_tangents hs : bool := nonempty (tangents hs).
Definition has_indices hs : bool := nonempty (indices hs).
Definition has_bounding_box hs : bool :=
  has_bounding_box_bit (field (file_header hs)).

Definition get_strand_count hs : Z :=
  if has_segments hs then u32 (size (segments hs))
  else strand_count (file_header hs).

Definition get_vertex_count hs : Z := u32 (size (vertices hs)).

Definition get_segment_count hs : Z :=
  u32 (get_vertex_count hs - get_strand_count hs).

Definition get_default_segment_count hs : Z :=
  default_segment_count (file_header hs).
Definition get_default_thickness hs : F := default_thickness (file_header hs).
Definition get_default_transparency hs : F :=
  default_transparency (file_header hs).
Definition get_default_color hs : vec3 F := default_color (file_header hs).

(** The segment count of a strand, as every loop over the strands
    computes it: the default, overridden by [segments[strand]]. *)
Definition strand_segment_count hs (strand : nat) : outcome Z :=
  if has_segments hs then at_index (segments hs) strand
  else Done (get_default_segment_count hs).
End Accessors.

(** A [for] loop over [0 .. n-1] that threads a state through a body
    which may be undefined. *)
Fixpoint for_loop {St} (body : nat -> St -> outcome St) (i n : nat) (s : St)
  : outcome St :=
  match n with
  | O => Done s
  | S n' => s' <- body i s ;; for_loop body (S i) n' s'
  end.

(* ===================================================================== *)
(** * Procedural generators *)
(* ===================================================================== *)

(** ** [HairStyle::generate_tangents] *)

(** The state of the loops: the running [vertex] index and [tangents]. *)
Definition tangent_segment (vs : list (vec3 float)) (_ : nat)
    (s : nat * list (vec3 float)) : outcome (nat * list (vec3 float)) :=
  let '(vertex, ts) := s in
  current_vertex <- at_index vs (vertex + 0) ;;
  next_vertex <- at_index vs (vertex + 1) ;;
  let tangent := V3.sub next_vertex current_vertex in
  Done (S vertex, ts ++ [V3.normalize tangent]).

Definition tangent_strand (hs : HairStyle float) (strand : nat)
    (s : nat * list (vec3 float)) : outcome (nat * list (vec3 float)) :=
  segment_count <- strand_segment_count hs strand ;;
  '(vertex, ts) <-
     for_loop (tangent_segment (vertices hs)) 0 (Z.to_nat segment_count) s ;;
  b <- back ts ;;
  Done (S vertex, ts ++ [b]).

Definition generate_tangents (hs : HairStyle float) : outcome (HairStyle float) :=
  '(_, ts) <-
     for_loop (tangent_strand hs) 0 (Z.to_nat (get_strand_count hs)) (O, []) ;;
  Done (set_tangents hs ts).

(** ** [HairStyle::generate_bounding_box] and [HairStyle::get_bounding_box] *)

Definition set_bounding_box {F} (h : FileHeader F) (lo hi : vec3 F)
  : FileHeader F :=
  {| signature := signature h; strand_count := strand_count h;
     vertex_count := vertex_count h;
     field :=
       {| has_segments_bit := has_segments_bit (field h);
          has_vertices_bit := has_vertices_bit (field h);
          has_thickness_bit := has_thickness_bit (field h);
          has_transparency_bit := has_transparency_bit (field h);
          has_color_bit := has_color_bit (field h);
          has_tangents_bit := has_tangents_bit (field h);
          has_indices_bit := has_indices_bit (field h);
          future_extension := future_extension (field h);
          has_bounding_box_bit := true |};
     default_segment_count := default_segment_count h;
     default_thickness := default_thickness h;
     default_transparency := default_transparency h;
     default_color := default_color h;
     bounding_box_min := lo; bounding_box_max := hi;
     information := information h |}.

(** One iteration of the reduction over the vertex positions. *)
Definition grow_aabb (box : vec3 float * vec3 float) (position : vec3 float)
  : vec3 float * vec3 float :=
  let '(min_aabb, max_aabb) := box in
  (Vec3 (F32.min (vx position) (vx min_aabb))
        (F32.min (vy position) (vy min_aabb))
        (F32.min (vz position) (vz min_aabb)),
   Vec3 (F32.max (vx position) (vx max_aabb))
        (F32.max (vy position) (vy max_aabb))
        (F32.max (vz position) (vz max_aabb))).

Definition generate_bounding_box (hs : HairStyle float) : HairStyle float :=
  let '(min_aabb, max_aabb) :=
    fold_left grow_aabb (vertices hs) (V3.zero, V3.zero) in
  set_file_header hs (set_bounding_box (file_header hs) min_aabb max_aabb).

(** [AABB { origin, radius, size, volume }]. *)
Record AABB : Set := {
  origin : vec3 float;
  radius : float;
  aabb_size : vec3 float;
  volume : float
}.

Definition get_bounding_box (hs : HairStyle float) : AABB :=
  let h := file_header hs in
  let origin := bounding_box_min h in
  let size := V3.sub (bounding_box_max h) (bounding_box_min h) in
  {| origin := origin;
     radius := V3.length size;
     aabb_size := size;
     volume := F32.mul (F32.mul (vx size) (vy size)) (vz size) |}.

(** ** The fused per-vertex buffers *)

(** [static_cast<int>] of an [unsigned]. *)
Definition int_of_unsigned (u : Z) : Z := if u <? 2 ^ 31 then u else u - 2 ^ 32.

Definition vec4_zero : vec4 float := Vec4 F32.zero F32.zero F32.zero F32.zero.

(** The loops fill slot [i] for every [i] below
    [static_cast<int>(get_vertex_count())] of a vector that was created
    with [get_vertex_count()] value-initialised elements; the iterations
    write disjoint slots, so their order does not matter. *)
Definition fused_buffer (hs : HairStyle float)
    (entry : nat -> outcome (vec4 float)) : outcome (list (vec4 float)) :=
  let n := Z.to_nat (get_vertex_count hs) in
  let filled := Z.to_nat (int_of_unsigned (get_vertex_count hs)) in
  entries <-
    for_loop (fun i acc => e <- entry i ;; Done (acc ++ [e])) 0 filled [] ;;
  Done (entries ++ repeat vec4_zero (n - filled)).

Definition position_thickness_entry (hs : HairStyle float) (i : nat)
  : outcome (vec4 float) :=
  thickness <-
    (if has_thickness hs then at_index (thickness hs) i
     else Done F32.lit_0_042) ;;
  v <- at_index (vertices hs) i ;;
  Done (vec4_of v thickness).

Definition create_position_thickness_data (hs : HairStyle float) :=
  fused_buffer hs (position_thickness_entry hs).

Definition tangent_transparency_entry (hs : HairStyle float) (i : nat)
  : outcome (vec4 float) :=
  transparency <-
    (if has_transparency hs then at_index (transparency hs) i
     else Done (get_default_transparency hs)) ;;
  t <- at_index (tangents hs) i ;;
  Done (vec4_of t transparency).

Definition create_tangent_transparency_data (hs : HairStyle float) :=
  fused_buffer hs (tangent_transparency_entry hs).

Definition color_transparency_entry (hs : HairStyle float) (i : nat)
  : outcome (vec4 float) :=
  transparency <-
    (if has_transparency hs then at_index (transparency hs) i
     else Done (get_default_transparency hs)) ;;
  color <-
    (if has_color hs then at_index (color hs) i
     else Done (get_default_color hs)) ;;
  Done (vec4_of color transparency).

Definition create_color_transparency_data (hs : HairStyle float) :=
  fused_buffer hs (color_transparency_entry hs).

(** ** [HairStyle::generate_indices] *)

Definition index_segment (_ : nat) (s : nat * list Z) : outcome (nat * list Z) :=
  let '(vertex, ix) := s in
  Done (S vertex, ix ++ [u32 (Z.of_nat vertex); u32 (Z.of_nat (S vertex))]).

Definition index_strand {F} (hs : HairStyle F) (strand : nat)
    (s : nat * list Z) : outcome (nat * list Z) :=
  segment_count <- strand_segment_count hs strand ;;
  '(vertex, ix) <- for_loop index_segment 0 (Z.to_nat segment_count) s ;;
  Done (S vertex, ix).

Definition generate_indices {F} (hs : HairStyle F) : outcome (HairStyle F) :=
  '(_, ix) <-
     for_loop (index_strand hs) 0 (Z.to_nat (get_strand_count hs)) (O, []) ;;
  Done (set_indices hs ix).

(* ===================================================================== *)
(** * Voxelizer *)
(* ===================================================================== *)

(** [v[i] = a]. *)
Definition set_index {A} (v : list A) (i : nat) (a : A) : outcome (list A) :=
  if (i <? length v)%nat then Done (firstn i v ++ a :: skipn (S i) v)
  else Undefined.

(** [glm::i8vec4]. *)
Record i8vec4 : Set := I8vec4 { qx : Z; qy : Z; qz : Z; qw : Z }.

(** Modelled from the spec: [HairStyle::Volume] is declared in
    [hair_style.hh], which is not among the sources.  It holds the grid
    resolution, the bounds taken from the asset's bounding box, one
    unsigned byte of density per voxel and one quantized signed-byte
    tangent per voxel. *)
Record Volume : Set := {
  resolution : vec3 float;
  bounds : AABB;
  densities : list Z;
  voxel_tangents : list i8vec4
}.

(** What both accumulation passes do to the voxel at [pos]: add the source
    tangent and count one more sample unless the density is saturated.
    The source tangent [tangents[j]] is read only in that case. *)
Definition splat (pos : nat) (tangent : outcome (vec3 float))
    (s : list Z * list (vec3 float)) : outcome (list Z * list (vec3 float)) :=
  let '(dens, precise_tangents) := s in
  d <- at_index dens pos ;;
  if d =? 255 then Done s
  else
    t <- at_index precise_tangents pos ;;
    tangent <- tangent ;;
    precise_tangents' <- set_index precise_tangents pos (V3.add t tangent) ;;
    dens' <- set_index dens pos (d + 1) ;;
    Done (dens', precise_tangents').

(** [a + b*width + c*width*height], evaluated in [float]. *)
Definition linear_index (voxel : vec3 float) (width height : Z) : float :=
  F32.add
    (F32.add (vx voxel) (F32.mul (vy voxel) (F32.of_int width)))
    (F32.mul (F32.mul (vz voxel) (F32.of_int width)) (F32.of_int height)).

(** The body of the tangent finalization loop, the same in
    [voxelize_vertices] and [voxelize_segments]:
    [quantized = precise_tangents[i] / float(densities[i]) * 127.0f],
    converted component-wise to signed bytes. *)
Definition average_tangent (precise_tangent : vec3 float) (density : Z)
  : vec3 float :=
  V3.scale (V3.div_scalar precise_tangent (F32.of_int density))
           (F32.of_int 127).

Definition quantize_voxel (precise_tangent : vec3 float) (density : Z)
  : outcome i8vec4 :=
  let q := average_tangent precise_tangent density in
  x <- to_signed 8 (vx q) ;;
  y <- to_signed 8 (vy q) ;;
  z <- to_signed 8 (vz q) ;;
  Done (I8vec4 x y z 0).

Fixpoint quantize_tangents (precise_tangents : list (vec3 float))
    (dens : list Z) : outcome (list i8vec4) :=
  match dens with
  | [] => Done []
  | d :: dens' =>
      match precise_tangents with
      | [] => Undefined
      | t :: ts' =>
          q <- quantize_voxel t d ;;
          qs <- quantize_tangents ts' dens' ;;
          Done (q :: qs)
      end
  end.

Definition new_volume (hs : HairStyle float) (width height depth : Z)
  : Volume :=
  {| resolution := Vec3 (F32.of_int width) (F32.of_int height) (F32.of_int depth);
     bounds := get_bounding_box hs;
     densities := repeat 0 (Z.to_nat (u64 (width * height * depth)));
     voxel_tangents := [] |}.

Definition voxelize_vertex (hs : HairStyle float) (vol : Volume)
    (voxel_size : vec3 float) (width height : Z) (i : nat)
    (s : list Z * list (vec3 float)) : outcome (list Z * list (vec3 float)) :=
  vertex <- at_index (vertices hs) i ;;
  let voxel := V3.div (V3.sub vertex (origin (bounds vol))) voxel_size in
  let voxel :=
    V3.min (V3.floor voxel) (V3.sub_scalar (resolution vol) F32.one) in
  pos <- to_unsigned 64 (linear_index voxel width height) ;;
  splat (Z.to_nat pos) (at_index (tangents hs) i) s.

(** The first loop of [voxelize_vertices]: the densities and the summed
    tangents it leaves for the finalization loop. *)
Definition accumulate_vertices (hs : HairStyle float) (width height depth : Z)
  : outcome (list Z * list (vec3 float)) :=
  let vol := new_volume hs width height depth in
  let voxel_size := V3.div (aabb_size (bounds vol)) (resolution vol) in
  let precise_tangents := repeat V3.zero (length (densities vol)) in
  for_loop (voxelize_vertex hs vol voxel_size width height) 0
    (Z.to_nat (get_vertex_count hs)) (densities vol, precise_tangents).

Definition voxelize_vertices (hs : HairStyle float) (width height depth : Z)
  : outcome Volume :=
  let vol := new_volume hs width height depth in
  '(dens, precise_tangents) <- accumulate_vertices hs width height depth ;;
  qs <- quantize_tangents precise_tangents dens ;;
  Done {| resolution := resolution vol; bounds := bounds vol;
          densities := dens; voxel_tangents := qs |}.

(** [glm::compMax(glm::abs(v))]. *)
Definition comp_max_abs (v : vec3 float) : float :=
  F32.max (F32.max (SFabs (vx v)) (SFabs (vy v))) (SFabs (vz v)).

(** The walk [while (steps-- > 0.0f)] along one segment.  The loop is
    bounded here by [fuel]; [None] means the bound was too small. *)
Fixpoint walk_segment (fuel : nat) (vol : Volume) (width height : Z)
    (tangent : outcome (vec3 float)) (steps : float)
    (root direction : vec3 float)
    (s : list Z * list (vec3 float))
  : option (outcome (list Z * list (vec3 float))) :=
  if F32.ltb F32.zero steps then
    match fuel with
    | O => None
    | S fuel' =>
        let voxel :=
          V3.min (V3.floor root) (V3.sub_scalar (resolution vol) F32.one) in
        match to_signed 32 (linear_index voxel width height) with
        | Undefined => Some Undefined
        | Done voxel_index =>
            if voxel_index <? 0 then Some Undefined
            else
              match splat (Z.to_nat voxel_index) tangent s with
              | Undefined => Some Undefined
              | Done s' =>
                  walk_segment fuel' vol width height tangent
                    (F32.sub steps F32.one) (V3.add root direction) direction s'
              end
        end
    end
  else Some (Done s).

Definition voxelize_segment (fuel : nat) (hs : HairStyle float) (vol : Volume)
    (voxel_size : vec3 float) (width height : Z) (k : nat)
    (s : list Z * list (vec3 float))
  : option (outcome (list Z * list (vec3 float))) :=
  let i := (2 * k)%nat in
  let fetch :=
    a <- at_index (indices hs) i ;;
    va <- at_index (vertices hs) (Z.to_nat a) ;;
    b <- at_index (indices hs) (i + 1) ;;
    vb <- at_index (vertices hs) (Z.to_nat b) ;;
    Done (a, va, vb) in
  match fetch with
  | Undefined => Some Undefined
  | Done (a, va, vb) =>
      let root := V3.div (V3.sub va (origin (bounds vol))) voxel_size in
      let tip := V3.div (V3.sub vb (origin (bounds vol))) voxel_size in
      let direction := V3.sub tip root in
      let steps := comp_max_abs direction in
      let direction := V3.div_scalar direction steps in
      walk_segment fuel vol width height
        (at_index (tangents hs) (Z.to_nat a)) steps root direction s
  end.

Fixpoint voxelize_segment_loop (fuel : nat) (hs : HairStyle float)
    (vol : Volume) (voxel_size : vec3 float) (width height : Z) (k n : nat)
    (s : list Z * list (vec3 float))
  : option (outcome (list Z * list (vec3 float))) :=
  match n with
  | O => Some (Done s)
  | S n' =>
      match voxelize_segment fuel hs vol voxel_size width height k s with
      | Some (Done s') =>
          voxelize_segment_loop fuel hs vol voxel_size width height (S k) n' s'
      | r => r
      end
  end.

(** In [for (i = 0; i < indices.size() - 1; i += 2)] the bound is unsigned:
    with no indices it wraps and the first iteration reads [indices[0]]. *)
Definition accumulate_segments (fuel : nat) (hs : HairStyle float)
    (width height depth : Z)
  : option (outcome (list Z * list (vec3 float))) :=
  let vol := new_volume hs width height depth in
  let voxel_size := V3.div (aabb_size (bounds vol)) (resolution vol) in
  let precise_tangents := repeat V3.zero (length (densities vol)) in
  match indices hs with
  | [] => Some Undefined
  | _ =>
      voxelize_segment_loop fuel hs vol voxel_size width height 0
        (length (indices hs) / 2) (densities vol, precise_tangents)
  end.

Definition voxelize_segments (fuel : nat) (hs : HairStyle float)
    (width height depth : Z) : option (outcome Volume) :=
  let vol := new_volume hs width height depth in
  match accumulate_segments fuel hs width height depth with
  | None => None
  | Some acc =>
      Some ('(dens, precise_tangents) <- acc ;;
            qs <- quantize_tangents precise_tangents dens ;;
            Done {| resolution := resolution vol; bounds := bounds vol;
                    densities := dens; voxel_tangents := qs |})
  end.

(* ===================================================================== *)
(** * Strand sampler *)
(* ===================================================================== *)

(** [HairStyle::xorshift64]: the value returned, which is also the value
    stored back in [seed[0]]. *)
Definition xorshift64 (seed : Z) : Z :=
  let x := seed in
  let x := Z.lxor x (u64 (Z.shiftl x 13)) in
  let x := Z.lxor x (Z.shiftr x 7) in
  let x := Z.lxor x (u64 (Z.shiftl x 17)) in
  x.

(** [random = x / double(UINT64_MAX); random_strand = random * size],
    stored in a [std::size_t]; [size] is itself a [std::size_t]. *)
Definition random_strand (x : Z) (working_size : nat) : outcome Z :=
  let random := F64.div (F64.of_int x) (F64.of_int (2 ^ 64 - 1)) in
  to_unsigned 64 (F64.mul random (F64.of_int (u64 (Z.of_nat working_size)))).

(** [n - std::ceil(n * ratio)] stored in an [unsigned]. *)
Definition count_left (n : Z) (ratio : float) : outcome Z :=
  to_unsigned 32
    (F32.sub (F32.of_int n) (F32.ceil (F32.mul (F32.of_int n) ratio))).

(** [std::swap(v[i], v.back()); v.pop_back()]. *)
Definition swap_remove {A} (v : list A) (i : nat) : outcome (list A) :=
  b <- back v ;;
  v' <- set_index v i b ;;
  Done (removelast v').

(** [std::copy(v.begin() + first, v.begin() + last, back_inserter(out))]:
    the copied range must lie inside [v]. *)
Definition copy_range {A} (v : list A) (first last : nat) (out : list A)
  : outcome (list A) :=
  if (last <=? length v)%nat then
    Done (out ++ firstn (last - first) (skipn first v))
  else Undefined.

(** [if (has) std::copy(...)]. *)
Definition copy_if_present {A} (v : list A) (first last : nat) (out : list A)
  : outcome (list A) :=
  if nonempty v then copy_range v first last out else Done out.

(** With segments present: [strand_offset[i]] is the number of vertices of
    the strands before [i], accumulated in the [int pre_vertex_count];
    overflowing it is undefined. *)
Fixpoint offsets_from_segments (segs : list Z) (pre_vertex_count : Z)
  : outcome (list nat) :=
  match segs with
  | [] => Done []
  | s :: segs' =>
      if pre_vertex_count + (s + 1) <? 2 ^ 31 then
        rest <- offsets_from_segments segs' (pre_vertex_count + (s + 1)) ;;
        Done (Z.to_nat pre_vertex_count :: rest)
      else Undefined
  end.

(** Without segments: zero followed by [default_segment_count + 1] in every
    other slot, then [std::partial_sum]. *)
Fixpoint partial_sum (acc : Z) (v : list Z) : list nat :=
  match v with
  | [] => []
  | a :: v' => Z.to_nat (acc + a) :: partial_sum (acc + a) v'
  end.

Definition strand_offsets {F} (hs : HairStyle F) : outcome (list nat) :=
  let n := Z.to_nat (get_strand_count hs) in
  if has_segments hs then
    (* the loop writes [strand_offset[i]] for every [i < segments.size()] *)
    if (length (segments hs) =? n)%nat then
      offsets_from_segments (segments hs) 0
    else Undefined
  else
    match n with
    | O => Undefined   (* [strand_offset[0] = 0] on an empty vector *)
    | S n' =>
        let vertices_per_segment := u32 (get_default_segment_count hs + 1) in
        Done (partial_sum 0 (0 :: repeat vertices_per_segment n'))
    end.

(** The variables that the sampling loop changes.  [picked] is not in the
    source: it records the value of [random_strand] in every iteration. *)
Record sampler (F : Type) : Type := {
  strands_left : Z;
  rng : Z;
  work_segments : list Z;
  strand_offset : list nat;
  reduced_segments : list Z;
  reduced_vertices : list (vec3 F);
  reduced_thickness : list F;
  reduced_tangents : list (vec3 F);
  reduced_transparency : list F;
  reduced_color : list (vec3 F);
  picked : list nat
}.
Arguments strands_left {F} s.
Arguments rng {F} s.
Arguments work_segments {F} s.
Arguments strand_offset {F} s.
Arguments reduced_segments {F} s.
Arguments reduced_vertices {F} s.
Arguments reduced_thickness {F} s.
Arguments reduced_tangents {F} s.
Arguments reduced_transparency {F} s.
Arguments reduced_color {F} s.
Arguments picked {F} s.

Section Reduce.
Context {F : Type}.

(** The body of the [while] loop; [left] is the decremented counter. *)
Definition sample_strand (hs : HairStyle F) (left : Z) (s : sampler F)
  : outcome (sampler F) :=
  let x := xorshift64 (rng s) in
  r <- random_strand x (length (strand_offset s)) ;;
  let r := Z.to_nat r in
  '(segment_count, segs') <-
     (if nonempty (work_segments s) then
        c <- at_index (work_segments s) r ;;
        segs' <- swap_remove (work_segments s) r ;;
        Done (c, segs')
      else Done (get_default_segment_count hs, work_segments s)) ;;
  attribute_start <- at_index (strand_offset s) r ;;
  let attribute_end := (attribute_start + Z.to_nat segment_count + 1)%nat in
  vs <- copy_if_present (vertices hs) attribute_start attribute_end
          (reduced_vertices s) ;;
  th <- copy_if_present (thickness hs) attribute_start attribute_end
          (reduced_thickness s) ;;
  ta <- copy_if_present (tangents hs) attribute_start attribute_end
          (reduced_tangents s) ;;
  tr <- copy_if_present (transparency hs) attribute_start attribute_end
          (reduced_transparency s) ;;
  co <- copy_if_present (color hs) attribute_start attribute_end
          (reduced_color s) ;;
  offs' <- swap_remove (strand_offset s) r ;;
  Done {| strands_left := left; rng := x;
          work_segments := segs'; strand_offset := offs';
          reduced_segments := reduced_segments s ++ [u16 segment_count];
          reduced_vertices := vs; reduced_thickness := th;
          reduced_tangents := ta; reduced_transparency := tr;
          reduced_color := co; picked := picked s ++ [r] |}.

(** [while (--strands_left && strand_offset.size() != 0)].  Every
    iteration removes one entry of [strand_offset], so the loop runs at
    most [length (strand_offset s)] times; [fuel] is that bound, and the
    branch for an exhausted bound is never taken when [fuel] is at least
    that length ([sample_loop_fuel] below). *)
Fixpoint sample_loop (fuel : nat) (hs : HairStyle F) (s : sampler F)
  : outcome (sampler F) :=
  let left := u32 (strands_left s - 1) in
  if (left =? 0) || negb (nonempty (strand_offset s)) then Done s
  else
    match fuel with
    | O => Undefined
    | S fuel' => s' <- sample_strand hs left s ;; sample_loop fuel' hs s'
    end.

Definition reduce (ratio : float) (hs : HairStyle F)
  : outcome (HairStyle F * list nat) :=
  left <- count_left (get_strand_count hs) ratio ;;
  _ <- count_left (get_vertex_count hs) ratio ;;
  offs <- strand_offsets hs ;;
  s <- sample_loop (length offs) hs
         {| strands_left := left; rng := seed hs;
            work_segments := segments hs; strand_offset := offs;
            reduced_segments := []; reduced_vertices := [];
            reduced_thickness := []; reduced_tangents := [];
            reduced_transparency := []; reduced_color := [];
            picked := [] |} ;;
  let hs' :=
    {| file_header := file_header hs;
       segments := reduced_segments s; vertices := reduced_vertices s;
       thickness := thickness hs; transparency := transparency hs;
       color := color hs; tangents := tangents hs; indices := indices hs;
       seed := rng s; error_state := error_state hs |} in
  hs' <- generate_indices hs' ;;
  Done ({| file_header := file_header hs';
           segments := segments hs'; vertices := vertices hs';
           thickness := reduced_thickness s;
           transparency := reduced_transparency s;
           color := reduced_color s; tangents := reduced_tangents s;
           indices := indices hs'; seed := seed hs';
           error_state := error_state hs' |}, picked s).

(** [shuffle] is [reduce(1.0f)]. *)
Definition shuffle (hs : HairStyle F) : outcome (HairStyle F * list nat) :=
  reduce F32.one hs.
End Reduce.

(* ===================================================================== *)
(** * Binary codec *)
(* ===================================================================== *)

(** The object representation of an element type: [width] bytes per
    element, written and read back by a raw copy of memory.
    [representable] singles out the values of the C++ type among those of
    the modelling type. *)
Record Codec (T : Type) : Type := {
  width : nat;
  encode : T -> list byte;
  decode : list byte -> T;
  representable : T -> Prop
}.
Arguments width {T} c.
Arguments encode {T} c x.
Arguments decode {T} c bytes.
Arguments representable {T} c x.

(** What a raw copy of memory guarantees: every element takes [width]
    bytes, and reading back what was written gives the same value. *)
Definition lawful {T} (c : Codec T) : Prop :=
  (forall x, length (encode c x) = width c)
  /\ (forall x, representable c x -> decode c (encode c x) = x).

(** Unsigned integers of [n] bytes, least significant byte first. *)
Definition unsigned_codec (n : nat) : Codec Z :=
  {| width := n;
     encode := le_split n;
     decode := le_combine;
     representable := fun x => 0 <= x < 2 ^ (8 * Z.of_nat n) |}.

Definition u16_codec : Codec Z := unsigned_codec 2.
Definition u32_codec : Codec Z := unsigned_codec 4.

(** [split_at n l] cuts [l] after its first [n] elements. *)
Definition split_at {A} (n : nat) (l : list A) : list A * list A :=
  (firstn n l, skipn n l).

Section Vec3Codec.
Context {F : Type} (c : Codec F).

Definition encode_vec3 (v : vec3 F) : list byte :=
encode c (vx v) ++ encode c (vy v) ++ encode c (vz v).

Definition decode_vec3 (b : list byte) : vec3 F :=
let '(bx, b) := split_at (width c) b in
let '(by_, b) := split_at (width c) b in
let '(bz, _) := split_at (width c) b in
Vec3 (decode c bx) (decode c by_) (decode c bz).

Definition representable_vec3 (v : vec3 F) : Prop :=
representable c (vx v) /\ representable c (vy v) /\ representable c (vz v).

Definition vec3_codec : Codec (vec3 F) :=
{| width := 3 * width c;
   encode := encode_vec3;
   decode := decode_vec3;
   representable := representable_vec3 |}.
End Vec3Codec.

(** Modelled from the spec: the templates [write_field] and [read_field]
    are defined in [hair_style.hh], which is not among the sources.  A
    section is a flat contiguous byte dump of its elements, without padding
    or length prefix; reading fills the already sized vector with as many
    elements as it has and fails when the stream ends early. *)
Definition write_field {T} (c : Codec T) (v : list T) : list byte :=
  flat_map (encode c) v.

Fixpoint decode_elements {T} (c : Codec T) (n : nat) (bytes : list byte)
  : list T :=
  match n with
  | O => []
  | S n' =>
      decode c (firstn (width c) bytes)
        :: decode_elements c n' (skipn (width c) bytes)
  end.

Definition read_field {T} (c : Codec T) (n : nat) (file : list byte)
  : option (list T * list byte) :=
  if (n * width c <=? length file)%nat then
    Some (decode_elements c n file, skipn (n * width c) file)
  else None.

Definition signature_HAIR : byte * byte * byte * byte :=
  (Byte.x48, Byte.x41, Byte.x49, Byte.x52).

(** The presence bitfield as a 32-bit word: the seven section bits from
    bit 0 up, the reserved field in the next 24 bits, the bounding box bit
    last. *)
Definition bit_at (b : bool) (k : Z) : Z := if b then 2 ^ k else 0.

Definition encode_bitfield (b : Bitfield) : Z :=
  bit_at (has_segments_bit b) 0 + bit_at (has_vertices_bit b) 1
  + bit_at (has_thickness_bit b) 2 + bit_at (has_transparency_bit b) 3
  + bit_at (has_color_bit b) 4 + bit_at (has_tangents_bit b) 5
  + bit_at (has_indices_bit b) 6 + (future_extension b mod 2 ^ 24) * 2 ^ 7
  + bit_at (has_bounding_box_bit b) 31.

Definition decode_bitfield (w : Z) : Bitfield :=
  {| has_segments_bit := Z.testbit w 0;
     has_vertices_bit := Z.testbit w 1;
     has_thickness_bit := Z.testbit w 2;
     has_transparency_bit := Z.testbit w 3;
     has_color_bit := Z.testbit w 4;
     has_tangents_bit := Z.testbit w 5;
     has_indices_bit := Z.testbit w 6;
     future_extension := (w / 2 ^ 7) mod 2 ^ 24;
     has_bounding_box_bit := Z.testbit w 31 |}.

Section HairCodec.
Context {F : Type}.
(** The object representation of a [float]. *)
Variable cF : Codec F.
(** [sizeof(FileHeader::information)], a constant of [hair_style.hh]. *)
Variable information_size : nat.
Implicit Types hs : HairStyle F.

Definition header_size : nat := (20 + 11 * width cF + information_size)%nat.

Definition encode_header (h : FileHeader F) : list byte :=
  let '(s0, s1, s2, s3) := signature h in
  [s0; s1; s2; s3]
  ++ le_split 4 (strand_count h)
  ++ le_split 4 (vertex_count h)
  ++ le_split 4 (encode_bitfield (field h))
  ++ le_split 4 (default_segment_count h)
  ++ encode cF (default_thickness h)
  ++ encode cF (default_transparency h)
  ++ encode_vec3 cF (default_color h)
  ++ encode_vec3 cF (bounding_box_min h)
  ++ encode_vec3 cF (bounding_box_max h)
  ++ firstn information_size
       (information h ++ repeat Byte.x00 information_size).

Definition decode_header (b : list byte) : FileHeader F :=
  let '(sg, b) := split_at 4 b in
  let '(sc, b) := split_at 4 b in
  let '(vc, b) := split_at 4 b in
  let '(bf, b) := split_at 4 b in
  let '(ds, b) := split_at 4 b in
  let '(th, b) := split_at (width cF) b in
  let '(tr, b) := split_at (width cF) b in
  let '(co, b) := split_at (3 * width cF) b in
  let '(lo, b) := split_at (3 * width cF) b in
  let '(hi, b) := split_at (3 * width cF) b in
  {| signature :=
       (nth 0 sg Byte.x00, nth 1 sg Byte.x00, nth 2 sg Byte.x00,
        nth 3 sg Byte.x00);
     strand_count := le_combine sc;
     vertex_count := le_combine vc;
     field := decode_bitfield (le_combine bf);
     default_segment_count := le_combine ds;
     default_thickness := decode cF th;
     default_transparency := decode cF tr;
     default_color := decode_vec3 cF co;
     bounding_box_min := decode_vec3 cF lo;
     bounding_box_max := decode_vec3 cF hi;
     information := firstn information_size b |}.

Definition valid_signature hs : bool :=
  let '(s0, s1, s2, s3) := signature (file_header hs) in
  Byte.eqb s0 Byte.x48 && Byte.eqb s1 Byte.x41
  && Byte.eqb s2 Byte.x49 && Byte.eqb s3 Byte.x52.

Definition format_is_valid hs : bool :=
  if negb (has_vertices hs) then false
  else if negb (valid_signature hs) then false
  else if has_thickness hs
          && negb (length (thickness hs) =? length (vertices hs))%nat
  then false
  else if has_transparency hs
          && negb (length (transparency hs) =? length (vertices hs))%nat
  then false
  else if has_color hs
          && negb (length (color hs) =? length (vertices hs))%nat
  then false
  else true.

Definition update_bitfield hs : Bitfield :=
  {| has_segments_bit := has_segments hs;
     has_vertices_bit := has_vertices hs;
     has_thickness_bit := has_thickness hs;
     has_transparency_bit := has_transparency hs;
     has_color_bit := has_color hs;
     has_tangents_bit := has_tangents hs;
     has_indices_bit := has_indices hs;
     future_extension := 0;
     has_bounding_box_bit := has_bounding_box_bit (field (file_header hs)) |}.

Definition complete_header hs : HairStyle F :=
  let h := file_header hs in
  set_file_header hs
    {| signature := signature_HAIR;
       strand_count := get_strand_count hs;
       vertex_count := get_vertex_count hs;
       field := update_bitfield hs;
       default_segment_count := default_segment_count h;
       default_thickness := default_thickness h;
       default_transparency := default_transparency h;
       default_color := default_color h;
       bounding_box_min := bounding_box_min h;
       bounding_box_max := bounding_box_max h;
       information := information h |}.

(** [write_X]: the section is written when its bit is set. *)
Definition write_section {T} (c : Codec T) (present : bool) (v : list T)
  : list byte :=
  if present then write_field c v else [].

(** [HairStyle::save].  The file system is not modelled: opening the file
    and writing to it succeed, and the result is the completed object and
    the bytes of the file, if one was written. *)
Definition save hs : HairStyle F * option (list byte) :=
  let hs := complete_header hs in
  if negb (format_is_valid hs) then (set_error_state hs InvalidFormat, None)
  else
    let b := field (file_header hs) in
    (set_error_state hs ErrNone,
     Some (encode_header (file_header hs)
           ++ write_section u16_codec (has_segments_bit b) (segments hs)
           ++ write_section (vec3_codec cF) (has_vertices_bit b) (vertices hs)
           ++ write_section cF (has_thickness_bit b) (thickness hs)
           ++ write_section cF (has_transparency_bit b) (transparency hs)
           ++ write_section (vec3_codec cF) (has_color_bit b) (color hs)
           ++ write_section (vec3_codec cF) (has_tangents_bit b) (tangents hs)
           ++ write_section u32_codec (has_indices_bit b) (indices hs))).

(** [read_X]: when the bit is set the vector is resized to [n] elements
    and filled from the stream; otherwise it is left as it was. *)
Definition read_section {T} (c : Codec T) (present : bool) (n : Z)
    (old : list T) (file : list byte) : option (list T * list byte) :=
  if present then read_field c (Z.to_nat n) file else Some (old, file).

Definition with_arrays hs (se : list Z) (ve : list (vec3 F))
    (th tr : list F) (co ta : list (vec3 F)) (ix : list Z) : HairStyle F :=
  {| file_header := file_header hs; segments := se; vertices := ve;
     thickness := th; transparency := tr; color := co; tangents := ta;
     indices := ix; seed := seed hs; error_state := error_state hs |}.

(** [HairStyle::load] on the object [hs]; [file] is the content of the
    file, [None] when it cannot be opened.  After a failed load only the
    error is modelled. *)
Definition load (file : option (list byte)) hs : Error + HairStyle F :=
  match file with
  | None => inl OpeningFile
  | Some bytes =>
  if negb (header_size <=? length bytes)%nat then inl ReadingFileHeader
  else
  let '(hb, file) := split_at header_size bytes in
  let hs := set_file_header hs (decode_header hb) in
  let h := file_header hs in
  let b := field h in
  if negb (valid_signature hs) then inl InvalidSignature
  else
  match read_section u16_codec (has_segments_bit b) (strand_count h)
          (segments hs) file with
  | None => inl ReadingSegments
  | Some (se, file) =>
  match read_section (vec3_codec cF) (has_vertices_bit b) (vertex_count h)
          (vertices hs) file with
  | None => inl ReadingVertices
  | Some (ve, file) =>
  match read_section cF (has_thickness_bit b) (vertex_count h)
          (thickness hs) file with
  | None => inl ReadingThickness
  | Some (th, file) =>
  match read_section cF (has_transparency_bit b) (vertex_count h)
          (transparency hs) file with
  | None => inl ReadingTransparency
  | Some (tr, file) =>
  match read_section (vec3_codec cF) (has_color_bit b) (vertex_count h)
          (color hs) file with
  | None => inl ReadingColor
  | Some (co, file) =>
  match read_section (vec3_codec cF) (has_tangents_bit b) (vertex_count h)
          (tangents hs) file with
  | None => inl ReadingTangents
  | Some (ta, file) =>
  let hs6 := with_arrays hs se ve th tr co ta (indices hs) in
  match read_section u32_codec (has_indices_bit b)
          (u32 (get_segment_count hs6 * 2)) (indices hs) file with
  | None => inl ReadingIndices
  | Some (ix, _) =>
  let hs7 := with_arrays hs se ve th tr co ta ix in
  if format_is_valid hs7 then inr (set_error_state hs7 ErrNone)
  else inl InvalidFormat
  end end end end end end end
  end.
End HairCodec.

(* ===================================================================== *)
(** * Ray-traced shading *)
(* ===================================================================== *)

(** A decimal literal [p/q] with [p] and [q] exactly representable: the
    correctly rounded quotient is the binary32 value nearest to it. *)
Definition lit (p q : Z) : float := F32.div (F32.of_int p) (F32.of_int q).

Module V4.
Definition add (a b : vec4 float) : vec4 float :=
  Vec4 (F32.add (wx a) (wx b)) (F32.add (wy a) (wy b))
       (F32.add (wz a) (wz b)) (F32.add (ww a) (ww b)).
Definition scale (a : vec4 float) (s : float) : vec4 float :=
  Vec4 (F32.mul (wx a) s) (F32.mul (wy a) s) (F32.mul (wz a) s)
       (F32.mul (ww a) s).
(** [glm::dot] on [vec4] adds the products pairwise. *)
Definition dot (a b : vec4 float) : float :=
  F32.add (F32.add (F32.mul (wx a) (wx b)) (F32.mul (wy a) (wy b)))
          (F32.add (F32.mul (wz a) (wz b)) (F32.mul (ww a) (ww b))).
Definition normalize (a : vec4 float) : vec4 float :=
  scale a (F32.div F32.one (F32.sqrt (dot a a))).
(** The conversion [glm::vec3(v)] drops the last component. *)
Definition xyz (a : vec4 float) : vec3 float := Vec3 (wx a) (wy a) (wz a).
End V4.

Section Raytracer.
(** [std::pow] on [float], which the arithmetic above does not define. *)
Variable powf : float -> float -> float.

Definition kajiya_kay (diffuse specular : vec3 float) (p : float)
    (tangent light eye : vec3 float) : vec3 float :=
  let cosTL := V3.dot tangent light in
  let cosTE := V3.dot tangent eye in
  let cosTL_squared := F32.mul cosTL cosTL in
  let cosTE_squared := F32.mul cosTE cosTE in
  let one_minus_cosTL_squared := F32.sub F32.one cosTL_squared in
  let one_minus_cosTE_squared := F32.sub F32.one cosTE_squared in
  let sinTL :=
    F32.div one_minus_cosTL_squared (F32.sqrt one_minus_cosTL_squared) in
  let sinTE :=
    F32.div one_minus_cosTE_squared (F32.sqrt one_minus_cosTE_squared) in
  let diffuse_colors := V3.scale diffuse sinTL in
  let specular_color :=
    V3.scale specular
      (powf (F32.add (F32.mul cosTL cosTE) (F32.mul sinTL sinTE)) p) in
  V3.add diffuse_colors specular_color.

Definition hair_color : vec3 float :=
  V3.scale (Vec3 (lit 80 100) (lit 57 100) (lit 32 100)) (lit 40 100).
Definition light : vec3 float :=
  V3.normalize (Vec3 (F32.of_int 1) (F32.of_int 2) (F32.of_int 1)).
Definition light_color : vec3 float :=
  V3.scale (Vec3 (F32.of_int 1) (lit 77 100) (lit 56 100)) (lit 20 100).

(** [Ray::is_occluded]: [tfar < 0.0]. *)
Definition is_occluded (tfar : float) : bool := F32.ltb tfar F32.zero.

(** [Ray::occluded_by] runs the occlusion query of the ray-tracing kernel
    on the ray, which sets [tfar] to minus infinity when some geometry
    blocks the ray and leaves it unchanged otherwise; [blocked] is the
    answer of the kernel. *)
Definition occluded_by (blocked : bool) (tfar : float) : bool :=
  is_occluded (if blocked then S754_infinity true else tfar).

(** The shading of one primary-ray hit in [Raytracer::draw].  [blocked]
    tells whether geometry lies between the hit point and the light,
    [tangent] is the tangent at the hit in the camera frame.  The shadow
    ray is constructed with [tfar] at plus infinity. *)
Definition shade_hit (shadows_off blocked : bool) (tangent : vec4 float)
  : vec4 float :=
  let color := vec4_of (V3.scale hair_color (lit 5 10)) F32.one in
  if occluded_by blocked (S754_infinity false) || shadows_off then
    let shading :=
      kajiya_kay hair_color light_color (F32.of_int 80)
        (V4.xyz (V4.normalize tangent)) light V3.zero in
    if shadows_off then vec4_of shading F32.one
    else V4.add color (vec4_of (V3.scale shading (lit 5 10)) F32.zero)
  else color.

(** The colour handed to [set_pixel]: every channel clamped to [0, 1] and
    scaled by 255. *)
Definition pixel_channel (c : float) : float :=
  F32.mul (F32.clamp c F32.zero F32.one) (F32.of_int 255).

Definition pixel_of (color : vec4 float) : vec4 float :=
  Vec4 (pixel_channel (wx color)) (pixel_channel (wy color))
       (pixel_channel (wz color)) (pixel_channel (ww color)).

(** One pixel of the draw pass: [hit] is the answer of the kernel for the
    primary ray, with the data of the hit; a miss leaves the cleared
    pixel. *)
Definition draw_pixel (shadows_off : bool)
    (hit : option (bool * vec4 float)) (cleared : vec4 float) : vec4 float :=
  match hit with
  | Some (blocked, tangent) => pixel_of (shade_hit shadows_off blocked tangent)
  | None => cleared
  end.
End Raytracer.

(* ===================================================================== *)
(** * Further members of [HairStyle] and of [HairStyle::Volume] *)
(* ===================================================================== *)

Definition set_thickness {F} (hs : HairStyle F) (t : list F) : HairStyle F :=
  {| file_header := file_header hs; segments := segments hs;
     vertices := vertices hs; thickness := t;
     transparency := transparency hs; color := color hs;
     tangents := tangents hs; indices := indices hs; seed := seed hs;
     error_state := error_state hs |}.

(** ** [HairStyle::generate_thickness] *)

Definition thickness_segment (radius : float) (_ : nat) (th : list float)
  : outcome (list float) :=
  Done (th ++ [radius]).

(** [thickness.push_back(0)] stores the [float] zero at the tip. *)
Definition thickness_strand (radius : float) (hs : HairStyle float)
    (strand : nat) (th : list float) : outcome (list float) :=
  segment_count <- strand_segment_count hs strand ;;
  th <- for_loop (thickness_segment radius) 0 (Z.to_nat segment_count) th ;;
  Done (th ++ [F32.zero]).

Definition generate_thickness (radius : float) (hs : HairStyle float)
  : outcome (HairStyle float) :=
  th <-
    for_loop (thickness_strand radius hs) 0
      (Z.to_nat (get_strand_count hs)) [] ;;
  Done (set_thickness hs th).

(** ** [HairStyle::set_information] and [HairStyle::get_information] *)

(** The characters of a C string: those before its first null. *)
Fixpoint c_str (s : list byte) : list byte :=
  match s with
  | [] => []
  | b :: s' => if Byte.eqb b Byte.x00 then [] else b :: c_str s'
  end.

(** [std::strncpy(dest, src, count)] with [count] at most the size of
    [dest]: the characters of [src] up to its terminating null, at most
    [count] of them, then nulls until [count] characters are written; the
    rest of [dest] is left as it was. *)
Definition strncpy (dest src : list byte) (count : nat) : list byte :=
  firstn count (c_str src ++ repeat Byte.x00 count) ++ skipn count dest.

Section Information.
Context {F : Type}.
(** [sizeof(FileHeader::information)], a constant of [hair_style.hh]. *)
Variable information_size : nat.

Definition set_information (text : list byte) (hs : HairStyle F)
  : HairStyle F :=
  let h := file_header hs in
  let info_size := information_size in
  let buffer := repeat Byte.x00 info_size in
  let copy_size := Nat.min info_size (length text) in
  set_file_header hs
    {| signature := signature h; strand_count := strand_count h;
       vertex_count := vertex_count h; field := field h;
       default_segment_count := default_segment_count h;
       default_thickness := default_thickness h;
       default_transparency := default_transparency h;
       default_color := default_color h;
       bounding_box_min := bounding_box_min h;
       bounding_box_max := bounding_box_max h;
       information := strncpy buffer text copy_size |}.

(** The buffer that the returned pointer designates. *)
Definition get_information (hs : HairStyle F) : list byte :=
  information (file_header hs).
End Information.

(** ** [HairStyle::get_size] *)

Section Size.
Context {F : Type}.
Variable cF : Codec F.
Variable information_size : nat.

End Size.

(** ** [HairStyle::Volume::normalize] *)

(** [unsigned char] arithmetic. *)
Definition u8 (z : Z) : Z := z mod 2 ^ 8.

(** The first loop: [data_min] starts at 255 and [data_max] at 0. *)
Definition scan_density (extrema : Z * Z) (d : Z) : Z * Z :=
  let '(data_min, data_max) := extrema in
  let data_max := if data_max <? d then d else data_max in
  let data_min := if d <? data_min then d else data_min in
  (data_min, data_max).

Definition scan_extrema (dens : list Z) : Z * Z :=
  fold_left scan_density dens (255, 0).

(** The body of the second loop: [densities[i] -= data_min] in
    [unsigned char], then the product with [scaling] converted back to
    [unsigned char]. *)
Definition rescale (scaling : float) (data_min d : Z) : outcome Z :=
  let d := u8 (d - data_min) in
  to_unsigned 8 (F32.mul (F32.of_int d) scaling).

Fixpoint rescale_all (scaling : float) (data_min : Z) (dens : list Z)
  : outcome (list Z) :=
  match dens with
  | [] => Done []
  | d :: dens' =>
      d' <- rescale scaling data_min d ;;
      rest <- rescale_all scaling data_min dens' ;;
      Done (d' :: rest)
  end.

Definition normalize (vol : Volume) : outcome Volume :=
  let '(data_min, data_max) := scan_extrema (densities vol) in
  let scaling := F32.div (F32.of_int 255) (F32.of_int (data_max - data_min)) in
  dens <- rescale_all scaling data_min (densities vol) ;;
  Done {| resolution := resolution vol; bounds := bounds vol;
          densities := dens; voxel_tangents := voxel_tangents vol |}.

(* ===================================================================== *)
(** * Reference definitions, in the words of the specification *)
(* ===================================================================== *)

(** The true per-axis extrema of a non-empty vertex set: the reduction
    starts from the first vertex. *)
Definition true_extrema (vs : list (vec3 float))
  : option (vec3 float * vec3 float) :=
  match vs with
  | [] => None
  | v :: vs' => Some (fold_left grow_aabb vs' (v, v))
  end.

(** The box the specification asks for: anchored at the true minimum, with
    size maximum minus minimum. *)
Definition true_box (vs : list (vec3 float))
  : option (vec3 float * vec3 float) :=
  match true_extrema vs with
  | Some (lo, hi) => Some (lo, V3.sub hi lo)
  | None => None
  end.

Definition strictly_positive (v : vec3 float) : Prop :=
  F32.ltb F32.zero (vx v) = true /\ F32.ltb F32.zero (vy v) = true
  /\ F32.ltb F32.zero (vz v) = true.

(** The strands of an asset as the data model describes them: strand [i]
    owns the [segments[i] + 1] consecutive vertices that start after the
    vertices of the strands before it.  A strand is given here by the
    offset of its first vertex and its segment count. *)
Fixpoint table_from (counts : list Z) (offset : nat) : list (nat * Z) :=
  match counts with
  | [] => []
  | c :: counts' =>
      (offset, c) :: table_from counts' (offset + Z.to_nat c + 1)
  end.

(** The segment count of every strand: the [segments] array, or the
    uniform default when it is absent. *)
Definition segment_counts {F} (hs : HairStyle F) : list Z :=
  if has_segments hs then segments hs
  else repeat (get_default_segment_count hs)
              (Z.to_nat (strand_count (file_header hs))).

Definition strand_table {F} (hs : HairStyle F) : list (nat * Z) :=
  table_from (segment_counts hs) 0.

(** The vertices (or per-vertex attributes) of one strand, in order. *)
Definition strand_slice {A} (v : list A) (st : nat * Z) : list A :=
  firstn (Z.to_nat (snd st) + 1) (skipn (fst st) v).

(** The number of vertices of a list of strands. *)
Definition vertex_total (counts : list Z) : nat :=
  list_sum (map (fun c => (Z.to_nat c + 1)%nat) counts).

(** An optional per-vertex array is absent or has one element per vertex. *)
Definition aligned {A B} (a : list A) (vs : list B) : Prop :=
  a = [] \/ length a = length vs.

(** The invariants of the data model: at least one strand, segment counts
    in the unsigned 16-bit range, counts that fit their C++ types,
    [vertex_count] equal to the sum of [segments[i] + 1], and every
    present per-vertex array aligned with the vertices. *)
Definition well_formed {F} (hs : HairStyle F) : Prop :=
  Forall (fun c => 0 <= c < 2 ^ 16) (segment_counts hs)
  /\ (0 < length (segment_counts hs))%nat
  /\ Z.of_nat (length (segment_counts hs)) < 2 ^ 32
  /\ vertex_total (segment_counts hs) = length (vertices hs)
  /\ Z.of_nat (length (vertices hs)) < 2 ^ 31
  /\ aligned (thickness hs) (vertices hs)
  /\ aligned (tangents hs) (vertices hs)
  /\ aligned (transparency hs) (vertices hs)
  /\ aligned (color hs) (vertices hs).

(** Every draw of the sampling loop lands inside the working set: the
    loop makes [iters] draws from the generator state [x], the working set
    has [n] entries at the first draw and one fewer after each. *)
Fixpoint draws_in_range (x : Z) (n iters : nat) : bool :=
  match iters with
  | O => true
  | S iters' =>
      match random_strand (xorshift64 x) n with
      | Done r =>
          (r <? Z.of_nat n) && draws_in_range (xorshift64 x) (pred n) iters'
      | Undefined => false
      end
  end.

(** The number of iterations of [while (--strands_left && size != 0)]
    when no draw is out of range. *)
Definition iterations (left : Z) (n : nat) : nat :=
  Nat.min (Z.to_nat (u32 (left - 1))) n.

(** A strand that lies inside the vertex array and whose segment count is
    in the 16-bit range. *)
Definition valid_strand {F} (hs : HairStyle F) (st : nat * Z) : Prop :=
  0 <= snd st < 2 ^ 16
  /\ (fst st + Z.to_nat (snd st) + 1 <= length (vertices hs))%nat.

(** What the sampling loop maintains.  [W] lists the strands still in the
    working set, in the order of their slots; [P] lists the strands copied
    so far, in the order they were drawn.  Together they are the strands
    of the asset, each exactly once, and every output array is the
    concatenation of the slices of the strands in [P]. *)
Definition sampler_invariant {F} (hs : HairStyle F) (s : sampler F)
    (W P : list (nat * Z)) : Prop :=
  strand_offset s = map fst W
  /\ work_segments s = (if has_segments hs then map snd W else [])
  /\ (has_segments hs = false ->
      Forall (fun st => snd st = get_default_segment_count hs) W)
  /\ Forall (valid_strand hs) W
  /\ reduced_segments s = map snd P
  /\ reduced_vertices s = flat_map (strand_slice (vertices hs)) P
  /\ reduced_thickness s = flat_map (strand_slice (thickness hs)) P
  /\ reduced_tangents s = flat_map (strand_slice (tangents hs)) P
  /\ reduced_transparency s = flat_map (strand_slice (transparency hs)) P
  /\ reduced_color s = flat_map (strand_slice (color hs)) P
  /\ Permutation (P ++ W) (strand_table hs).

(** Every value of the asset fits the C++ type it is stored in, so that
    its object representation can be read back: the counts fit 32 bits,
    the segment counts 16 bits, the information text fills its buffer, and
    every scalar is a value of [float]. *)
Definition storable {F} (cF : Codec F) (information_size : nat)
    (hs : HairStyle F) : Prop :=
  let h := file_header hs in
  size (segments hs) < 2 ^ 32
  /\ size (vertices hs) < 2 ^ 32
  /\ 0 <= strand_count h < 2 ^ 32
  /\ 0 <= default_segment_count h < 2 ^ 32
  /\ length (information h) = information_size
  /\ representable cF (default_thickness h)
  /\ representable cF (default_transparency h)
  /\ representable_vec3 cF (default_color h)
  /\ representable_vec3 cF (bounding_box_min h)
  /\ representable_vec3 cF (bounding_box_max h)
  /\ Forall (representable u16_codec) (segments hs)
  /\ Forall (representable_vec3 cF) (vertices hs)
  /\ Forall (representable cF) (thickness hs)
  /\ Forall (representable cF) (transparency hs)
  /\ Forall (representable_vec3 cF) (color hs)
  /\ Forall (representable_vec3 cF) (tangents hs)
  /\ Forall (representable u32_codec) (indices hs).

(** A default-constructed object: every array is empty. *)
Definition default_constructed {F} (hs : HairStyle F) : Prop :=
  segments hs = [] /\ vertices hs = [] /\ thickness hs = []
  /\ transparency hs = [] /\ color hs = [] /\ tangents hs = []
  /\ indices hs = [].

(** The index array is absent or has two entries per segment, as [load]
    sizes it. *)
Definition indices_sized {F} (hs : HairStyle F) : Prop :=
  indices hs = [] \/ size (indices hs) = u32 (get_segment_count hs * 2).

(** The forward difference at vertex [v]:
    [normalize(vertex[v + 1] - vertex[v])]. *)
Definition forward_tangent (vs : list (vec3 float)) (v : nat) : vec3 float :=
  V3.normalize (V3.sub (nth (S v) vs V3.zero) (nth v vs V3.zero)).

(** The first strand of the asset, if any, has at least one segment. *)
Definition first_strand_has_segment {F} (hs : HairStyle F) : Prop :=
  match segment_counts hs with
  | c :: _ => 0 < c
  | [] => True
  end.

(** The rule that the tangents [ts] of one strand obey: a forward
    difference at every vertex but the last, and at the last vertex the
    tangent stored just before it. *)
Definition strand_rule (vs ts : list (vec3 float)) (st : nat * Z) : Prop :=
  (forall k, (k < Z.to_nat (snd st))%nat ->
     nth_error ts (fst st + k) = Some (forward_tangent vs (fst st + k)))
  /\ exists t,
       nth_error ts (fst st + Z.to_nat (snd st)) = Some t
       /\ nth_error ts (fst st + Z.to_nat (snd st) - 1) = Some t.

(** The working set after slot 0 has been removed by the swap with the
    last entry: the last entry takes slot 0. *)
Definition remove_slot_zero {A} (W : list A) : list A :=
  match W with
  | [] => []
  | w :: W0 =>
      match W0 with
      | [] => []
      | _ :: _ => last W0 w :: removelast W0
      end
  end.

(** The entries that [k] iterations select when each of them takes slot 0
    of the working set [W]. *)
Fixpoint slot_zero_picks {A} (k : nat) (W : list A) : list A :=
  match k, W with
  | S k', w :: _ => w :: slot_zero_picks k' (remove_slot_zero W)
  | _, _ => []
  end.

(** The order in which the entries of [W] reach slot 0: the first, then
    the others from the last backwards. *)
Definition slot_zero_order {A} (W : list A) : list A :=
  match W with
  | [] => []
  | w :: W0 => w :: rev W0
  end.

(* ===================================================================== *)
(** * Reference definitions for the generators, the codec and the volume *)
(* ===================================================================== *)

(** The thickness of one strand of [c] segments: the radius at every
    vertex but the last, zero at the tip. *)
Definition tapered (radius : float) (c : Z) : list float :=
  repeat radius (Z.to_nat c) ++ [F32.zero].

(** The index pairs of one strand: [(a, a + 1)] for every vertex [a] of
    the strand but its tip. *)
Definition strand_indices (st : nat * Z) : list Z :=
  flat_map (fun a => [Z.of_nat a; Z.of_nat (S a)])
           (seq (fst st) (Z.to_nat (snd st))).

(** ** The order of [float] away from NaN *)

Definition is_nan (x : float) : bool :=
  match x with S754_nan => true | _ => false end.

(** [x <= y] for two values that are not NaN: [y < x] fails. *)
Definition le32 (x y : float) : Prop :=
  is_nan x = false /\ is_nan y = false /\ F32.ltb y x = false.

Definition vec3_le (a b : vec3 float) : Prop :=
  le32 (vx a) (vx b) /\ le32 (vy a) (vy b) /\ le32 (vz a) (vz b).

Definition inside_box (lo hi v : vec3 float) : Prop :=
  vec3_le lo v /\ vec3_le v hi.

Definition no_nan (v : vec3 float) : Prop :=
  is_nan (vx v) = false /\ is_nan (vy v) = false /\ is_nan (vz v) = false.

Definition nan_vertex : vec3 float := Vec3 S754_nan S754_nan S754_nan.

(** A key that orders the values other than NaN as the comparison of
    [float] does: by sign class, then exponent, then mantissa. *)
Definition order_key (x : float) : Z * Z * Z :=
  match x with
  | S754_nan => (0, 0, 0)
  | S754_zero _ => (0, 0, 0)
  | S754_infinity s => (if s then -2 else 2, 0, 0)
  | S754_finite s m e =>
      if s then (-1, - e, - Z.pos m) else (1, e, Z.pos m)
  end.

Definition key_lt (a b : Z * Z * Z) : Prop :=
  let '(a1, a2, a3) := a in
  let '(b1, b2, b3) := b in
  a1 < b1 \/ (a1 = b1 /\ (a2 < b2 \/ (a2 = b2 /\ a3 < b3))).

(** ** The codec *)


(** What [load] does to one array: a present section is resized to [n]
    elements, an absent one leaves the array as it was. *)
Definition section_shape {T} (present : bool) (n : nat) (old new : list T)
  : Prop :=
  if present then length new = n else new = old.

(** ** The generator *)

(** [x ^= x << k] on 64 bits, and [x ^= x >> k]. *)
Definition xor_shl (k x : Z) : Z := Z.lxor x (u64 (Z.shiftl x k)).
Definition xor_shr (k x : Z) : Z := Z.lxor x (Z.shiftr x k).

(** ** The volume *)

(** The number of samples counted in a grid. *)
Definition total_density (dens : list Z) : Z := fold_right Z.add 0 dens.

(** What [normalize] stores for a density that lies [v] above the minimum
    when the densities span a range of [r]. *)
Definition stretch (r v : Z) : outcome Z :=
  to_unsigned 8
    (F32.mul (F32.of_int v) (F32.div (F32.of_int 255) (F32.of_int r))).

Definition stretched (r v : Z) : Z :=
  match stretch r v with Done t => t | Undefined => 0 end.

(** The values of [stretch r] on [0 .. r], with the scaling factor
    computed once. *)
Definition stretch_row (r : nat) : list (outcome Z) :=
  let scaling := F32.div (F32.of_int 255) (F32.of_int (Z.of_nat r)) in
  map (fun v => to_unsigned 8 (F32.mul (F32.of_int (Z.of_nat v)) scaling))
      (seq 0 (S r)).

(** A row is defined everywhere, does not decrease, stays below 256 and
    ends at 254 or above. *)
Fixpoint row_ok (prev : Z) (row : list (outcome Z)) : bool :=
  match row with
  | [] => 254 <=? prev
  | Done t :: row' => (prev <=? t) && (t <=? 255) && row_ok t row'
  | Undefined :: _ => false
  end.

Definition row_from_zero_ok (row : list (outcome Z)) : bool :=
  match row with
  | Done 0 :: row' => row_ok 0 row'
  | _ => false
  end.

(* ===================================================================== *)
(** * Sample assets *)
(* ===================================================================== *)

(** A header with every scalar set to [d], an information text of 64 null
    bytes and an empty bitfield. *)
Definition plain_header {F} (d : F) (strands default_segments : Z)
  : FileHeader F :=
  {| signature := signature_HAIR;
     strand_count := strands;
     vertex_count := 0;
     field :=
       {| has_segments_bit := false; has_vertices_bit := false;
          has_thickness_bit := false; has_transparency_bit := false;
          has_color_bit := false; has_tangents_bit := false;
          has_indices_bit := false; future_extension := 0;
          has_bounding_box_bit := false |};
     default_segment_count := default_segments;
     default_thickness := d;
     default_transparency := d;
     default_color := Vec3 d d d;
     bounding_box_min := Vec3 d d d;
     bounding_box_max := Vec3 d d d;
     information := repeat Byte.x00 64 |}.

(** An asset that has only segments and vertices. *)
Definition strands_of {F} (d : F) (segs : list Z) (vs : list (vec3 F))
    (rng_state : Z) : HairStyle F :=
  {| file_header := plain_header d (size segs) 0;
     segments := segs; vertices := vs;
     thickness := []; transparency := []; color := []; tangents := [];
     indices := []; seed := rng_state; error_state := ErrNone |}.

Definition set_vertex_tangents {F} (hs : HairStyle F) (t : list (vec3 F))
    (ix : list Z) : HairStyle F :=
  set_indices (set_tangents hs t) ix.

Definition point (a b c : Z) : vec3 float :=
  Vec3 (F32.of_int a) (F32.of_int b) (F32.of_int c).

(** Two points with strictly positive coordinates, and their mirror image. *)
Definition positive_cloud : HairStyle float :=
  strands_of F32.one [1] [point 1 1 1; point 2 2 2] 1.
Definition negative_cloud : HairStyle float :=
  strands_of F32.one [1] [point (-1) (-1) (-1); point (-2) (-2) (-2)] 1.

(** One strand of three vertices with a right-angle bend. *)
Definition bent_strand : HairStyle float :=
  strands_of F32.one [2] [point 0 0 0; point 1 0 0; point 1 1 0] 1.

(** One strand that is a single vertex. *)
Definition lone_vertex : HairStyle float :=
  strands_of F32.one [0] [point 0 0 0] 1.

(** A two-vertex strand followed by a single-vertex strand. *)
Definition strand_then_vertex : HairStyle float :=
  strands_of F32.one [1; 0] [point 0 0 0; point 0 0 2; point 5 5 5] 1.

(** One strand along the x axis with its tangents, indices and bounding
    box, to be voxelized on a grid of two voxels. *)
Definition axis_strand : HairStyle float :=
  generate_bounding_box
    (set_vertex_tangents
       (strands_of F32.one [1] [point 1 1 1; point 2 1 1] 1)
       [point 1 0 0; point 1 0 0] [0; 1]).

(** One vertex, no thickness array, default thickness [1.0]. *)
Definition bare_vertex : HairStyle float :=
  strands_of F32.one [0] [point 1 2 3] 1.

(** Four strands of two vertices each, with a thickness per vertex. *)
Definition four_strands (rng_state : Z) : HairStyle float :=
  {| file_header := plain_header F32.one 4 1;
     segments := [1; 1; 1; 1];
     vertices := map (fun n => point n n n) [0; 1; 2; 3; 4; 5; 6; 7];
     thickness := map F32.of_int [10; 11; 12; 13; 14; 15; 16; 17];
     transparency := []; color := []; tangents := []; indices := [];
     seed := rng_state; error_state := ErrNone |}.

(** Three strands of two vertices each. *)
Definition three_strands (rng_state : Z) : HairStyle float :=
  strands_of F32.one [1; 1; 1]
    (map (fun n => point n n n) [0; 1; 2; 3; 4; 5]) rng_state.

Definition one_half : float := lit 1 2.
Definition one_quarter : float := lit 1 4.

(** The state from which [xorshift64] draws [2^64 - 1]. *)
Definition unlucky_seed : Z := 7650297886450228676.

(** Floats as the four bytes of their object representation. *)
Definition raw_float : Type := byte * byte * byte * byte.

Definition raw_codec : Codec raw_float :=
  {| width := 4;
     encode := fun '(a, b, c, d) => [a; b; c; d];
     decode := fun l =>
       (nth 0 l Byte.x00, nth 1 l Byte.x00, nth 2 l Byte.x00, nth 3 l Byte.x00);
     representable := fun _ => True |}.

Definition raw (a : byte) : raw_float := (a, Byte.x00, Byte.x00, Byte.x00).
Definition raw_point (a : byte) : vec3 raw_float := Vec3 (raw a) (raw a) (raw a).

(** A default-constructed object, into which a file is loaded. *)
Definition empty_asset : HairStyle raw_float :=
  strands_of (raw Byte.x00) [] [] 0.

(** Two strands, five vertices, thickness and tangents for every vertex,
    indices for every segment. *)
Definition full_asset : HairStyle raw_float :=
  {| file_header := plain_header (raw Byte.x01) 7 3;
     segments := [2; 1];
     vertices := map raw_point [Byte.x01; Byte.x02; Byte.x03; Byte.x04; Byte.x05];
     thickness := map raw [Byte.x0a; Byte.x0b; Byte.x0c; Byte.x0d; Byte.x0e];
     transparency := []; color := [];
     tangents := map raw_point [Byte.x11; Byte.x12; Byte.x13; Byte.x14; Byte.x15];
     indices := [0; 1; 1; 2; 3; 4];
     seed := 1; error_state := ErrNone |}.

(** One strand of two vertices with a single tangent: the structural check
    of [save] accepts it. *)
Definition short_tangents : HairStyle raw_float :=
  {| file_header := plain_header (raw Byte.x01) 1 1;
     segments := [1];
     vertices := map raw_point [Byte.x01; Byte.x02];
     thickness := []; transparency := []; color := [];
     tangents := [raw_point Byte.x11];
     indices := [];
     seed := 1; error_state := ErrNone |}.

(** Discharges [well_formed] on a sample asset. *)
Ltac well_formed_sample :=
  unfold well_formed, segment_counts, aligned; cbn;
  repeat split; try lia; try (repeat constructor; lia);
  try (left; reflexivity); try (right; reflexivity).

(** One strand along the diagonal of its bounding box, with tangents and
    indices. *)
Definition diagonal_strand : HairStyle float :=
  generate_bounding_box
    (set_vertex_tangents
       (strands_of F32.one [1] [point 0 0 0; point 2 2 2] 1)
       [point 1 0 0; point 1 0 0] [0; 1]).

(** A grid of one saturated and one nearly empty voxel. *)
Definition two_voxels : Volume :=
  {| resolution := Vec3 (F32.of_int 2) (F32.of_int 1) (F32.of_int 1);
     bounds := get_bounding_box diagonal_strand;
     densities := [3; 10];
     voxel_tangents := [] |}.

(** A grid that no sample has reached. *)
Definition empty_grid : Volume :=
  {| resolution := Vec3 (F32.of_int 2) (F32.of_int 1) (F32.of_int 1);
     bounds := get_bounding_box diagonal_strand;
     densities := [0; 0];
     voxel_tangents := [] |}.

(** A unit vector along the x axis. *)
Definition x_axis : vec3 float := point 1 0 0.

(** Three vertices, the second with NaN coordinates. *)
Definition poisoned_cloud : HairStyle float :=
  strands_of F32.one [2] [point 5 5 5; nan_vertex; point 1 1 1] 1.

(** The object and the file that [save] leaves for [full_asset], and the
    asset that [load] makes of that file in a freshly constructed
    object. *)
Definition full_asset_saved : HairStyle raw_float :=
  fst (save raw_codec 64 full_asset).

Definition full_asset_file : list byte :=
  match snd (save raw_codec 64 full_asset) with
  | Some bytes => bytes
  | None => []
  end.

Definition full_asset_loaded : HairStyle raw_float :=
  match load raw_codec 64 (Some full_asset_file) empty_asset with
  | inr loaded => loaded
  | inl _ => empty_asset
  end.

(** The volume of [diagonal_strand] on a grid of two voxels: each voxel
    holds one of the two vertices. *)
Definition diagonal_volume : Volume :=
  {| resolution := Vec3 (F32.of_int 2) (F32.of_int 1) (F32.of_int 1);
     bounds := get_bounding_box diagonal_strand;
     densities := [1; 1];
     voxel_tangents := [I8vec4 127 0 0 0; I8vec4 127 0 0 0] |}.

(* ===================================================================== *)
(** * Properties of the procedural generators *)
(* ===================================================================== *)

Lemma obind_done {A B} (m : outcome A) (k : A -> outcome B) (b : B) :
  obind m k = Done b -> exists a, m = Done a /\ k a = Done b.
Proof. destruct m as [a|]; simpl; [eauto | discriminate]. Qed.

(** ** Bounding box *)

(** The minimum corner never rises above the zero vector it starts from:
    once a coordinate of the running minimum is zero, a strictly positive
    coordinate leaves it there. *)
Lemma grow_aabb_keeps_zero_min (vs : list (vec3 float)) (hi : vec3 float) :
  Forall strictly_positive vs ->
  fst (fold_left grow_aabb vs (V3.zero, hi)) = V3.zero.
Proof.
  revert hi. induction vs as [|v vs IH]; intros hi Hpos; [reflexivity|].
  inversion Hpos as [|? ? (Hx & Hy & Hz) Hrest]; subst.
  simpl. unfold F32.min at 1 2 3. simpl. rewrite Hx, Hy, Hz.
  apply IH. exact Hrest.
Qed.

(** Whatever the asset, a cloud of strictly positive points gets a box
    anchored at the zero vector. *)
Lemma positive_points_box_origin (hs : HairStyle float) :
  Forall strictly_positive (vertices hs) ->
  origin (get_bounding_box (generate_bounding_box hs)) = V3.zero.
Proof.
  intros Hpos. unfold generate_bounding_box, get_bounding_box.
  pose proof (grow_aabb_keeps_zero_min (vertices hs) V3.zero Hpos) as H.
  destruct (fold_left grow_aabb (vertices hs) (V3.zero, V3.zero)) as [lo hi].
  simpl in *. exact H.
Qed.

(** C3, on the code: for the strictly positive cloud {(1,1,1), (2,2,2)}
    [generate_bounding_box] followed by [get_bounding_box] reports origin
    (0,0,0) and size (2,2,2), whereas the true minimum is (1,1,1) and the
    true extent (1,1,1); for the mirrored strictly negative cloud the
    origin is the true minimum (-2,-2,-2) but the size is (2,2,2) instead
    of (1,1,1), because the maximum stays at zero. *)
Theorem bounding_box_includes_zero :
  origin (get_bounding_box (generate_bounding_box positive_cloud))
    = point 0 0 0
  /\ aabb_size (get_bounding_box (generate_bounding_box positive_cloud))
    = point 2 2 2
  /\ true_box (vertices positive_cloud) = Some (point 1 1 1, point 1 1 1)
  /\ origin (get_bounding_box (generate_bounding_box negative_cloud))
    = point (-2) (-2) (-2)
  /\ aabb_size (get_bounding_box (generate_bounding_box negative_cloud))
    = point 2 2 2
  /\ true_box (vertices negative_cloud)
    = Some (point (-2) (-2) (-2), point 1 1 1).
Proof. repeat split; vm_compute; reflexivity. Qed.

(** ** Tangents *)

(** The single-strand example of the specification: vertices (0,0,0),
    (1,0,0), (1,1,0) get tangents (1,0,0), (0,1,0), (0,1,0). *)
Lemma generate_tangents_bent_strand :
  generate_tangents bent_strand
  = Done (set_tangents bent_strand [point 1 0 0; point 0 1 0; point 0 1 0]).
Proof. vm_compute. reflexivity. Qed.

(** A single-vertex strand that follows another strand copies the tangent
    stored last, which belongs to the tip of the strand before it. *)
Lemma generate_tangents_strand_then_vertex :
  generate_tangents strand_then_vertex
  = Done (set_tangents strand_then_vertex
            [point 0 0 1; point 0 0 1; point 0 0 1]).
Proof. vm_compute. reflexivity. Qed.

(** C7, on the code: for an asset whose first strand has no segment,
    [generate_tangents] calls [tangents.back()] on the still empty vector,
    so no tangent is defined for a strand of segment length 0 in first
    position. *)
Theorem generate_tangents_lone_vertex :
  generate_tangents lone_vertex = Undefined.
Proof. vm_compute. reflexivity. Qed.

(** ** Fused buffers *)

(** Without a thickness array the fused position buffer carries the
    constant 0.042 for every vertex, whatever the default thickness. *)
Lemma position_thickness_entry_absent (hs : HairStyle float) (i : nat) v :
  has_thickness hs = false ->
  nth_error (vertices hs) i = Some v ->
  position_thickness_entry hs i = Done (vec4_of v F32.lit_0_042).
Proof.
  intros Ht Hv. unfold position_thickness_entry, at_index.
  rewrite Ht, Hv. reflexivity.
Qed.

Lemma tangent_transparency_entry_absent (hs : HairStyle float) (i : nat) t :
  has_transparency hs = false ->
  nth_error (tangents hs) i = Some t ->
  tangent_transparency_entry hs i
  = Done (vec4_of t (get_default_transparency hs)).
Proof.
  intros Ht Hv. unfold tangent_transparency_entry, at_index.
  rewrite Ht, Hv. reflexivity.
Qed.

Lemma color_transparency_entry_absent (hs : HairStyle float) (i : nat) :
  has_transparency hs = false ->
  has_color hs = false ->
  color_transparency_entry hs i
  = Done (vec4_of (get_default_color hs) (get_default_transparency hs)).
Proof.
  intros Ht Hc. unfold color_transparency_entry. rewrite Ht, Hc. reflexivity.
Qed.

(** C9, on the code: for an asset with one vertex (1,2,3), no thickness
    array and default thickness 1.0, [create_position_thickness_data]
    yields ((1,2,3), 0.042) and not ((1,2,3), 1.0): the fallback is the
    literal 0.042f, not the asset's default thickness. *)
Theorem position_thickness_ignores_default :
  create_position_thickness_data bare_vertex
  = Done [vec4_of (point 1 2 3) F32.lit_0_042]
  /\ get_default_thickness bare_vertex = F32.one
  /\ F32.lit_0_042 = lit 42 1000
  /\ vec4_of (point 1 2 3) F32.lit_0_042
     <> vec4_of (point 1 2 3) (get_default_thickness bare_vertex).
Proof.
  repeat split; try (vm_compute; reflexivity).
  vm_compute. discriminate.
Qed.

(* ===================================================================== *)
(** * Properties of the voxelizer *)
(* ===================================================================== *)

(** Dividing by a density of zero leaves no finite value: the first
    component of the average is NaN or an infinity, whose conversion to a
    signed byte is undefined. *)
Lemma quantize_empty_voxel (t : vec3 float) : quantize_voxel t 0 = Undefined.
Proof.
  destruct t as [x y z]. unfold quantize_voxel, average_tangent. simpl.
  destruct x as [s|s| |s m e]; reflexivity.
Qed.

(** C8, on the code: the finalization loop has no special case for an
    empty voxel.  Voxelizing the two-vertex strand from (1,1,1) to (2,1,1)
    on a grid of 2 x 1 x 1 voxels leaves voxel 0 with density 0 and summed
    tangent (0,0,0) in both variants; the loop then computes
    (0,0,0) / 0.0f * 127.0f, which is NaN in every component, and the
    conversion of NaN to a signed byte is undefined. *)
Theorem empty_voxel_divides_by_zero :
  accumulate_vertices axis_strand 2 1 1
    = Done ([0; 2], [V3.zero; point 2 0 0])
  /\ accumulate_segments 1 axis_strand 2 1 1
    = Some (Done ([0; 1], [V3.zero; point 1 0 0]))
  /\ average_tangent V3.zero 0 = Vec3 S754_nan S754_nan S754_nan
  /\ voxelize_vertices axis_strand 2 1 1 = Undefined
  /\ voxelize_segments 1 axis_strand 2 1 1 = Some Undefined.
Proof. repeat split; vm_compute; reflexivity. Qed.

(* ===================================================================== *)
(** * Properties of the shading pass *)
(* ===================================================================== *)

(** The occlusion test answers what the kernel found. *)
Lemma occluded_by_blocked (blocked : bool) :
  occluded_by blocked (S754_infinity false) = blocked.
Proof. destruct blocked; reflexivity. Qed.

(** C2, on the code: with shadows on, a hit whose shadow ray is not
    blocked keeps the ambient albedo alone, and a hit whose shadow ray is
    blocked gets the Kajiya-Kay term added at half weight; with shadows
    off the term replaces the colour at full weight. *)
Theorem shade_hit_lights_occluded_hits
    (powf : float -> float -> float) (tangent : vec4 float) :
  let ambient := vec4_of (V3.scale hair_color (lit 5 10)) F32.one in
  let shading :=
    kajiya_kay powf hair_color light_color (F32.of_int 80)
      (V4.xyz (V4.normalize tangent)) light V3.zero in
  shade_hit powf false false tangent = ambient
  /\ shade_hit powf false true tangent
     = V4.add ambient (vec4_of (V3.scale shading (lit 5 10)) F32.zero)
  /\ (forall blocked,
        shade_hit powf true blocked tangent = vec4_of shading F32.one).
Proof.
  repeat split.
  intros blocked. unfold shade_hit. rewrite orb_true_r. reflexivity.
Qed.

(* ===================================================================== *)
(** * Facts about the floating-point conversions *)
(* ===================================================================== *)

(** ** Digits and shifts *)

(** A positive number with [d] binary digits lies in [[2^(d-1), 2^d)]. *)
Lemma digits2_bounds (p : positive) :
  2 ^ (Z.pos (digits2_pos p) - 1) <= Z.pos p < 2 ^ Z.pos (digits2_pos p).
Proof.
  induction p as [p IH|p IH|]; cbn [digits2_pos].
  - rewrite Pos2Z.inj_succ.
    replace (Z.succ (Z.pos (digits2_pos p)) - 1)
      with (Z.succ (Z.pos (digits2_pos p) - 1)) by lia.
    rewrite !Z.pow_succ_r by lia. lia.
  - rewrite Pos2Z.inj_succ.
    replace (Z.succ (Z.pos (digits2_pos p)) - 1)
      with (Z.succ (Z.pos (digits2_pos p) - 1)) by lia.
    rewrite !Z.pow_succ_r by lia. lia.
  - cbn. lia.
Qed.

(** The number of binary digits is determined by the two powers of two
    that enclose the number. *)
Lemma digits2_unique (p : positive) (k : Z) :
  2 ^ (k - 1) <= Z.pos p < 2 ^ k -> Z.pos (digits2_pos p) = k.
Proof.
  intros [Hlo Hhi]. pose proof (digits2_bounds p) as [Dlo Dhi].
  set (d := Z.pos (digits2_pos p)) in *.
  assert (Hk : 0 < k).
  { destruct (Z_lt_le_dec 0 k) as [|Hle]; [assumption|].
    assert (2 ^ k <= 1).
    { destruct (Z.eq_dec k 0) as [->|]; [cbn; lia|].
      rewrite Z.pow_neg_r by lia. lia. }
    lia. }
  destruct (Z.lt_trichotomy d k) as [Hlt|[Heq|Hgt]]; [|assumption|].
  - assert (2 ^ d <= 2 ^ (k - 1)) by (apply Z.pow_le_mono_r; lia). lia.
  - assert (2 ^ k <= 2 ^ (d - 1)) by (apply Z.pow_le_mono_r; lia). lia.
Qed.

(** One step of the shift register halves the mantissa. *)
Lemma shr_1_m (mrs : shr_record) :
  0 <= shr_m mrs -> shr_m (shr_1 mrs) = shr_m mrs / 2.
Proof.
  destruct mrs as [m r s]. simpl. intros Hm. rewrite <- Z.div2_div.
  destruct m as [|[p|p|]|p]; try reflexivity; lia.
Qed.

Lemma pow2_xO (k : positive) : 2 ^ Z.pos k~0 = 2 ^ Z.pos k * 2 ^ Z.pos k.
Proof.
  replace (Z.pos k~0) with (Z.pos k + Z.pos k) by lia.
  apply Z.pow_add_r; lia.
Qed.

Lemma pow2_xI (k : positive) : 2 ^ Z.pos k~1 = 2 * (2 ^ Z.pos k * 2 ^ Z.pos k).
Proof.
  replace (Z.pos k~1) with (Z.succ (Z.pos k + Z.pos k)) by lia.
  rewrite Z.pow_succ_r, Z.pow_add_r by lia. reflexivity.
Qed.

Lemma iter_shr_1_m (k : positive) : forall mrs,
  0 <= shr_m mrs ->
  shr_m (iter_pos shr_1 k mrs) = shr_m mrs / 2 ^ Z.pos k.
Proof.
  induction k as [k IH|k IH|]; intros mrs Hm; simpl iter_pos.
  - assert (H1 : 0 <= shr_m (shr_1 mrs))
      by (rewrite shr_1_m by assumption; apply Z.div_pos; lia).
    assert (H2 : 0 <= shr_m (iter_pos shr_1 k (shr_1 mrs)))
      by (rewrite IH by assumption; apply Z.div_pos; lia).
    rewrite IH, IH, shr_1_m by assumption.
    rewrite !Z.div_div by lia. rewrite pow2_xI. f_equal; lia.
  - assert (H2 : 0 <= shr_m (iter_pos shr_1 k mrs))
      by (rewrite IH by assumption; apply Z.div_pos; lia).
    rewrite IH, IH by assumption. rewrite Z.div_div by lia.
    rewrite pow2_xO. reflexivity.
  - rewrite shr_1_m by assumption. reflexivity.
Qed.
Lemma iter_xO_value (p k : positive) :
  Z.pos (Pos.iter xO p k) = Z.pos p * 2 ^ Z.pos k.
Proof.
  induction k as [|k IH] using Pos.peano_ind.
  - simpl. lia.
  - rewrite Pos.iter_succ, Pos2Z.inj_xO, IH, Pos2Z.inj_succ, Z.pow_succ_r by lia.
    lia.
Qed.

Lemma round_nearest_even_bounds (m : Z) (l : location) :
  m <= round_nearest_even m l <= m + 1.
Proof.
  destruct l as [|[]]; simpl; try lia. destruct (Z.even m); lia.
Qed.

Section OfInt.
Variables prec emax : Z.
Hypothesis Hprec : 1 < prec.
Hypothesis Hemax : prec < emax.

(** Rounding a mantissa that already has [prec] digits changes nothing. *)
Lemma binary_round_aux_exact (s : bool) (m : positive) (e : Z) :
  Z.pos (digits2_pos m) = prec ->
  emin prec emax <= e <= emax - prec ->
  binary_round_aux prec emax s (Z.pos m) e loc_Exact = S754_finite s m e.
Proof.
  intros Hd He. unfold binary_round_aux, shr_fexp.
  cbn [Zdigits2]. rewrite Hd.
  replace (fexp prec emax (prec + e) - e) with 0 by (unfold fexp; lia).
  cbn [shr shr_record_of_loc shr_m round_nearest_even loc_of_shr_record
       Zdigits2].
  rewrite Hd.
  replace (fexp prec emax (prec + e) - e) with 0 by (unfold fexp; lia).
  cbn [shr shr_record_of_loc shr_m].
  replace (e <=? emax - prec) with true by (symmetry; apply Z.leb_le; lia).
  reflexivity.
Qed.

(** Rounding an integer with more than [prec] digits. *)
Lemma binary_round_aux_shift (p : positive) :
  let d := Z.pos (digits2_pos p) in
  prec < d -> d < emax ->
  exists m e,
    binary_round_aux prec emax false (Z.pos p) 0 loc_Exact
      = S754_finite false m e
    /\ Z.pos (digits2_pos m) = prec /\ 0 < e <= d - prec + 1.
Proof.
  intros d Hd Hmax.
  pose proof (digits2_bounds p) as Hb. fold d in Hb.
  unfold binary_round_aux, shr_fexp. simpl Zdigits2. fold d.
  replace (fexp prec emax (d + 0) - 0) with (d - prec)
    by (unfold fexp, emin; lia).
  destruct (d - prec) as [|n|n] eqn:En; try lia.
  unfold shr at 1.
  set (mrs := iter_pos shr_1 n (shr_record_of_loc (Z.pos p) loc_Exact)).
  assert (Hm : shr_m mrs = Z.pos p / 2 ^ Z.pos n)
    by (unfold mrs; rewrite iter_shr_1_m; simpl; [reflexivity | lia]).
  assert (Hpow : 2 ^ d = 2 ^ prec * 2 ^ Z.pos n)
    by (rewrite <- Z.pow_add_r by lia; f_equal; lia).
  assert (Hpow' : 2 ^ (d - 1) = 2 ^ (prec - 1) * 2 ^ Z.pos n)
    by (rewrite <- Z.pow_add_r by lia; f_equal; lia).
  assert (Hn : 0 < 2 ^ Z.pos n) by (apply Z.pow_pos_nonneg; lia).
  assert (Hlo : 2 ^ (prec - 1) <= shr_m mrs).
  { rewrite Hm. apply Z.div_le_lower_bound; lia. }
  assert (Hhi : shr_m mrs < 2 ^ prec).
  { rewrite Hm. apply Z.div_lt_upper_bound; lia. }
  pose proof (round_nearest_even_bounds (shr_m mrs) (loc_of_shr_record mrs)) as Hr.
  set (m1 := round_nearest_even (shr_m mrs) (loc_of_shr_record mrs)) in *.
  assert (Hp1 : 0 < 2 ^ (prec - 1)) by (apply Z.pow_pos_nonneg; lia).
  assert (Hpp : 2 ^ prec = 2 * 2 ^ (prec - 1)).
  { replace prec with (Z.succ (prec - 1)) at 1 by lia. apply Z.pow_succ_r. lia. }
  destruct m1 as [|q|q] eqn:Eq; try lia.
  simpl Zdigits2.
  destruct (Z_lt_le_dec (Z.pos q) (2 ^ prec)) as [Hlt|Hge].
  - assert (Hq : Z.pos (digits2_pos q) = prec) by (apply digits2_unique; lia).
    rewrite Hq.
    replace (fexp prec emax (prec + (0 + Z.pos n)) - (0 + Z.pos n)) with 0
      by (unfold fexp, emin; lia).
    simpl.
    replace (Z.pos n <=? emax - prec) with true
      by (symmetry; apply Z.leb_le; lia).
    exists q, (Z.pos n). repeat split; lia.
  - assert (Hq : Z.pos (digits2_pos q) = prec + 1).
    { apply digits2_unique. replace (prec + 1 - 1) with prec by lia.
      rewrite Z.pow_add_r, Z.pow_1_r by lia. lia. }
    rewrite Hq.
    replace (fexp prec emax (prec + 1 + (0 + Z.pos n)) - (0 + Z.pos n)) with 1
      by (unfold fexp, emin; lia).
    cbn [shr iter_pos].
    assert (Hq2 : Z.pos q = 2 ^ prec) by lia.
    assert (Hs : shr_m (shr_1 (shr_record_of_loc (Z.pos q) loc_Exact))
                 = 2 ^ (prec - 1)).
    { rewrite shr_1_m by (simpl; lia). simpl shr_m. rewrite Hq2, Hpp.
      rewrite Z.mul_comm. apply Z.div_mul. lia. }
    rewrite Hs. destruct (2 ^ (prec - 1)) as [|r|r] eqn:Er; try lia.
    replace (0 + Z.pos n + 1 <=? emax - prec) with true
      by (symmetry; apply Z.leb_le; lia).
    exists r, (0 + Z.pos n + 1). repeat split; try lia.
    apply digits2_unique. lia.
Qed.

(** The conversion of a positive integer: a mantissa of exactly [prec]
    digits, and no rounding as long as the integer has at most [prec]
    digits. *)
Lemma of_int_pos (p : positive) :
  Z.pos (digits2_pos p) < emax ->
  exists m e,
    of_int prec emax (Z.pos p) = S754_finite false m e
    /\ Z.pos (digits2_pos m) = prec
    /\ emin prec emax <= e <= emax - prec
    /\ (e <= 0 -> Z.pos m = Z.pos p * 2 ^ (- e)).
Proof.
  intros Hmax. pose proof (digits2_bounds p) as Hb.
  set (d := Z.pos (digits2_pos p)) in *.
  unfold of_int, binary_normalize, binary_round. fold d.
  replace (fexp prec emax (d + 0)) with (d - prec)
    by (unfold fexp, emin; lia).
  unfold shl_align. destruct (d - prec - 0) as [|n|n] eqn:En.
  - exists p, 0. rewrite binary_round_aux_exact by (unfold emin; lia).
    repeat split; try (unfold emin; lia).
  - destruct (binary_round_aux_shift p) as (m & e & Hr & Hm & He);
      [fold d; lia | fold d; lia |].
    fold d in He. exists m, e. rewrite Hr.
    repeat split; try assumption; try (unfold emin; lia).
  - assert (Hv := iter_xO_value p n).
    assert (Hpow : 2 ^ prec = 2 ^ d * 2 ^ Z.pos n)
      by (rewrite <- Z.pow_add_r by lia; f_equal; lia).
    assert (Hpow' : 2 ^ (prec - 1) = 2 ^ (d - 1) * 2 ^ Z.pos n)
      by (rewrite <- Z.pow_add_r by lia; f_equal; lia).
    assert (Hn : 0 < 2 ^ Z.pos n) by (apply Z.pow_pos_nonneg; lia).
    assert (Hd : Z.pos (digits2_pos (Pos.iter xO p n)) = prec)
      by (apply digits2_unique; nia).
    exists (Pos.iter xO p n), (d - prec).
    rewrite binary_round_aux_exact by (try assumption; unfold emin; lia).
    repeat split; try (unfold emin; lia).
    intros _. rewrite Hv. f_equal. f_equal. lia.
Qed.
End OfInt.

(** ** Binary32 *)





(** ** Binary64 *)

Lemma F64_of_int_finite (z : Z) :
  0 <= z < 2 ^ 64 ->
  F64.of_int z = S754_zero false
  \/ exists m e, F64.of_int z = S754_finite false m e.
Proof.
  intros Hz. destruct z as [|p|p]; try lia.
  - left. reflexivity.
  - right.
    assert (Hd : Z.pos (digits2_pos p) < 1024).
    { pose proof (digits2_bounds p) as [Hlo _].
      destruct (Z_lt_le_dec (Z.pos (digits2_pos p)) 1024) as [|Hge];
        [assumption|].
      assert (2 ^ 64 <= 2 ^ (Z.pos (digits2_pos p) - 1))
        by (apply Z.pow_le_mono_r; lia). lia. }
    destruct (of_int_pos 53 1024 ltac:(lia) ltac:(lia) p Hd)
      as (m & e & H1 & _).
    exists m, e. exact H1.
Qed.

(** A draw of zero selects slot zero, whatever the size of the working
    set. *)
Lemma random_strand_zero (n : nat) : random_strand 0 n = Done 0.
Proof.
  unfold random_strand.
  replace (F64.div (F64.of_int 0) (F64.of_int (2 ^ 64 - 1)))
    with (S754_zero false) by (vm_compute; reflexivity).
  destruct (F64_of_int_finite (u64 (Z.of_nat n))) as [H0 | (m & e & Hf)].
  - unfold u64. apply Z.mod_pos_bound. lia.
  - rewrite H0. reflexivity.
  - rewrite Hf. reflexivity.
Qed.

Lemma xorshift64_zero : xorshift64 0 = 0.
Proof. reflexivity. Qed.

(* ===================================================================== *)
(** * Properties of the strand sampler *)
(* ===================================================================== *)

(** ** Vectors *)

Lemma back_snoc {A} (l : list A) (b : A) : back (l ++ [b]) = Done b.
Proof.
  destruct l as [|a l]; [reflexivity|]. simpl. f_equal.
  apply last_last.
Qed.

Lemma back_nonempty {A} (l : list A) :
  l <> [] -> exists l0 b, l = l0 ++ [b] /\ back l = Done b.
Proof.
  intros Hl. destruct (exists_last Hl) as (l0 & b & ->).
  exists l0, b. split; [reflexivity | apply back_snoc].
Qed.

Lemma set_index_lt {A} (v : list A) (i : nat) (a : A) :
  (i < length v)%nat ->
  set_index v i a = Done (firstn i v ++ a :: skipn (S i) v).
Proof.
  intros Hi. unfold set_index.
  replace (i <? length v)%nat with true by (symmetry; apply Nat.ltb_lt; lia).
  reflexivity.
Qed.

(** Removing slot [i] by swapping it with the last entry keeps every other
    entry exactly once. *)
Lemma swap_remove_spec {A} (v : list A) (i : nat) (a : A) :
  nth_error v i = Some a ->
  exists v', swap_remove v i = Done v'
             /\ Permutation (a :: v') v /\ length v = S (length v').
Proof.
  intros Hi.
  assert (Hlen : (i < length v)%nat) by (apply nth_error_Some; congruence).
  destruct (back_nonempty v) as (l0 & b & -> & Hb);
    [destruct v; [simpl in Hlen; lia | discriminate]|].
  unfold swap_remove. rewrite Hb. cbn [obind].
  rewrite set_index_lt by assumption. cbn [obind].
  rewrite length_app in Hlen. simpl in Hlen.
  destruct (Nat.eq_dec i (length l0)) as [->|Hne].
  - rewrite nth_error_app2, Nat.sub_diag in Hi by lia. injection Hi as <-.
    assert (H1 : firstn (length l0) (l0 ++ [b]) = l0)
      by (rewrite firstn_app, Nat.sub_diag, firstn_all; simpl;
          apply app_nil_r).
    assert (H2 : skipn (S (length l0)) (l0 ++ [b]) = [])
      by (apply skipn_all2; rewrite length_app; simpl; lia).
    rewrite H1, H2.
    exists l0. rewrite removelast_last. repeat split.
    + apply Permutation_cons_append.
    + rewrite length_app. simpl. lia.
  - assert (Hi0 : (i < length l0)%nat) by lia.
    rewrite nth_error_app1 in Hi by assumption.
    assert (H1 : firstn i (l0 ++ [b]) = firstn i l0).
    { rewrite firstn_app. replace (i - length l0)%nat with O by lia.
      simpl. apply app_nil_r. }
    assert (H2 : skipn (S i) (l0 ++ [b]) = skipn (S i) l0 ++ [b]).
    { rewrite skipn_app. replace (S i - length l0)%nat with O by lia.
      reflexivity. }
    rewrite H1, H2.
    replace (firstn i l0 ++ b :: skipn (S i) l0 ++ [b])
      with ((firstn i l0 ++ b :: skipn (S i) l0) ++ [b])
      by (rewrite <- app_assoc; reflexivity).
    rewrite removelast_last.
    exists (firstn i l0 ++ b :: skipn (S i) l0). repeat split.
    + rewrite <- (firstn_skipn i l0) at 3.
      assert (Hs : skipn i l0 = a :: skipn (S i) l0).
      { clear - Hi. revert i Hi. induction l0 as [|x l0 IH]; intros [|i] Hi;
          simpl in *; try discriminate.
        - injection Hi as ->. reflexivity.
        - apply IH. exact Hi. }
      rewrite Hs.
      rewrite <- app_assoc. simpl.
      rewrite Permutation_middle.
      apply Permutation_app_head.
      rewrite (Permutation_app_comm (a :: skipn (S i) l0) [b]). simpl.
      apply perm_swap.
    + rewrite !length_app. cbn [length].
      rewrite length_firstn, length_skipn. lia.
Qed.

Lemma back_map {A B} (f : A -> B) (v : list A) (b : A) :
  back v = Done b -> back (map f v) = Done (f b).
Proof.
  destruct v as [|a v]; [discriminate|]. cbn [back map].
  intros H. injection H as <-. f_equal.
  revert a. induction v as [|x v IH]; intros a; [reflexivity|].
  cbn [map]. change (last (f x :: map f v) (f a)) with
    (match map f v with [] => f x | _ => last (map f v) (f a) end).
  change (last (x :: v) a) with
    (match v with [] => x | _ => last v a end).
  destruct v as [|y v]; [reflexivity|]. cbn [map].
  change (f y :: map f v) with (map f (y :: v)).
  rewrite (IH a). reflexivity.
Qed.

Lemma set_index_map {A B} (f : A -> B) (v : list A) (i : nat) (b : A) v' :
  set_index v i b = Done v' -> set_index (map f v) i (f b) = Done (map f v').
Proof.
  unfold set_index. rewrite length_map.
  destruct (i <? length v)%nat; [|discriminate].
  intros H. injection H as <-. f_equal.
  rewrite map_app, firstn_map. cbn [map]. rewrite skipn_map. reflexivity.
Qed.

Lemma removelast_map {A B} (f : A -> B) (l : list A) :
  removelast (map f l) = map f (removelast l).
Proof.
  induction l as [|x [|y l] IH]; try reflexivity.
  cbn [map removelast] in *. f_equal. exact IH.
Qed.

Lemma swap_remove_map {A B} (f : A -> B) (v : list A) (i : nat) (v' : list A) :
  swap_remove v i = Done v' -> swap_remove (map f v) i = Done (map f v').
Proof.
  unfold swap_remove. intros H.
  apply obind_done in H as (b & Hb & H).
  apply obind_done in H as (w & Hw & H). injection H as <-.
  rewrite (back_map f v b Hb). cbn [obind].
  rewrite (set_index_map f v i b w Hw). cbn [obind].
  rewrite removelast_map. reflexivity.
Qed.
(** ** One iteration of the sampling loop *)

Lemma strand_slice_nil {A} (st : nat * Z) : strand_slice (@nil A) st = [].
Proof. unfold strand_slice. rewrite skipn_nil. apply firstn_nil. Qed.

Lemma copy_if_present_slice {A} (v out : list A) (st : nat * Z) :
  v = [] \/ (fst st + Z.to_nat (snd st) + 1 <= length v)%nat ->
  copy_if_present v (fst st) (fst st + Z.to_nat (snd st) + 1) out
  = Done (out ++ strand_slice v st).
Proof.
  intros [-> | Hlen].
  - cbn [copy_if_present nonempty]. rewrite strand_slice_nil, app_nil_r.
    reflexivity.
  - unfold copy_if_present, copy_range, strand_slice.
    destruct (nonempty v) eqn:Hv.
    + replace (fst st + Z.to_nat (snd st) + 1 <=? length v)%nat with true
        by (symmetry; apply Nat.leb_le; exact Hlen).
      do 3 f_equal. lia.
    + destruct v; [|discriminate]. simpl in Hlen. lia.
Qed.

Lemma aligned_slice {A B} (a : list A) (vs : list B) (st : nat * Z) :
  aligned a vs ->
  (fst st + Z.to_nat (snd st) + 1 <= length vs)%nat ->
  a = [] \/ (fst st + Z.to_nat (snd st) + 1 <= length a)%nat.
Proof. intros [-> | Hl] H; [left; reflexivity | right; lia]. Qed.

Lemma flat_map_snoc {A B} (f : A -> list B) (l : list A) (a : A) :
  flat_map f (l ++ [a]) = flat_map f l ++ f a.
Proof. rewrite flat_map_app. cbn [flat_map]. rewrite app_nil_r. reflexivity. Qed.

(** One iteration of the loop: the strand in the drawn slot is copied
    and the working set loses that slot by the swap with its last
    entry. *)
Lemma sample_strand_step {F} (hs : HairStyle F) (left r : Z) (s : sampler F)
    (W P : list (nat * Z)) (st : nat * Z) :
  well_formed hs ->
  sampler_invariant hs s W P ->
  random_strand (xorshift64 (rng s)) (length (strand_offset s)) = Done r ->
  nth_error W (Z.to_nat r) = Some st ->
  exists s' W',
    sample_strand hs left s = Done s'
    /\ swap_remove W (Z.to_nat r) = Done W'
    /\ sampler_invariant hs s' W' (P ++ [st])
    /\ length W = S (length W')
    /\ strands_left s' = left
    /\ rng s' = xorshift64 (rng s)
    /\ picked s' = picked s ++ [Z.to_nat r].
Proof.
  intros Hwf Hinv Hr Hst.
  destruct Hwf as (_ & _ & _ & _ & _ & Ath & Ata & Atr & Aco).
  destruct Hinv as (Hoff & Hseg & Hdef & Hval & Rse & Rve & Rth & Rta & Rtr
                    & Rco & Hperm).
  destruct (swap_remove_spec W (Z.to_nat r) st Hst) as (W' & Hsw & HpW & HlW).
  assert (Hvst : valid_strand hs st).
  { rewrite Forall_forall in Hval. apply Hval. eapply nth_error_In. exact Hst. }
  destruct Hvst as (Hc & Hin).
  unfold sample_strand. rewrite Hr. cbn [obind].
  assert (Hsegs :
    (if nonempty (work_segments s)
     then c <- at_index (work_segments s) (Z.to_nat r) ;;
          segs' <- swap_remove (work_segments s) (Z.to_nat r) ;;
          Done (c, segs')
     else Done (get_default_segment_count hs, work_segments s))
    = Done (snd st, if has_segments hs then map snd W' else [])).
  { rewrite Hseg. destruct (has_segments hs) eqn:Hhs.
    - assert (Hne : nonempty (map snd W) = true).
      { destruct W; [destruct (Z.to_nat r); discriminate | reflexivity]. }
      rewrite Hne. unfold at_index.
      rewrite nth_error_map, Hst. cbn [option_map of_option obind].
      rewrite (swap_remove_map snd W _ W' Hsw). reflexivity.
    - cbn [nonempty]. f_equal. f_equal.
      specialize (Hdef eq_refl). rewrite Forall_forall in Hdef.
      symmetry. apply Hdef. eapply nth_error_In. exact Hst. }
  rewrite Hsegs. cbn [obind].
  unfold at_index at 1. rewrite Hoff, nth_error_map, Hst.
  cbn [option_map of_option obind].
  rewrite (copy_if_present_slice (vertices hs)) by (right; exact Hin).
  rewrite !copy_if_present_slice
    by (eapply aligned_slice; [eassumption | exact Hin]).
  cbn [obind].
  rewrite (swap_remove_map fst W _ W' Hsw). cbn [obind].
  eexists. exists W'. split; [reflexivity|]. split; [exact Hsw|].
  split; [|repeat split; assumption].
  assert (HWp : Permutation W (st :: W')) by (symmetry; exact HpW).
  unfold sampler_invariant. cbn.
  repeat split.
  - intros Hhs. specialize (Hdef Hhs).
    pose proof (Permutation_Forall HWp Hdef) as Hf.
    inversion Hf; assumption.
  - pose proof (Permutation_Forall HWp Hval) as Hf.
    inversion Hf; assumption.
  - rewrite Rse, map_app. cbn [map]. unfold u16.
    rewrite Z.mod_small by exact Hc. reflexivity.
  - rewrite Rve, flat_map_snoc. reflexivity.
  - rewrite Rth, flat_map_snoc. reflexivity.
  - rewrite Rta, flat_map_snoc. reflexivity.
  - rewrite Rtr, flat_map_snoc. reflexivity.
  - rewrite Rco, flat_map_snoc. reflexivity.
  - rewrite <- app_assoc. cbn [app].
    rewrite <- Hperm. apply Permutation_app_head. exact HpW.
Qed.

Lemma sample_strand_spec {F} (hs : HairStyle F) (left r : Z) (s : sampler F)
    (W P : list (nat * Z)) (st : nat * Z) :
  well_formed hs ->
  sampler_invariant hs s W P ->
  random_strand (xorshift64 (rng s)) (length (strand_offset s)) = Done r ->
  nth_error W (Z.to_nat r) = Some st ->
  exists s' W',
    sample_strand hs left s = Done s'
    /\ sampler_invariant hs s' W' (P ++ [st])
    /\ length W = S (length W')
    /\ strands_left s' = left
    /\ rng s' = xorshift64 (rng s)
    /\ picked s' = picked s ++ [Z.to_nat r].
Proof.
  intros Hwf Hinv Hr Hst.
  destruct (sample_strand_step hs left r s W P st Hwf Hinv Hr Hst)
    as (s' & W' & Hstep & _ & Hrest).
  exists s', W'. split; [exact Hstep | exact Hrest].
Qed.
(** ** The sampling loop *)

Lemma u32_small (z : Z) : 0 <= z < 2 ^ 32 -> u32 z = z.
Proof. intros Hz. unfold u32. apply Z.mod_small. exact Hz. Qed.

Lemma u32_range (z : Z) : 0 <= u32 z < 2 ^ 32.
Proof. unfold u32. apply Z.mod_pos_bound. lia. Qed.

Lemma iterations_zero_left (left : Z) (n : nat) :
  u32 (left - 1) = 0 -> iterations left n = O.
Proof. intros H. unfold iterations. rewrite H. reflexivity. Qed.

Lemma iterations_succ (left : Z) (n : nat) :
  u32 (left - 1) <> 0 ->
  iterations left (S n) = S (iterations (u32 (left - 1)) n).
Proof.
  intros H. unfold iterations. pose proof (u32_range (left - 1)) as Hr.
  rewrite (u32_small (u32 (left - 1) - 1)) by lia.
  replace (Z.to_nat (u32 (left - 1))) with (S (Z.to_nat (u32 (left - 1) - 1)))
    by lia.
  reflexivity.
Qed.

Lemma sample_loop_spec {F} (hs : HairStyle F) (Hwf : well_formed hs) :
  forall (fuel : nat) (s : sampler F) (W P : list (nat * Z)),
    sampler_invariant hs s W P ->
    (length W <= fuel)%nat ->
    draws_in_range (rng s) (length W)
      (iterations (strands_left s) (length W)) = true ->
    exists s' W' P',
      sample_loop fuel hs s = Done s'
      /\ sampler_invariant hs s' W' P'
      /\ length P' = (length P + iterations (strands_left s) (length W))%nat
      /\ length W = (length W' + iterations (strands_left s) (length W))%nat
      /\ length (picked s')
         = (length (picked s) + iterations (strands_left s) (length W))%nat.
Proof.
  induction fuel as [|fuel IH]; intros s W P Hinv Hfuel Hdraws.
  - destruct W; [|simpl in Hfuel; lia].
    assert (Hoff : strand_offset s = []) by (destruct Hinv as (-> & _); reflexivity).
    exists s, [], P. cbn [sample_loop]. rewrite Hoff. cbn [nonempty negb].
    rewrite orb_true_r. unfold iterations. cbn [length].
    rewrite Nat.min_0_r, !Nat.add_0_r.
    split; [reflexivity|]. split; [exact Hinv|]. repeat split; lia.
  - cbn [sample_loop].
    destruct (u32 (strands_left s - 1) =? 0) eqn:Hleft.
    + apply Z.eqb_eq in Hleft. cbn [orb].
      rewrite (iterations_zero_left _ _ Hleft), !Nat.add_0_r.
      exists s, W, P.
      split; [reflexivity|]. split; [exact Hinv|]. repeat split; lia.
    + apply Z.eqb_neq in Hleft. cbn [orb].
      assert (Hoff : strand_offset s = map fst W)
        by (destruct Hinv as (-> & _); reflexivity).
      destruct W as [|w W0].
      * rewrite Hoff. cbn [map nonempty negb].
        exists s, [], P. unfold iterations. cbn [length].
        rewrite Nat.min_0_r, !Nat.add_0_r.
    split; [reflexivity|]. split; [exact Hinv|]. repeat split; lia.
      * set (W := w :: W0) in *.
        assert (Hne : nonempty (strand_offset s) = true)
          by (rewrite Hoff; reflexivity).
        rewrite Hne. cbn [negb].
        change (length W) with (S (length W0)) in Hdraws |- *.
        rewrite (iterations_succ _ _ Hleft) in Hdraws |- *.
        cbn [draws_in_range] in Hdraws.
        destruct (random_strand (xorshift64 (rng s)) (S (length W0)))
          as [r|] eqn:Hr; [|discriminate].
        apply andb_prop in Hdraws as (Hrange & Hdraws).
        apply Z.ltb_lt in Hrange.
        assert (Hr0 : 0 <= r).
        { unfold random_strand, to_unsigned in Hr.
          destruct (trunc _) as [z|]; [|discriminate].
          destruct (0 <=? z) eqn:Hz; [|discriminate].
          destruct (z <? 2 ^ 64); [|discriminate].
          injection Hr as <-. apply Z.leb_le. exact Hz. }
        destruct (nth_error W (Z.to_nat r)) as [st|] eqn:Hst.
        2:{ apply nth_error_None in Hst. change (length W) with (S (length W0)) in Hst. lia. }
        assert (Hr' : random_strand (xorshift64 (rng s))
                        (length (strand_offset s)) = Done r).
        { rewrite Hoff, length_map. exact Hr. }
        destruct (sample_strand_spec hs (u32 (strands_left s - 1)) r s W P st
                    Hwf Hinv Hr' Hst)
          as (s1 & W1 & Hstep & Hinv1 & HlW & Hleft1 & Hrng1 & Hpick1).
        rewrite Hstep. cbn [obind].
        change (length W) with (S (length W0)) in HlW.
        injection HlW as HlW.
        destruct (IH s1 W1 (P ++ [st]) Hinv1) as (s' & W' & P' & Hrun & Hinv' & HlP & HlW' & Hpk).
        { unfold W in Hfuel. cbn [length] in Hfuel. lia. }
        { rewrite Hrng1, Hleft1, <- HlW. exact Hdraws. }
        unfold W. cbn [length].
        exists s', W', P'. rewrite Hleft1, <- HlW in *.
        rewrite length_app in HlP. cbn [length] in HlP.
        rewrite Hpick1, length_app in Hpk. cbn [length] in Hpk.
        split; [exact Hrun|]. split; [exact Hinv'|]. repeat split; lia.
Qed.

Lemma swap_remove_length {A} (v v' : list A) (i : nat) :
  swap_remove v i = Done v' -> length v = S (length v').
Proof.
  intros H.
  assert (Hi : (i < length v)%nat).
  { unfold swap_remove in H. apply obind_done in H as (b & _ & H).
    apply obind_done in H as (w & Hw & _). unfold set_index in Hw.
    destruct (i <? length v)%nat eqn:Hlt; [|discriminate].
    apply Nat.ltb_lt. exact Hlt. }
  destruct (nth_error v i) as [a|] eqn:Ha;
    [|apply nth_error_None in Ha; lia].
  destruct (swap_remove_spec v i a Ha) as (v'' & H1 & _ & Hl).
  rewrite H in H1. injection H1 as ->. exact Hl.
Qed.

(** With enough fuel the exhausted-bound branch is never taken: more fuel
    does not change the result. *)
Lemma sample_loop_fuel {F} (hs : HairStyle F) :
  forall (fuel : nat) (s : sampler F),
    (length (strand_offset s) <= fuel)%nat ->
    sample_loop (S fuel) hs s = sample_loop fuel hs s.
Proof.
  induction fuel as [|fuel IH]; intros s Hfuel.
  - destruct (strand_offset s) eqn:Hoff; [|simpl in Hfuel; lia].
    cbn [sample_loop]. rewrite Hoff. cbn [nonempty negb].
    rewrite orb_true_r. reflexivity.
  - change (sample_loop (S (S fuel)) hs s)
      with (if (u32 (strands_left s - 1) =? 0)
               || negb (nonempty (strand_offset s))
            then Done s
            else s' <- sample_strand hs (u32 (strands_left s - 1)) s ;;
                 sample_loop (S fuel) hs s').
    change (sample_loop (S fuel) hs s)
      with (if (u32 (strands_left s - 1) =? 0)
               || negb (nonempty (strand_offset s))
            then Done s
            else s' <- sample_strand hs (u32 (strands_left s - 1)) s ;;
                 sample_loop fuel hs s').
    destruct ((u32 (strands_left s - 1) =? 0)
              || negb (nonempty (strand_offset s))); [reflexivity|].
    destruct (sample_strand hs (u32 (strands_left s - 1)) s) as [s1|] eqn:Hs;
      [|reflexivity].
    cbn [obind]. apply IH.
    (* the working set of [s1] is one entry shorter *)
    unfold sample_strand in Hs.
    apply obind_done in Hs as (r & _ & Hs).
    apply obind_done in Hs as ([c segs'] & _ & Hs).
    repeat (apply obind_done in Hs as (? & ? & Hs)).
    injection Hs as <-. cbn [strand_offset].
    match goal with
    | H : swap_remove (strand_offset s) _ = Done _ |- _ =>
        apply swap_remove_length in H
    end.
    lia.
Qed.
(** ** The strand table *)

Lemma table_from_snd (counts : list Z) : forall o,
  map snd (table_from counts o) = counts.
Proof.
  induction counts as [|c counts IH]; intros o; [reflexivity|].
  cbn [table_from map snd]. rewrite IH. reflexivity.
Qed.

Lemma table_from_length (counts : list Z) : forall o,
  length (table_from counts o) = length counts.
Proof.
  induction counts as [|c counts IH]; intros o; [reflexivity|].
  cbn [table_from length]. rewrite IH. reflexivity.
Qed.

Lemma vertex_total_cons (c : Z) (counts : list Z) :
  vertex_total (c :: counts) = (Z.to_nat c + 1 + vertex_total counts)%nat.
Proof. reflexivity. Qed.

Lemma table_from_bounds (counts : list Z) : forall o st,
  In st (table_from counts o) ->
  In (snd st) counts
  /\ (o <= fst st)%nat
  /\ (fst st + Z.to_nat (snd st) + 1 <= o + vertex_total counts)%nat.
Proof.
  induction counts as [|c counts IH]; intros o st Hin; [destruct Hin|].
  cbn [table_from] in Hin. rewrite vertex_total_cons.
  destruct Hin as [<- | Hin].
  - cbn [fst snd]. split; [left; reflexivity | lia].
  - apply IH in Hin as (H1 & H2 & H3). split; [right; exact H1 | lia].
Qed.

Lemma offsets_from_segments_table (segs : list Z) : forall pre,
  0 <= pre ->
  Forall (fun c => 0 <= c < 2 ^ 16) segs ->
  pre + Z.of_nat (vertex_total segs) < 2 ^ 31 ->
  offsets_from_segments segs pre
  = Done (map fst (table_from segs (Z.to_nat pre))).
Proof.
  induction segs as [|c segs IH]; intros pre Hpre Hc Hsum; [reflexivity|].
  inversion Hc as [|? ? Hc0 Hcs]; subst.
  rewrite vertex_total_cons in Hsum.
  cbn [offsets_from_segments table_from map fst].
  replace (pre + (c + 1) <? 2 ^ 31) with true
    by (symmetry; apply Z.ltb_lt; lia).
  rewrite IH by (try assumption; lia). cbn [obind].
  replace (Z.to_nat (pre + (c + 1))) with (Z.to_nat pre + Z.to_nat c + 1)%nat
    by lia.
  reflexivity.
Qed.

Lemma partial_sum_table (c : Z) (k : nat) : forall acc,
  0 <= acc -> 0 <= c ->
  partial_sum acc (repeat (c + 1) k)
  = map fst (table_from (repeat c k) (Z.to_nat acc + Z.to_nat c + 1)).
Proof.
  induction k as [|k IH]; intros acc Hacc Hc; [reflexivity|].
  cbn [repeat partial_sum table_from map fst].
  rewrite IH by lia.
  replace (Z.to_nat (acc + (c + 1))) with (Z.to_nat acc + Z.to_nat c + 1)%nat
    by lia.
  reflexivity.
Qed.

Section WellFormed.
Context {F : Type} (hs : HairStyle F) (Hwf : well_formed hs).

Lemma has_segments_counts :
  has_segments hs = true -> segment_counts hs = segments hs.
Proof. unfold segment_counts. intros ->. reflexivity. Qed.

Lemma no_segments :
  has_segments hs = false -> segments hs = [].
Proof.
  unfold has_segments. destruct (segments hs); [reflexivity | discriminate].
Qed.

Lemma well_formed_strand_count :
  get_strand_count hs = Z.of_nat (length (segment_counts hs)).
Proof.
  destruct Hwf as (_ & Hpos & Hlt & _).
  unfold get_strand_count, segment_counts in *.
  destruct (has_segments hs).
  - apply u32_small. unfold size. lia.
  - rewrite repeat_length in *. lia.
Qed.

Lemma well_formed_offsets :
  strand_offsets hs = Done (map fst (strand_table hs)).
Proof.
  pose proof well_formed_strand_count as Hsc.
  destruct Hwf as (Hc & Hpos & Hlt & Hsum & Hv & _).
  unfold strand_offsets, strand_table. rewrite Hsc.
  unfold segment_counts in *.
  destruct (has_segments hs) eqn:Hhs.
  - rewrite Nat2Z.id, Nat.eqb_refl.
    apply (offsets_from_segments_table (segments hs) 0); [lia | assumption | lia].
  - rewrite repeat_length in *. rewrite Nat2Z.id.
    destruct (Z.to_nat (strand_count (file_header hs))) as [|n'] eqn:En; [lia|].
    assert (Hd : 0 <= get_default_segment_count hs < 2 ^ 16).
    { inversion Hc; assumption. }
    rewrite u32_small by lia.
    cbn [partial_sum repeat table_from map fst]. f_equal.
    rewrite (partial_sum_table (get_default_segment_count hs) n' (0 + 0))
      by lia.
    reflexivity.
Qed.

Lemma well_formed_valid_strands : Forall (valid_strand hs) (strand_table hs).
Proof.
  destruct Hwf as (Hc & _ & _ & Hsum & _).
  apply Forall_forall. intros st Hin. unfold strand_table in Hin.
  apply table_from_bounds in Hin as (H1 & _ & H3).
  rewrite Forall_forall in Hc. split; [apply Hc; exact H1 | lia].
Qed.

(** The state in which the sampling loop starts. *)
Lemma initial_invariant (left : Z) :
  sampler_invariant hs
    {| strands_left := left; rng := seed hs;
       work_segments := segments hs;
       strand_offset := map fst (strand_table hs);
       reduced_segments := []; reduced_vertices := [];
       reduced_thickness := []; reduced_tangents := [];
       reduced_transparency := []; reduced_color := []; picked := [] |}
    (strand_table hs) [].
Proof.
  unfold sampler_invariant. cbn.
  split; [reflexivity|]. split.
  { unfold strand_table, segment_counts.
    destruct (has_segments hs) eqn:Hhs.
    - rewrite table_from_snd. reflexivity.
    - apply no_segments. exact Hhs. }
  split.
  { intros Hhs. apply Forall_forall. intros st Hin.
    unfold strand_table, segment_counts in Hin. rewrite Hhs in Hin.
    apply table_from_bounds in Hin as (H1 & _).
    apply repeat_spec in H1. exact H1. }
  split; [apply well_formed_valid_strands|].
  repeat split; reflexivity.
Qed.
End WellFormed.

(** ** Index generation never fails *)

Lemma for_loop_defined {St} (body : nat -> St -> outcome St) (n : nat) :
  forall i s,
    (forall j t, (i <= j < i + n)%nat -> exists t', body j t = Done t') ->
    exists s', for_loop body i n s = Done s'.
Proof.
  induction n as [|n IH]; intros i s Hbody; [exists s; reflexivity|].
  cbn [for_loop]. destruct (Hbody i s) as (s1 & ->); [lia|]. cbn [obind].
  apply IH. intros j t Hj. apply Hbody. lia.
Qed.

Lemma generate_indices_defined {F} (hs : HairStyle F) :
  exists ix, generate_indices hs = Done (set_indices hs ix).
Proof.
  assert (Hinner : forall c v (ix : list Z), exists r,
            for_loop index_segment 0 (Z.to_nat c) (v, ix) = Done r).
  { intros c v ix. apply for_loop_defined.
    intros k [v0 ix0] _. eexists. reflexivity. }
  assert (Houter : exists r,
            for_loop (index_strand hs) 0 (Z.to_nat (get_strand_count hs))
              (O, []) = Done r).
  { apply for_loop_defined. intros j [v ix] Hj.
    unfold index_strand, strand_segment_count.
    assert (Hseg : exists c,
      (if has_segments hs then at_index (segments hs) j
       else Done (get_default_segment_count hs)) = Done c).
    { unfold get_strand_count in Hj. destruct (has_segments hs).
      - unfold at_index. destruct (nth_error (segments hs) j) eqn:E;
          [eexists; reflexivity|].
        apply nth_error_None in E.
        assert (u32 (size (segments hs)) <= size (segments hs)).
        { unfold u32, size. apply Z.mod_le; lia. }
        unfold size in *. lia.
      - eexists. reflexivity. }
    destruct Hseg as (c & ->). cbn [obind].
    destruct (Hinner c v ix) as ([v' ix'] & ->). eexists. reflexivity. }
  unfold generate_indices. destruct Houter as ([v ix] & ->).
  exists ix. reflexivity.
Qed.
(** ** [reduce] on a well-formed asset *)

(** When every draw lands inside the working set, [reduce] copies
    [iterations left n] distinct strands of the asset, each as one
    contiguous slice in its original order, into every array. *)
Lemma reduce_spec {F} (hs : HairStyle F) (ratio : float) (left vleft : Z) :
  well_formed hs ->
  count_left (get_strand_count hs) ratio = Done left ->
  count_left (get_vertex_count hs) ratio = Done vleft ->
  draws_in_range (seed hs) (length (segment_counts hs))
    (iterations left (length (segment_counts hs))) = true ->
  exists hs' picks W P,
    reduce ratio hs = Done (hs', picks)
    /\ Permutation (P ++ W) (strand_table hs)
    /\ length P = iterations left (length (segment_counts hs))
    /\ length picks = length P
    /\ segments hs' = map snd P
    /\ vertices hs' = flat_map (strand_slice (vertices hs)) P
    /\ thickness hs' = flat_map (strand_slice (thickness hs)) P
    /\ tangents hs' = flat_map (strand_slice (tangents hs)) P
    /\ transparency hs' = flat_map (strand_slice (transparency hs)) P
    /\ color hs' = flat_map (strand_slice (color hs)) P.
Proof.
  intros Hwf Hleft Hvleft Hdraws.
  unfold reduce. rewrite Hleft, Hvleft. cbn [obind].
  rewrite (well_formed_offsets hs Hwf). cbn [obind].
  pose proof (initial_invariant hs Hwf left) as Hinit.
  assert (Htl : length (strand_table hs) = length (segment_counts hs))
    by apply table_from_length.
  destruct (sample_loop_spec hs Hwf (length (map fst (strand_table hs))) _
              (strand_table hs) [] Hinit)
    as (s' & W' & P' & Hrun & Hinv & HlP & HlW & Hpk).
  { rewrite length_map. lia. }
  { cbn [strands_left rng]. rewrite Htl. exact Hdraws. }
  rewrite Hrun. cbn [obind].
  cbn [strands_left picked length Nat.add] in HlP, Hpk.
  rewrite Htl in HlP, Hpk.
  destruct Hinv as (_ & _ & _ & _ & Rse & Rve & Rth & Rta & Rtr & Rco & Hperm).
  match goal with
  | |- context [generate_indices ?h] =>
      destruct (generate_indices_defined h) as (ix & ->)
  end.
  cbn [obind].
  eexists. exists (picked s'), W', P'.
  split; [reflexivity|]. cbn.
  repeat split; try assumption. congruence.
Qed.

Lemma strand_slice_length {A} (v : list A) (st : nat * Z) :
  (fst st + Z.to_nat (snd st) + 1 <= length v)%nat ->
  length (strand_slice v st) = (Z.to_nat (snd st) + 1)%nat.
Proof.
  intros H. unfold strand_slice. rewrite length_firstn, length_skipn. lia.
Qed.

(** The slices of valid strands add up to the vertex total of their
    segment counts, in every array aligned with the vertices. *)
Lemma slices_length {F A} (hs : HairStyle F) (a : list A) (P : list (nat * Z)) :
  Forall (valid_strand hs) P ->
  length a = length (vertices hs) ->
  length (flat_map (strand_slice a) P) = vertex_total (map snd P).
Proof.
  intros Hv Ha. induction P as [|st P IH]; [reflexivity|].
  inversion Hv as [|? ? (Hc & Hin) Hrest]; subst.
  cbn [flat_map map]. rewrite length_app, vertex_total_cons, IH by assumption.
  rewrite strand_slice_length by lia. reflexivity.
Qed.

Lemma flat_map_slice_nil {A} (P : list (nat * Z)) :
  flat_map (strand_slice (@nil A)) P = [].
Proof.
  induction P as [|st P IH]; [reflexivity|].
  cbn [flat_map]. rewrite strand_slice_nil, IH. reflexivity.
Qed.

Lemma picked_strands_valid {F} (hs : HairStyle F) (W P : list (nat * Z)) :
  well_formed hs ->
  Permutation (P ++ W) (strand_table hs) ->
  Forall (valid_strand hs) P.
Proof.
  intros Hwf Hperm.
  pose proof (well_formed_valid_strands hs Hwf) as Hv.
  apply Permutation_sym in Hperm.
  pose proof (Permutation_Forall Hperm Hv) as Hf.
  apply Forall_app in Hf. apply Hf.
Qed.

(** The strands of a well-formed asset are pairwise distinct: their
    offsets increase strictly. *)
Lemma table_from_NoDup (counts : list Z) : forall o,
  NoDup (table_from counts o).
Proof.
  induction counts as [|c counts IH]; intros o; [constructor|].
  cbn [table_from]. constructor; [|apply IH].
  intros Hin. apply table_from_bounds in Hin as (_ & H & _).
  cbn [fst] in H. lia.
Qed.
Lemma vertex_total_perm (l l' : list Z) :
  Permutation l l' -> vertex_total l = vertex_total l'.
Proof.
  intros H. induction H; try reflexivity.
  - rewrite !vertex_total_cons. lia.
  - rewrite !vertex_total_cons. lia.
  - congruence.
Qed.

Lemma aligned_length {A B} (a : list A) (vs : list B) :
  aligned a vs -> a <> [] -> length a = length vs.
Proof. intros [-> | H] Hne; [contradiction | exact H]. Qed.

(** The property of the reduction invariant, for every asset that
    satisfies the invariants of the data model, as long as every draw
    lands inside the working set: the output consists of distinct strands
    of the input, each copied whole and in order into every present
    array, and every present vertex-aligned array has as many elements as
    the surviving strands have vertices. *)
Lemma reduce_keeps_strands_whole {F} (hs : HairStyle F) (ratio : float)
    (left vleft : Z) :
  well_formed hs ->
  count_left (get_strand_count hs) ratio = Done left ->
  count_left (get_vertex_count hs) ratio = Done vleft ->
  draws_in_range (seed hs) (length (segment_counts hs))
    (iterations left (length (segment_counts hs))) = true ->
  exists hs' picks P,
    reduce ratio hs = Done (hs', picks)
    /\ NoDup P /\ incl P (strand_table hs)
    /\ length P = iterations left (length (segment_counts hs))
    /\ segments hs' = map snd P
    /\ vertices hs' = flat_map (strand_slice (vertices hs)) P
    /\ thickness hs' = flat_map (strand_slice (thickness hs)) P
    /\ tangents hs' = flat_map (strand_slice (tangents hs)) P
    /\ transparency hs' = flat_map (strand_slice (transparency hs)) P
    /\ color hs' = flat_map (strand_slice (color hs)) P
    /\ length (vertices hs') = vertex_total (segments hs')
    /\ (thickness hs <> [] ->
        length (thickness hs') = vertex_total (segments hs'))
    /\ (tangents hs <> [] ->
        length (tangents hs') = vertex_total (segments hs'))
    /\ (transparency hs <> [] ->
        length (transparency hs') = vertex_total (segments hs'))
    /\ (color hs <> [] -> length (color hs') = vertex_total (segments hs')).
Proof.
  intros Hwf Hleft Hvleft Hdraws.
  destruct (reduce_spec hs ratio left vleft Hwf Hleft Hvleft Hdraws)
    as (hs' & picks & W & P & Hred & Hperm & HlP & _ & Hse & Hve & Hth & Hta
        & Htr & Hco).
  pose proof (picked_strands_valid hs W P Hwf Hperm) as Hvalid.
  assert (Hnd : NoDup (P ++ W)).
  { apply (Permutation_NoDup (Permutation_sym Hperm)).
    apply table_from_NoDup. }
  destruct Hwf as (_ & _ & _ & _ & _ & Ath & Ata & Atr & Aco).
  exists hs', picks, P. split; [exact Hred|].
  split; [apply (NoDup_app_remove_r _ _ Hnd)|].
  split.
  { intros st Hin. apply (Permutation_in st Hperm).
    apply in_or_app. left. exact Hin. }
  rewrite Hse, Hve, Hth, Hta, Htr, Hco.
  repeat split; try reflexivity; try assumption.
  - apply (slices_length hs); [assumption | reflexivity].
  - intros Hne. apply (slices_length hs); [assumption|].
    apply aligned_length; assumption.
  - intros Hne. apply (slices_length hs); [assumption|].
    apply aligned_length; assumption.
  - intros Hne. apply (slices_length hs); [assumption|].
    apply aligned_length; assumption.
  - intros Hne. apply (slices_length hs); [assumption|].
    apply aligned_length; assumption.
Qed.

(** C4, on the code: on four strands and a ratio of 0.5 the target
    [strand_count - ceil(strand_count * ratio)] is 2, but the loop
    decrements the target before testing it and copies a single strand:
    one strand survives, not two. *)
Theorem reduce_half_keeps_one_of_four :
  count_left (get_strand_count (four_strands 1)) one_half = Done 2
  /\ exists hs' picks,
       reduce one_half (four_strands 1) = Done (hs', picks)
       /\ segments hs' = [1]
       /\ get_strand_count hs' = 1.
Proof.
  split; [vm_compute; reflexivity|].
  eexists. eexists. split; [vm_compute; reflexivity|].
  split; reflexivity.
Qed.



Lemma four_strands_well_formed (x : Z) : well_formed (four_strands x).
Proof. well_formed_sample. Qed.

Lemma three_strands_well_formed (x : Z) : well_formed (three_strands x).
Proof. well_formed_sample. Qed.


(** C6, on the code: the invariant holds whenever every draw lands inside
    the working set ([reduce_keeps_strands_whole]), but a draw of
    [2^64 - 1] is scaled to exactly 1.0 and selects the slot one past the
    end of the working set.  For three strands, a ratio of 0.25 and the
    generator state from which [xorshift64] draws [2^64 - 1], the first
    iteration reads [segments[3]] out of a vector of three entries. *)
Theorem reduce_unlucky_seed_out_of_range :
  well_formed (three_strands unlucky_seed)
  /\ count_left (get_strand_count (three_strands unlucky_seed)) one_quarter
     = Done 2
  /\ xorshift64 unlucky_seed = 2 ^ 64 - 1
  /\ random_strand (2 ^ 64 - 1) 3 = Done 3
  /\ reduce one_quarter (three_strands unlucky_seed) = Undefined.
Proof.
  split; [apply three_strands_well_formed|].
  repeat split; vm_compute; reflexivity.
Qed.

(** ** A generator stuck at zero *)

Lemma xorshift64_iter_zero (n : nat) : Nat.iter n xorshift64 0 = 0.
Proof.
  induction n as [|n IH]; [reflexivity|].
  rewrite Nat.iter_succ, IH. reflexivity.
Qed.

Lemma draws_in_range_zero (k : nat) : forall n,
  (k <= n)%nat -> draws_in_range 0 n k = true.
Proof.
  induction k as [|k IH]; intros n Hn; [reflexivity|].
  cbn [draws_in_range]. rewrite xorshift64_zero, random_strand_zero.
  rewrite IH by lia.
  replace (0 <? Z.of_nat n) with true by (symmetry; apply Z.ltb_lt; lia).
  reflexivity.
Qed.

Lemma sample_strand_zero_seed {F} (hs : HairStyle F) (left : Z)
    (s s' : sampler F) :
  rng s = 0 ->
  sample_strand hs left s = Done s' ->
  rng s' = 0 /\ picked s' = picked s ++ [O].
Proof.
  intros Hrng Hs. unfold sample_strand in Hs.
  rewrite Hrng, xorshift64_zero, random_strand_zero in Hs. cbn [obind] in Hs.
  apply obind_done in Hs as ([c segs'] & _ & Hs).
  repeat (apply obind_done in Hs as (? & _ & Hs)).
  injection Hs as <-. split; reflexivity.
Qed.

Lemma sample_loop_zero_seed {F} (hs : HairStyle F) :
  forall (fuel : nat) (s s' : sampler F),
    rng s = 0 ->
    sample_loop fuel hs s = Done s' ->
    rng s' = 0 /\ exists k, picked s' = picked s ++ repeat O k.
Proof.
  induction fuel as [|fuel IH]; intros s s' Hrng Hrun; cbn [sample_loop] in Hrun;
    destruct ((u32 (strands_left s - 1) =? 0)
              || negb (nonempty (strand_offset s))).
  - injection Hrun as <-. split; [exact Hrng|]. exists O. cbn. symmetry. apply app_nil_r.
  - discriminate.
  - injection Hrun as <-. split; [exact Hrng|]. exists O. cbn. symmetry. apply app_nil_r.
  - apply obind_done in Hrun as (s1 & Hstep & Hrun).
    apply sample_strand_zero_seed in Hstep as (Hrng1 & Hp1); [|exact Hrng].
    destruct (IH s1 s' Hrng1 Hrun) as (Hrng' & k & Hp).
    split; [exact Hrng'|]. exists (S k).
    rewrite Hp, Hp1, <- app_assoc. reflexivity.
Qed.

Lemma reduce_zero_seed {F} (hs hs' : HairStyle F) (ratio : float)
    (picks : list nat) :
  seed hs = 0 ->
  reduce ratio hs = Done (hs', picks) ->
  Forall (fun r => r = O) picks /\ seed hs' = 0.
Proof.
  intros Hseed Hred. unfold reduce in Hred.
  apply obind_done in Hred as (left & _ & Hred).
  apply obind_done in Hred as (vleft & _ & Hred).
  apply obind_done in Hred as (offs & _ & Hred).
  apply obind_done in Hred as (s & Hloop & Hred).
  apply obind_done in Hred as (h & Hix & Hred).
  injection Hred as <- <-.
  apply sample_loop_zero_seed in Hloop as (Hrng & k & Hp); [|exact Hseed].
  cbn [picked app] in Hp.
  match type of Hix with
  | generate_indices ?h0 = _ =>
      destruct (generate_indices_defined h0) as (ix & Hix')
  end.
  rewrite Hix' in Hix. injection Hix as <-. cbn.
  split; [|exact Hrng].
  rewrite Hp. apply Forall_forall. intros r Hr. apply repeat_spec in Hr. exact Hr.
Qed.

Lemma swap_remove_slot_zero {A} (w : A) (W0 : list A) :
  swap_remove (w :: W0) 0 = Done (remove_slot_zero (w :: W0)).
Proof.
  unfold swap_remove, remove_slot_zero. cbn [back obind].
  unfold set_index. cbn [length Nat.ltb Nat.leb firstn skipn app obind].
  destruct W0 as [|x W0]; reflexivity.
Qed.

Lemma slot_zero_picks_order {A} (k : nat) :
  forall W : list A, slot_zero_picks k W = firstn k (slot_zero_order W).
Proof.
  induction k as [|k IH]; intros W; [destruct W; reflexivity|].
  destruct W as [|w W0]; [reflexivity|].
  cbn [slot_zero_picks slot_zero_order firstn]. f_equal.
  rewrite IH. unfold remove_slot_zero.
  destruct W0 as [|x W1]; [destruct k; reflexivity|].
  destruct (exists_last (l := x :: W1)) as (l0 & b & Heq); [discriminate|].
  rewrite Heq, last_last, removelast_last, rev_app_distr.
  reflexivity.
Qed.

Lemma slot_zero_picks_length {A} (k : nat) :
  forall W : list A, (k <= length W)%nat -> length (slot_zero_picks k W) = k.
Proof.
  intros W Hk. rewrite slot_zero_picks_order, length_firstn.
  unfold slot_zero_order. destruct W as [|w W0]; cbn [length] in *;
    [lia|]. rewrite length_rev. lia.
Qed.

(** The loop from a generator state of zero: every iteration draws slot 0
    and copies the strand that is there. *)
Lemma sample_loop_zero_seed_picks {F} (hs : HairStyle F)
    (Hwf : well_formed hs) :
  forall (fuel : nat) (s : sampler F) (W P : list (nat * Z)),
    sampler_invariant hs s W P ->
    rng s = 0 ->
    (length W <= fuel)%nat ->
    exists s' W',
      sample_loop fuel hs s = Done s'
      /\ sampler_invariant hs s' W'
           (P ++ slot_zero_picks (iterations (strands_left s) (length W)) W)
      /\ picked s'
         = picked s ++ repeat O (iterations (strands_left s) (length W))
      /\ rng s' = 0.
Proof.
  induction fuel as [|fuel IH]; intros s W P Hinv Hrng Hfuel.
  - destruct W; [|cbn in Hfuel; lia].
    assert (Hoff : strand_offset s = [])
      by (destruct Hinv as (-> & _); reflexivity).
    exists s, []. cbn [sample_loop]. rewrite Hoff. cbn [nonempty negb].
    rewrite orb_true_r. unfold iterations. cbn [length].
    rewrite Nat.min_0_r. cbn [slot_zero_picks repeat]. rewrite !app_nil_r.
    auto.
  - cbn [sample_loop].
    destruct (u32 (strands_left s - 1) =? 0) eqn:Hleft.
    + apply Z.eqb_eq in Hleft. cbn [orb].
      rewrite (iterations_zero_left _ _ Hleft).
      exists s, W. cbn [slot_zero_picks repeat]. rewrite !app_nil_r. auto.
    + apply Z.eqb_neq in Hleft. cbn [orb].
      assert (Hoff : strand_offset s = map fst W)
        by (destruct Hinv as (-> & _); reflexivity).
      destruct W as [|w W0].
      * rewrite Hoff. cbn [map nonempty negb].
        exists s, []. unfold iterations. cbn [length].
        rewrite Nat.min_0_r. cbn [slot_zero_picks repeat].
        rewrite !app_nil_r. auto.
      * assert (Hne : nonempty (strand_offset s) = true)
          by (rewrite Hoff; reflexivity).
        rewrite Hne. cbn [negb].
        cbn [length] in Hfuel |- *.
        rewrite (iterations_succ _ _ Hleft).
        assert (Hr : random_strand (xorshift64 (rng s))
                       (length (strand_offset s)) = Done 0).
        { rewrite Hrng, xorshift64_zero. apply random_strand_zero. }
        destruct (sample_strand_step hs (u32 (strands_left s - 1)) 0 s
                    (w :: W0) P w Hwf Hinv Hr eq_refl)
          as (s1 & W1 & Hstep & Hsw & Hinv1 & HlW & Hleft1 & Hrng1 & Hpick1).
        rewrite Hstep. cbn [obind].
        change (Z.to_nat 0) with O in Hsw, Hpick1.
        rewrite swap_remove_slot_zero in Hsw.
        assert (HW1 : remove_slot_zero (w :: W0) = W1) by congruence.
        cbn [length] in HlW. injection HlW as HlW.
        rewrite Hrng, xorshift64_zero in Hrng1.
        destruct (IH s1 W1 (P ++ [w]) Hinv1 Hrng1 ltac:(lia))
          as (s' & W' & Hrun & Hinv' & Hpk & Hrng').
        exists s', W'. split; [exact Hrun|].
        rewrite Hleft1, <- HlW in Hinv', Hpk.
        cbn [slot_zero_picks repeat]. rewrite HW1.
        rewrite <- app_assoc in Hinv'. cbn [app] in Hinv'.
        split; [exact Hinv'|]. split; [|exact Hrng'].
        rewrite Hpk, Hpick1, <- app_assoc. reflexivity.
Qed.

(** [reduce] from a generator state of zero, on an asset that satisfies
    the invariants of the data model. *)
Lemma reduce_zero_seed_picks {F} (hs : HairStyle F) (ratio : float)
    (left vleft : Z) :
  seed hs = 0 ->
  well_formed hs ->
  count_left (get_strand_count hs) ratio = Done left ->
  count_left (get_vertex_count hs) ratio = Done vleft ->
  exists hs',
    reduce ratio hs
    = Done (hs', repeat O (iterations left (length (segment_counts hs))))
    /\ seed hs' = 0
    /\ segments hs'
       = map snd (slot_zero_picks
                    (iterations left (length (segment_counts hs)))
                    (strand_table hs))
    /\ vertices hs'
       = flat_map (strand_slice (vertices hs))
           (slot_zero_picks (iterations left (length (segment_counts hs)))
              (strand_table hs))
    /\ thickness hs'
       = flat_map (strand_slice (thickness hs))
           (slot_zero_picks (iterations left (length (segment_counts hs)))
              (strand_table hs))
    /\ tangents hs'
       = flat_map (strand_slice (tangents hs))
           (slot_zero_picks (iterations left (length (segment_counts hs)))
              (strand_table hs))
    /\ transparency hs'
       = flat_map (strand_slice (transparency hs))
           (slot_zero_picks (iterations left (length (segment_counts hs)))
              (strand_table hs))
    /\ color hs'
       = flat_map (strand_slice (color hs))
           (slot_zero_picks (iterations left (length (segment_counts hs)))
              (strand_table hs)).
Proof.
  intros Hseed Hwf Hleft Hvleft.
  unfold reduce. rewrite Hleft, Hvleft. cbn [obind].
  rewrite (well_formed_offsets hs Hwf). cbn [obind].
  pose proof (initial_invariant hs Hwf left) as Hinit.
  assert (Htl : length (strand_table hs) = length (segment_counts hs))
    by apply table_from_length.
  destruct (sample_loop_zero_seed_picks hs Hwf
              (length (map fst (strand_table hs))) _
              (strand_table hs) [] Hinit)
    as (s' & W' & Hrun & Hinv & Hpk & Hrng).
  { exact Hseed. }
  { rewrite length_map. lia. }
  rewrite Hrun. cbn [obind].
  cbn [strands_left picked app] in Hinv, Hpk. rewrite Htl in Hinv, Hpk.
  destruct Hinv as (_ & _ & _ & _ & Rse & Rve & Rth & Rta & Rtr & Rco & _).
  match goal with
  | |- context [generate_indices ?h] =>
      destruct (generate_indices_defined h) as (ix & ->)
  end.
  cbn [obind]. rewrite Hpk.
  eexists. split; [reflexivity|]. cbn.
  repeat split; assumption.
Qed.

(** C10: zero is a fixed point of [xorshift64], so from a state of zero
    every draw is zero and maps to slot 0 of the working set whatever its
    size.  Hence a [reduce] on an asset whose generator state is zero, and
    which satisfies the invariants of the data model, runs to completion,
    draws slot 0 in every one of its iterations and copies each time the
    strand that is in slot 0 of the working set: the first strand, and
    then, since the swap with the last entry refills slot 0, the other
    strands from the last backwards.  The state is zero afterwards. *)
Theorem zero_seed_always_selects_slot_zero {F} (hs : HairStyle F)
    (ratio : float) (left vleft : Z) :
  seed hs = 0 ->
  well_formed hs ->
  count_left (get_strand_count hs) ratio = Done left ->
  count_left (get_vertex_count hs) ratio = Done vleft ->
  xorshift64 (seed hs) = 0
  /\ (forall n, Nat.iter n xorshift64 (seed hs) = 0)
  /\ (forall n working_size,
        random_strand (Nat.iter n xorshift64 (seed hs)) working_size = Done 0)
  /\ (forall hs' picks,
        reduce ratio hs = Done (hs', picks) ->
        Forall (fun r => r = O) picks /\ seed hs' = 0)
  /\ exists hs',
       reduce ratio hs
       = Done (hs', repeat O (iterations left (length (segment_counts hs))))
       /\ seed hs' = 0
       /\ segments hs'
          = map snd (slot_zero_picks
                       (iterations left (length (segment_counts hs)))
                       (strand_table hs))
       /\ vertices hs'
          = flat_map (strand_slice (vertices hs))
              (slot_zero_picks (iterations left (length (segment_counts hs)))
                 (strand_table hs))
       /\ thickness hs'
          = flat_map (strand_slice (thickness hs))
              (slot_zero_picks (iterations left (length (segment_counts hs)))
                 (strand_table hs))
       /\ tangents hs'
          = flat_map (strand_slice (tangents hs))
              (slot_zero_picks (iterations left (length (segment_counts hs)))
                 (strand_table hs))
       /\ transparency hs'
          = flat_map (strand_slice (transparency hs))
              (slot_zero_picks (iterations left (length (segment_counts hs)))
                 (strand_table hs))
       /\ color hs'
          = flat_map (strand_slice (color hs))
              (slot_zero_picks (iterations left (length (segment_counts hs)))
                 (strand_table hs))
       /\ slot_zero_picks (iterations left (length (segment_counts hs)))
            (strand_table hs)
          = firstn (iterations left (length (segment_counts hs)))
              (slot_zero_order (strand_table hs)).
Proof.
  intros Hseed Hwf Hleft Hvleft.
  split; [rewrite Hseed; reflexivity|].
  split; [rewrite Hseed; apply xorshift64_iter_zero|].
  split.
  { intros n w. rewrite Hseed, xorshift64_iter_zero.
    apply random_strand_zero. }
  split.
  { intros hs' picks Hred. eapply reduce_zero_seed; eassumption. }
  destruct (reduce_zero_seed_picks hs ratio left vleft Hseed Hwf Hleft Hvleft)
    as (hs' & Hred & Hs & Hse & Hve & Hth & Hta & Htr & Hco).
  exists hs'.
  split; [exact Hred|]. split; [exact Hs|]. split; [exact Hse|].
  split; [exact Hve|]. split; [exact Hth|]. split; [exact Hta|].
  split; [exact Htr|]. split; [exact Hco|].
  apply slot_zero_picks_order.
Qed.

Lemma zero_seed_always_selects_slot_zero_witness :
  seed (four_strands 0) = 0
  /\ well_formed (four_strands 0)
  /\ count_left (get_strand_count (four_strands 0)) F32.one = Done 0
  /\ count_left (get_vertex_count (four_strands 0)) F32.one = Done 0
  /\ (xorshift64 (seed (four_strands 0)) = 0
      /\ (forall n, Nat.iter n xorshift64 (seed (four_strands 0)) = 0)
      /\ (forall n working_size,
            random_strand (Nat.iter n xorshift64 (seed (four_strands 0)))
              working_size = Done 0)
      /\ (forall hs' picks,
            reduce F32.one (four_strands 0) = Done (hs', picks) ->
            Forall (fun r => r = O) picks /\ seed hs' = 0)
      /\ exists hs',
           reduce F32.one (four_strands 0)
           = Done (hs',
                   repeat O
                     (iterations 0
                        (length (segment_counts (four_strands 0)))))
           /\ seed hs' = 0
           /\ segments hs'
              = map snd
                  (slot_zero_picks
                     (iterations 0
                        (length (segment_counts (four_strands 0))))
                     (strand_table (four_strands 0)))
           /\ vertices hs'
              = flat_map (strand_slice (vertices (four_strands 0)))
                  (slot_zero_picks
                     (iterations 0
                        (length (segment_counts (four_strands 0))))
                     (strand_table (four_strands 0)))
           /\ thickness hs'
              = flat_map (strand_slice (thickness (four_strands 0)))
                  (slot_zero_picks
                     (iterations 0
                        (length (segment_counts (four_strands 0))))
                     (strand_table (four_strands 0)))
           /\ tangents hs'
              = flat_map (strand_slice (tangents (four_strands 0)))
                  (slot_zero_picks
                     (iterations 0
                        (length (segment_counts (four_strands 0))))
                     (strand_table (four_strands 0)))
           /\ transparency hs'
              = flat_map (strand_slice (transparency (four_strands 0)))
                  (slot_zero_picks
                     (iterations 0
                        (length (segment_counts (four_strands 0))))
                     (strand_table (four_strands 0)))
           /\ color hs'
              = flat_map (strand_slice (color (four_strands 0)))
                  (slot_zero_picks
                     (iterations 0
                        (length (segment_counts (four_strands 0))))
                     (strand_table (four_strands 0)))
           /\ slot_zero_picks
                (iterations 0 (length (segment_counts (four_strands 0))))
                (strand_table (four_strands 0))
              = firstn
                  (iterations 0 (length (segment_counts (four_strands 0))))
                  (slot_zero_order (strand_table (four_strands 0)))).
Proof.
  assert (H1 : seed (four_strands 0) = 0) by reflexivity.
  assert (H2 : count_left (get_strand_count (four_strands 0)) F32.one
               = Done 0) by (vm_compute; reflexivity).
  assert (H3 : count_left (get_vertex_count (four_strands 0)) F32.one
               = Done 0) by (vm_compute; reflexivity).
  split; [exact H1|]. split; [exact (four_strands_well_formed 0)|].
  split; [exact H2|]. split; [exact H3|].
  exact (zero_seed_always_selects_slot_zero (four_strands 0) F32.one 0 0
           H1 (four_strands_well_formed 0) H2 H3).
Defined.

(** A shuffle of four strands from a state of zero, computed: four
    draws, all of slot 0; the strands come out in the order first, fourth,
    third, second, each with its two vertices and its two thickness
    values. *)
Lemma shuffle_zero_seed_order :
  exists hs',
    reduce F32.one (four_strands 0) = Done (hs', [O; O; O; O])
    /\ slot_zero_picks 4 (strand_table (four_strands 0))
       = [(0%nat, 1); (6%nat, 1); (4%nat, 1); (2%nat, 1)]
    /\ segments hs' = [1; 1; 1; 1]
    /\ vertices hs' = map (fun n => point n n n) [0; 1; 6; 7; 4; 5; 2; 3]
    /\ thickness hs' = map F32.of_int [10; 11; 16; 17; 14; 15; 12; 13]
    /\ seed hs' = 0.
Proof.
  eexists. split; [vm_compute; reflexivity|].
  repeat split; vm_compute; reflexivity.
Qed.

(* ===================================================================== *)
(** * The tangent rule on well-formed assets *)
(* ===================================================================== *)

Lemma at_index_nth {A} (v : list A) (i : nat) (d : A) :
  (i < length v)%nat -> at_index v i = Done (nth i v d).
Proof.
  intros Hi. unfold at_index. rewrite (nth_error_nth' v d Hi). reflexivity.
Qed.

Lemma back_last_index {A} (l : list A) (t : A) :
  back l = Done t -> nth_error l (length l - 1) = Some t.
Proof.
  intros Hb. destruct (back_nonempty l) as (l0 & b & -> & Hb');
    [destruct l; [discriminate | discriminate]|].
  rewrite Hb' in Hb. injection Hb as ->.
  rewrite length_app. cbn [length].
  rewrite nth_error_app2 by lia.
  replace (length l0 + 1 - 1 - length l0)%nat with O by lia. reflexivity.
Qed.

(** The inner loop stores the forward differences of [n] consecutive
    vertices. *)
Lemma tangent_segments_run (vs : list (vec3 float)) (n : nat) :
  forall i v ts,
    (v + n + 1 <= length vs)%nat \/ n = O ->
    for_loop (tangent_segment vs) i n (v, ts)
    = Done ((v + n)%nat, ts ++ map (forward_tangent vs) (seq v n)).
Proof.
  induction n as [|n IH]; intros i v ts Hlen.
  - cbn. rewrite Nat.add_0_r, app_nil_r. reflexivity.
  - destruct Hlen as [Hlen | Hn]; [|discriminate].
    cbn [for_loop tangent_segment].
    rewrite (at_index_nth vs (v + 0) V3.zero) by lia.
    rewrite (at_index_nth vs (v + 1) V3.zero) by lia.
    cbn [obind]. rewrite IH by (left; lia).
    cbn [seq map]. rewrite <- app_assoc. cbn [app].
    unfold forward_tangent at 2.
    replace (v + 0)%nat with v by lia.
    replace (v + 1)%nat with (S v) by lia.
    replace (S v + n)%nat with (v + S n)%nat by lia.
    reflexivity.
Qed.

Lemma tangent_strands_run (hs : HairStyle float) :
  forall (counts : list Z) (j o : nat) (ts : list (vec3 float)),
    (forall k c, nth_error counts k = Some c ->
                 strand_segment_count hs (j + k) = Done c) ->
    Forall (fun c => 0 <= c) counts ->
    (o + vertex_total counts <= length (vertices hs))%nat ->
    length ts = o ->
    (ts <> [] \/ match counts with c :: _ => 0 < c | [] => True end) ->
    exists ts',
      for_loop (tangent_strand hs) j (length counts) (o, ts)
      = Done ((o + vertex_total counts)%nat, ts')
      /\ length ts' = (o + vertex_total counts)%nat
      /\ (forall i, (i < o)%nat -> nth_error ts' i = nth_error ts i)
      /\ Forall (strand_rule (vertices hs) ts') (table_from counts o).
Proof.
  induction counts as [|c rest IH]; intros j o ts Hseg Hpos Hlen Hts Hne.
  - exists ts. cbn [length for_loop table_from].
    change (vertex_total []) with O. rewrite Nat.add_0_r.
    repeat split; auto.
  - inversion Hpos as [|? ? Hc Hrest]; subst.
    rewrite vertex_total_cons in Hlen |- *.
    set (n := Z.to_nat c) in *.
    set (body := map (forward_tangent (vertices hs)) (seq (length ts) n)).
    assert (Hbody : length body = n)
      by (unfold body; rewrite length_map, length_seq; reflexivity).
    assert (Hnonempty : ts ++ body <> []).
    { destruct Hne as [Hne | Hne].
      - destruct ts; [contradiction | discriminate].
      - assert (n <> O) by lia. destruct body; [simpl in Hbody; lia|].
        destruct ts; discriminate. }
    destruct (back_nonempty _ Hnonempty) as (l0 & t & Heq & Hback).
    set (ts1 := (ts ++ body) ++ [t]).
    assert (Hl1 : length ts1 = (length ts + n + 1)%nat).
    { unfold ts1. rewrite !length_app, Hbody. reflexivity. }
    destruct (IH (S j) (length ts + n + 1)%nat ts1)
      as (ts' & Hrun & Hlen' & Hprefix & Hrules).
    { intros k c' Hk. replace (S j + k)%nat with (j + S k)%nat by lia.
      apply Hseg. exact Hk. }
    { exact Hrest. }
    { lia. }
    { exact Hl1. }
    { left. unfold ts1. destruct (ts ++ body); discriminate. }
    exists ts'. split; [|split; [|split]].
    + cbn [length for_loop]. unfold tangent_strand at 1.
      replace j with (j + 0)%nat at 1 by lia.
      rewrite (Hseg O c eq_refl). cbn [obind]. fold n.
      rewrite tangent_segments_run by (left; lia). cbn [obind].
      fold body. rewrite Hback. cbn [obind]. fold ts1.
      replace (S (length ts + n)) with (length ts + n + 1)%nat by lia.
      rewrite Hrun. do 2 f_equal. lia.
    + rewrite Hlen'. lia.
    + intros i Hi. rewrite Hprefix by lia. unfold ts1.
      rewrite <- app_assoc. apply nth_error_app1. exact Hi.
    + cbn [table_from]. fold n. constructor; [|exact Hrules].
      split; cbn [fst snd]; fold n.
      * intros k Hk. rewrite Hprefix by lia. unfold ts1.
        rewrite nth_error_app1 by (rewrite length_app; lia).
        rewrite nth_error_app2 by lia.
        replace (length ts + k - length ts)%nat with k by lia.
        unfold body. rewrite nth_error_map, nth_error_seq.
        replace (k <? n)%nat with true by (symmetry; apply Nat.ltb_lt; lia).
        reflexivity.
      * exists t. split.
        -- rewrite Hprefix by lia. unfold ts1.
           rewrite nth_error_app2 by (rewrite length_app; lia).
           rewrite length_app, Hbody.
           replace (length ts + n - (length ts + n))%nat with O by lia.
           reflexivity.
        -- assert (Hpos' : (0 < length (ts ++ body))%nat)
             by (destruct (ts ++ body); [contradiction | simpl; lia]).
           rewrite length_app, Hbody in Hpos'.
           rewrite Hprefix by lia. unfold ts1.
           rewrite nth_error_app1 by (rewrite length_app; lia).
           apply back_last_index in Hback.
           rewrite length_app, Hbody in Hback. exact Hback.
Qed.

Lemma well_formed_segment_count {F} (hs : HairStyle F) (k : nat) (c : Z) :
  nth_error (segment_counts hs) k = Some c ->
  strand_segment_count hs k = Done c.
Proof.
  unfold segment_counts, strand_segment_count, at_index.
  destruct (has_segments hs); intros H.
  - rewrite H. reflexivity.
  - apply nth_error_In, repeat_spec in H. rewrite H. reflexivity.
Qed.

(** The tangent rule holds for every strand of an asset that satisfies the
    invariants of the data model and whose first strand has at least one
    segment: forward differences everywhere but at the tips, and at a tip
    the tangent stored just before it (for a strand without segments, the
    tip tangent of the strand before). *)
Lemma generate_tangents_rule (hs : HairStyle float) :
  well_formed hs ->
  first_strand_has_segment hs ->
  exists ts,
    generate_tangents hs = Done (set_tangents hs ts)
    /\ length ts = length (vertices hs)
    /\ Forall (strand_rule (vertices hs) ts) (strand_table hs).
Proof.
  intros Hwf Hfirst.
  pose proof (well_formed_strand_count hs Hwf) as Hsc.
  destruct Hwf as (Hc & _ & _ & Hsum & _).
  destruct (tangent_strands_run hs (segment_counts hs) O O [])
    as (ts & Hrun & Hlen & _ & Hrules).
  - intros k c Hk. apply well_formed_segment_count. exact Hk.
  - eapply Forall_impl; [|exact Hc]. cbn. intros c Hc0. lia.
  - cbn [Nat.add]. lia.
  - reflexivity.
  - right. exact Hfirst.
  - exists ts. unfold generate_tangents. rewrite Hsc, Nat2Z.id, Hrun.
    cbn [obind]. cbn [Nat.add] in Hlen. rewrite Hlen, Hsum.
    repeat split. exact Hrules.
Qed.

(* ===================================================================== *)
(** * Properties of the binary codec *)
(* ===================================================================== *)

(** ** Element codecs *)

Lemma split_at_app {A} (a r : list A) (n : nat) :
  length a = n -> split_at n (a ++ r) = (a, r).
Proof.
  intros <-. unfold split_at.
  rewrite firstn_app, skipn_app, Nat.sub_diag, firstn_all, skipn_all.
  cbn [firstn skipn app]. rewrite app_nil_r. reflexivity.
Qed.

Lemma unsigned_codec_lawful (n : nat) : lawful (unsigned_codec n).
Proof.
  split; cbn.
  - intros x. apply length_le_split.
  - intros x Hx. rewrite le_combine_split. apply Z.mod_small.
    replace (Z.of_nat n * 8) with (8 * Z.of_nat n) by lia. exact Hx.
Qed.

Lemma vec3_codec_lawful {F} (c : Codec F) : lawful c -> lawful (vec3_codec c).
Proof.
  intros (Hlen & Hdec).
  split; cbn [vec3_codec representable decode encode width].
  - intros [x y z]. unfold encode_vec3. cbn [vx vy vz].
    rewrite !length_app, !Hlen. lia.
  - intros [x y z] (Hx & Hy & Hz). cbn [vx vy vz] in *.
    unfold decode_vec3, encode_vec3. cbn [vx vy vz].
    rewrite (split_at_app (encode c x)) by apply Hlen.
    rewrite (split_at_app (encode c y)) by apply Hlen.
    rewrite <- (app_nil_r (encode c z)).
    rewrite (split_at_app (encode c z)) by apply Hlen.
    rewrite !Hdec by assumption. reflexivity.
Qed.

Lemma raw_codec_lawful : lawful raw_codec.
Proof.
  split; cbn.
  - intros [[[a b] c] d]. reflexivity.
  - intros [[[a b] c] d] _. reflexivity.
Qed.

(** ** Sections *)

Lemma write_field_length {T} (c : Codec T) (v : list T) :
  lawful c -> length (write_field c v) = (length v * width c)%nat.
Proof.
  intros (Hlen & _). unfold write_field.
  induction v as [|x v IH]; [reflexivity|].
  cbn [flat_map length]. rewrite length_app, Hlen, IH. lia.
Qed.

Lemma decode_elements_write {T} (c : Codec T) (v : list T) (rest : list byte) :
  lawful c -> Forall (representable c) v ->
  decode_elements c (length v) (write_field c v ++ rest) = v.
Proof.
  intros (Hlen & Hdec) Hv. unfold write_field.
  induction Hv as [|x v Hx Hv IH]; [reflexivity|].
  cbn [flat_map length decode_elements]. rewrite <- app_assoc.
  pose proof (split_at_app (encode c x) (flat_map (encode c) v ++ rest)
                (width c) (Hlen x)) as Hs.
  unfold split_at in Hs. injection Hs as H1 H2.
  rewrite H1, H2, Hdec, IH by assumption. reflexivity.
Qed.

Lemma read_field_write_field {T} (c : Codec T) (v : list T)
    (rest : list byte) :
  lawful c -> Forall (representable c) v ->
  read_field c (length v) (write_field c v ++ rest) = Some (v, rest).
Proof.
  intros Hc Hv. unfold read_field.
  pose proof (write_field_length c v Hc) as Hl.
  replace (length v * width c <=? length (write_field c v ++ rest))%nat
    with true by (symmetry; apply Nat.leb_le; rewrite length_app; lia).
  rewrite decode_elements_write by assumption.
  rewrite <- Hl, skipn_app, Nat.sub_diag, skipn_all. reflexivity.
Qed.

(** What was written for an array is read back into an empty array: the
    section is present exactly when the array is not empty. *)
Lemma read_write_section {T} (c : Codec T) (v : list T) (n : Z)
    (rest : list byte) :
  lawful c -> Forall (representable c) v ->
  (v <> [] -> Z.to_nat n = length v) ->
  read_section c (nonempty v) n [] (write_section c (nonempty v) v ++ rest)
  = Some (v, rest).
Proof.
  intros Hc Hv Hn. unfold read_section, write_section.
  destruct v as [|x v]; [reflexivity|]. cbn [nonempty].
  rewrite Hn by discriminate. apply read_field_write_field; assumption.
Qed.

(** ** The header *)

Lemma bitfield_roundtrip (b : Bitfield) :
  future_extension b = 0 ->
  decode_bitfield (le_combine (le_split 4 (encode_bitfield b))) = b.
Proof.
  destruct b as [b0 b1 b2 b3 b4 b5 b6 fe b7]. cbn [future_extension].
  intros ->.
  destruct b0, b1, b2, b3, b4, b5, b6, b7; vm_compute; reflexivity.
Qed.
Lemma le_roundtrip_u32 (x : Z) :
  0 <= x < 2 ^ 32 -> le_combine (le_split 4 x) = x.
Proof. intros Hx. rewrite le_combine_split. apply Z.mod_small. exact Hx. Qed.

Lemma padded_information (info : list byte) (n : nat) :
  length info = n -> firstn n (info ++ repeat Byte.x00 n) = info.
Proof.
  intros <-. rewrite firstn_app, Nat.sub_diag, firstn_all. cbn [firstn].
  apply app_nil_r.
Qed.

Section Header.
Context {F : Type} (cF : Codec F) (information_size : nat).
Hypothesis HcF : lawful cF.

Lemma encode_header_length (h : FileHeader F) :
  length (encode_header cF information_size h)
  = header_size cF information_size.
Proof.
  pose proof (proj1 (vec3_codec_lawful cF HcF)) as Hlen3.
  cbn [vec3_codec encode width] in Hlen3.
  destruct HcF as (Hlen & _).
  unfold encode_header, header_size.
  destruct (signature h) as [[[s0 s1] s2] s3].
  rewrite !length_app, !length_le_split, !Hlen, !Hlen3.
  rewrite length_firstn, length_app, repeat_length.
  cbn [length]. lia.
Qed.

(** A header whose fields fit their types is read back as written. *)
Lemma decode_encode_header (h : FileHeader F) :
  0 <= strand_count h < 2 ^ 32 ->
  0 <= vertex_count h < 2 ^ 32 ->
  future_extension (field h) = 0 ->
  0 <= default_segment_count h < 2 ^ 32 ->
  representable cF (default_thickness h) ->
  representable cF (default_transparency h) ->
  representable_vec3 cF (default_color h) ->
  representable_vec3 cF (bounding_box_min h) ->
  representable_vec3 cF (bounding_box_max h) ->
  length (information h) = information_size ->
  decode_header cF information_size (encode_header cF information_size h) = h.
Proof.
  intros Hsc Hvc Hfe Hds Hth Htr Hco Hlo Hhi Hinfo.
  pose proof (vec3_codec_lawful cF HcF) as (Hlen3 & Hdec3).
  cbn [vec3_codec encode decode width representable] in Hlen3, Hdec3.
  destruct HcF as (Hlen & Hdec).
  destruct h as [[[[s0 s1] s2] s3] sc vc bf ds th tr co lo hi info].
  cbn [signature strand_count vertex_count field default_segment_count
       default_thickness default_transparency default_color
       bounding_box_min bounding_box_max information] in *.
  unfold encode_header, decode_header.
  cbn [signature strand_count vertex_count field default_segment_count
       default_thickness default_transparency default_color
       bounding_box_min bounding_box_max information].
  rewrite (padded_information info information_size Hinfo).
  rewrite (split_at_app [s0; s1; s2; s3]) by reflexivity.
  rewrite (split_at_app (le_split 4 sc)) by apply length_le_split.
  rewrite (split_at_app (le_split 4 vc)) by apply length_le_split.
  rewrite (split_at_app (le_split 4 (encode_bitfield bf)))
    by apply length_le_split.
  rewrite (split_at_app (le_split 4 ds)) by apply length_le_split.
  rewrite (split_at_app (encode cF th)) by apply Hlen.
  rewrite (split_at_app (encode cF tr)) by apply Hlen.
  rewrite (split_at_app (encode_vec3 cF co)) by apply Hlen3.
  rewrite (split_at_app (encode_vec3 cF lo)) by apply Hlen3.
  rewrite (split_at_app (encode_vec3 cF hi)) by apply Hlen3.
  rewrite (le_roundtrip_u32 sc), (le_roundtrip_u32 vc), (le_roundtrip_u32 ds)
    by assumption.
  rewrite bitfield_roundtrip by assumption.
  rewrite !Hdec by assumption.
  rewrite !Hdec3 by assumption.
  rewrite <- Hinfo, firstn_all. reflexivity.
Qed.
End Header.
(** ** Round trip *)

Lemma nonempty_false {A} (v : list A) : nonempty v = false -> v = [].
Proof. destruct v; [reflexivity | discriminate]. Qed.

Lemma to_nat_size {A} (v : list A) : Z.to_nat (size v) = length v.
Proof. unfold size. apply Nat2Z.id. Qed.

Lemma format_is_valid_lengths {F} (hs : HairStyle F) :
  format_is_valid hs = true ->
  vertices hs <> []
  /\ aligned (thickness hs) (vertices hs)
  /\ aligned (transparency hs) (vertices hs)
  /\ aligned (color hs) (vertices hs).
Proof.
  unfold format_is_valid, has_vertices, has_thickness, has_transparency,
    has_color, aligned.
  destruct (vertices hs) as [|v vs]; [discriminate|]. cbn [nonempty negb].
  destruct (negb (valid_signature hs)); [discriminate|].
  intros H. split; [discriminate|].
  destruct (thickness hs) as [|a th]; cbn [nonempty andb] in H.
  - destruct (transparency hs) as [|b tr]; cbn [nonempty andb] in H.
    + destruct (color hs) as [|c co]; cbn [nonempty andb] in H.
      * repeat split; left; reflexivity.
      * destruct (length (c :: co) =? length (v :: vs))%nat eqn:E;
          [|discriminate].
        apply Nat.eqb_eq in E. repeat split; auto.
    + destruct (length (b :: tr) =? length (v :: vs))%nat eqn:E1;
        [|discriminate].
      apply Nat.eqb_eq in E1. cbn [negb] in H.
      destruct (color hs) as [|c co]; cbn [nonempty andb] in H.
      * repeat split; auto.
      * destruct (length (c :: co) =? length (v :: vs))%nat eqn:E;
          [|discriminate].
        apply Nat.eqb_eq in E. repeat split; auto.
  - destruct (length (a :: th) =? length (v :: vs))%nat eqn:E0;
      [|discriminate].
    apply Nat.eqb_eq in E0. cbn [negb] in H.
    destruct (transparency hs) as [|b tr]; cbn [nonempty andb] in H.
    + destruct (color hs) as [|c co]; cbn [nonempty andb] in H.
      * repeat split; auto.
      * destruct (length (c :: co) =? length (v :: vs))%nat eqn:E;
          [|discriminate].
        apply Nat.eqb_eq in E. repeat split; auto.
    + destruct (length (b :: tr) =? length (v :: vs))%nat eqn:E1;
        [|discriminate].
      apply Nat.eqb_eq in E1. cbn [negb] in H.
      destruct (color hs) as [|c co]; cbn [nonempty andb] in H.
      * repeat split; auto.
      * destruct (length (c :: co) =? length (v :: vs))%nat eqn:E;
          [|discriminate].
        apply Nat.eqb_eq in E. repeat split; auto.
Qed.

Lemma valid_signature_HAIR {F} (hs : HairStyle F) :
  signature (file_header hs) = signature_HAIR -> valid_signature hs = true.
Proof. unfold valid_signature. intros ->. reflexivity. Qed.

Section RoundTrip.
Context {F : Type} (cF : Codec F) (information_size : nat).
Hypothesis HcF : lawful cF.

(** C1, amended: an asset that passes the structural check of [save],
    whose values fit the fields of the file, whose tangents, when present,
    are one per vertex and whose indices, when present, are two per
    segment, is reproduced by saving it and loading the file into a
    freshly constructed object: same counts, same presence bitfield, same
    content in every array; and the header written is recomputed from the
    arrays, whatever header the asset carried. *)
Theorem save_load_roundtrip (asset fresh : HairStyle F) :
  storable cF information_size asset ->
  format_is_valid (complete_header asset) = true ->
  aligned (tangents asset) (vertices asset) ->
  indices_sized asset ->
  default_constructed fresh ->
  exists saved bytes loaded,
    save cF information_size asset = (saved, Some bytes)
    /\ error_state saved = ErrNone
    /\ load cF information_size (Some bytes) fresh = inr loaded
    /\ error_state loaded = ErrNone
    /\ file_header loaded = file_header saved
    /\ strand_count (file_header loaded) = get_strand_count asset
    /\ vertex_count (file_header loaded) = get_vertex_count asset
    /\ field (file_header loaded) = update_bitfield asset
    /\ get_strand_count loaded = get_strand_count asset
    /\ get_vertex_count loaded = get_vertex_count asset
    /\ segments loaded = segments asset
    /\ vertices loaded = vertices asset
    /\ thickness loaded = thickness asset
    /\ transparency loaded = transparency asset
    /\ color loaded = color asset
    /\ tangents loaded = tangents asset
    /\ indices loaded = indices asset.
Proof.
  intros Hst Hvalid Hta Hix Hfresh.
  destruct Hst as (Hsegs & Hverts & Hsc & Hds & Hinfo & Rth & Rtr & Rco & Rlo
                   & Rhi & Fse & Fve & Fth & Ftr & Fco & Fta & Fix).
  destruct Hfresh as (E1 & E2 & E3 & E4 & E5 & E6 & E7).
  pose proof (format_is_valid_lengths _ Hvalid) as (Hne & Ath & Atr & Aco).
  cbn [complete_header set_file_header vertices thickness transparency color]
    in Hne, Ath, Atr, Aco.
  pose proof (vec3_codec_lawful cF HcF) as HcV.
  pose proof (unsigned_codec_lawful 2) as Hc16.
  pose proof (unsigned_codec_lawful 4) as Hc32.
  assert (Hgsc : 0 <= get_strand_count asset < 2 ^ 32).
  { unfold get_strand_count. destruct (has_segments asset);
      [apply u32_range | exact Hsc]. }
  set (h := file_header (complete_header asset)).
  assert (Hdec : decode_header cF information_size
                   (encode_header cF information_size h) = h).
  { apply decode_encode_header; try assumption; try reflexivity.
    apply u32_range. }
  unfold save. rewrite Hvalid. cbn [negb].
  eexists. eexists. eexists.
  split; [reflexivity|]. split; [reflexivity|].
  fold h.
  cbn [set_error_state file_header segments vertices thickness transparency
       color tangents indices complete_header set_file_header].
  fold h.
  assert (Hbits : field h = update_bitfield asset) by reflexivity.
  rewrite Hbits.
  cbn [update_bitfield has_segments_bit has_vertices_bit has_thickness_bit
       has_transparency_bit has_color_bit has_tangents_bit has_indices_bit].
  unfold has_segments, has_vertices, has_thickness, has_transparency,
    has_color, has_tangents, has_indices.
  assert (Hlen_h := encode_header_length cF information_size HcF h).
  unfold load.
  rewrite length_app, Hlen_h.
  rewrite (proj2 (Nat.leb_le _ _)) by lia. cbn [negb].
  rewrite (split_at_app (encode_header cF information_size h)) by exact Hlen_h.
  rewrite Hdec.
  cbn [set_file_header file_header segments vertices thickness transparency
       color tangents indices].
  rewrite E1, E2, E3, E4, E5, E6, E7.
  rewrite valid_signature_HAIR by reflexivity. cbn [negb].
  rewrite Hbits.
  cbn [update_bitfield has_segments_bit has_vertices_bit has_thickness_bit
       has_transparency_bit has_color_bit has_tangents_bit has_indices_bit].
  unfold has_segments, has_vertices, has_thickness, has_transparency,
    has_color, has_tangents, has_indices.
  change (strand_count h) with (get_strand_count asset).
  change (vertex_count h) with (get_vertex_count asset).
  assert (Hnv : Z.to_nat (get_vertex_count asset) = length (vertices asset)).
  { unfold get_vertex_count. rewrite u32_small by (unfold size in *; lia).
    apply to_nat_size. }
  rewrite (read_write_section u16_codec (segments asset)).
  2: exact Hc16. 2: exact Fse.
  2:{ intros Hs. unfold get_strand_count, has_segments.
      destruct (segments asset); [contradiction|]. cbn [nonempty].
      rewrite u32_small by (unfold size in *; lia). apply to_nat_size. }
  rewrite (read_write_section (vec3_codec cF) (vertices asset));
    [|exact HcV|exact Fve|intros _; exact Hnv].
  rewrite (read_write_section cF (thickness asset));
    [|exact HcF|exact Fth
     |intros Hs; rewrite Hnv; symmetry; apply aligned_length; assumption].
  rewrite (read_write_section cF (transparency asset));
    [|exact HcF|exact Ftr
     |intros Hs; rewrite Hnv; symmetry; apply aligned_length; assumption].
  rewrite (read_write_section (vec3_codec cF) (color asset));
    [|exact HcV|exact Fco
     |intros Hs; rewrite Hnv; symmetry; apply aligned_length; assumption].
  rewrite (read_write_section (vec3_codec cF) (tangents asset));
    [|exact HcV|exact Fta
     |intros Hs; rewrite Hnv; symmetry; apply aligned_length; assumption].
  assert (Hsc' : forall hs : HairStyle F,
            segments hs = segments asset -> file_header hs = h ->
            get_strand_count hs = get_strand_count asset).
  { intros hs Hs Hh. unfold get_strand_count, has_segments. rewrite Hs, Hh.
    destruct (nonempty (segments asset)) eqn:E; [reflexivity|].
    subst h. cbn [complete_header set_file_header file_header strand_count].
    unfold get_strand_count, has_segments. rewrite E. reflexivity. }
  assert (Hgs : forall hs : HairStyle F,
            segments hs = segments asset -> vertices hs = vertices asset ->
            file_header hs = h ->
            get_segment_count hs = get_segment_count asset).
  { intros hs Hs Hv Hh. unfold get_segment_count, get_vertex_count.
    rewrite Hv, (Hsc' hs Hs Hh). reflexivity. }
  rewrite Hgs by reflexivity.
  rewrite <- (app_nil_r (write_section u32_codec _ (indices asset))).
  rewrite (read_write_section u32_codec (indices asset));
    [|exact Hc32|exact Fix|].
  2:{ intros Hs. destruct Hix as [Hix | Hix]; [contradiction|].
      rewrite <- Hix. apply to_nat_size. }
  assert (Hv2 : format_is_valid
                  (with_arrays (set_file_header fresh h) (segments asset)
                     (vertices asset) (thickness asset) (transparency asset)
                     (color asset) (tangents asset) (indices asset)) = true)
    by exact Hvalid.
  rewrite Hv2.
  split; [reflexivity|].
  cbn [set_error_state with_arrays set_file_header file_header segments
       vertices thickness transparency color tangents indices error_state].
  repeat split; try reflexivity.
  - apply Hsc'; reflexivity.
Qed.
End RoundTrip.

Lemma full_asset_storable : storable raw_codec 64 full_asset.
Proof.
  unfold storable. cbn.
  repeat split; try lia; try reflexivity; repeat constructor; cbn; lia.
Qed.

Lemma short_tangents_storable : storable raw_codec 64 short_tangents.
Proof.
  unfold storable. cbn.
  repeat split; try lia; try reflexivity; repeat constructor; cbn; lia.
Qed.

Lemma save_load_roundtrip_witness :
  lawful raw_codec
  /\ storable raw_codec 64 full_asset
  /\ format_is_valid (complete_header full_asset) = true
  /\ aligned (tangents full_asset) (vertices full_asset)
  /\ indices_sized full_asset
  /\ default_constructed empty_asset
  /\ exists saved bytes loaded,
       save raw_codec 64 full_asset = (saved, Some bytes)
       /\ error_state saved = ErrNone
       /\ load raw_codec 64 (Some bytes) empty_asset = inr loaded
       /\ error_state loaded = ErrNone
       /\ file_header loaded = file_header saved
       /\ strand_count (file_header loaded) = get_strand_count full_asset
       /\ vertex_count (file_header loaded) = get_vertex_count full_asset
       /\ field (file_header loaded) = update_bitfield full_asset
       /\ get_strand_count loaded = get_strand_count full_asset
       /\ get_vertex_count loaded = get_vertex_count full_asset
       /\ segments loaded = segments full_asset
       /\ vertices loaded = vertices full_asset
       /\ thickness loaded = thickness full_asset
       /\ transparency loaded = transparency full_asset
       /\ color loaded = color full_asset
       /\ tangents loaded = tangents full_asset
       /\ indices loaded = indices full_asset.
Proof.
  assert (H1 : storable raw_codec 64 full_asset) by exact full_asset_storable.
  assert (H2 : format_is_valid (complete_header full_asset) = true)
    by reflexivity.
  assert (H3 : aligned (tangents full_asset) (vertices full_asset))
    by (right; reflexivity).
  assert (H4 : indices_sized full_asset) by (right; reflexivity).
  assert (H5 : default_constructed empty_asset)
    by (repeat split; reflexivity).
  split; [exact raw_codec_lawful|].
  split; [exact H1|]. split; [exact H2|]. split; [exact H3|].
  split; [exact H4|]. split; [exact H5|].
  exact (save_load_roundtrip raw_codec 64 raw_codec_lawful full_asset
           empty_asset H1 H2 H3 H4 H5).
Defined.

(** C1 as stated fails: an asset with two vertices and one tangent passes
    the structural check, [save] writes it without error, and [load]
    rejects the file, because it reads one tangent per vertex. *)
Lemma save_accepts_what_load_rejects :
  format_is_valid (complete_header short_tangents) = true
  /\ storable raw_codec 64 short_tangents
  /\ default_constructed empty_asset
  /\ exists saved bytes,
       save raw_codec 64 short_tangents = (saved, Some bytes)
       /\ error_state saved = ErrNone
       /\ load raw_codec 64 (Some bytes) empty_asset = inl ReadingTangents.
Proof.
  split; [reflexivity|]. split; [exact short_tangents_storable|].
  split; [repeat split; reflexivity|].
  eexists. eexists. split; [reflexivity|]. split; [reflexivity|].
  vm_compute. reflexivity.
Qed.


(* ===================================================================== *)
(** * Thickness and index generation on well-formed assets *)
(* ===================================================================== *)

Lemma thickness_segments_run (radius : float) (n : nat) :
  forall i th,
    for_loop (thickness_segment radius) i n th = Done (th ++ repeat radius n).
Proof.
  induction n as [|n IH]; intros i th;
    cbn [for_loop thickness_segment obind repeat].
  - rewrite app_nil_r. reflexivity.
  - rewrite IH, <- app_assoc. reflexivity.
Qed.

Lemma thickness_strands_run (radius : float) (hs : HairStyle float) :
  forall (counts : list Z) (j : nat) (th : list float),
    (forall k c, nth_error counts k = Some c ->
                 strand_segment_count hs (j + k) = Done c) ->
    for_loop (thickness_strand radius hs) j (length counts) th
    = Done (th ++ flat_map (tapered radius) counts).
Proof.
  induction counts as [|c rest IH]; intros j th Hseg.
  - cbn. rewrite app_nil_r. reflexivity.
  - cbn [length for_loop flat_map]. unfold thickness_strand at 1.
    replace j with (j + 0)%nat at 1 by lia.
    rewrite (Hseg O c eq_refl). cbn [obind].
    rewrite thickness_segments_run. cbn [obind].
    rewrite IH.
    + unfold tapered at 2. rewrite <- !app_assoc. reflexivity.
    + intros k c' Hk. replace (S j + k)%nat with (j + S k)%nat by lia.
      apply Hseg. exact Hk.
Qed.

(** Arrays built strand by strand: the slice of a strand is the block
    that was generated for it. *)
Lemma flat_map_strand_slice {A} (f : Z -> list A) :
  (forall c, length (f c) = (Z.to_nat c + 1)%nat) ->
  forall (counts : list Z) (pre : list A),
    Forall (fun st => strand_slice (pre ++ flat_map f counts) st = f (snd st))
           (table_from counts (length pre)).
Proof.
  intros Hf. induction counts as [|c rest IH]; intros pre;
    cbn [table_from flat_map]; constructor.
  - unfold strand_slice. cbn [fst snd].
    rewrite skipn_app, skipn_all, Nat.sub_diag. cbn [app skipn].
    rewrite firstn_app, <- (Hf c), firstn_all, Nat.sub_diag.
    cbn [firstn]. apply app_nil_r.
  - specialize (IH (pre ++ f c)).
    rewrite length_app, Hf, <- app_assoc in IH.
    replace (length pre + Z.to_nat c + 1)%nat
      with (length pre + (Z.to_nat c + 1))%nat by lia.
    exact IH.
Qed.

Lemma flat_map_length_total {A} (f : Z -> list A) :
  (forall c, length (f c) = (Z.to_nat c + 1)%nat) ->
  forall counts, length (flat_map f counts) = vertex_total counts.
Proof.
  intros Hf. induction counts as [|c rest IH]; [reflexivity|].
  cbn [flat_map]. rewrite length_app, Hf, IH, vertex_total_cons. lia.
Qed.

Lemma tapered_length (radius : float) (c : Z) :
  length (tapered radius c) = (Z.to_nat c + 1)%nat.
Proof. unfold tapered. rewrite length_app, repeat_length. reflexivity. Qed.

(** X1: on an asset that satisfies the invariants of the data model,
    [generate_thickness] is defined and replaces the thickness array by one
    value per vertex: inside every strand the given radius at each vertex
    but the last, and zero at the tip. *)
Theorem generate_thickness_tapers (hs : HairStyle float) (radius : float) :
  well_formed hs ->
  exists th,
    generate_thickness radius hs = Done (set_thickness hs th)
    /\ length th = length (vertices hs)
    /\ Forall (fun st => strand_slice th st
                         = repeat radius (Z.to_nat (snd st)) ++ [F32.zero])
              (strand_table hs).
Proof.
  intros Hwf.
  pose proof (well_formed_strand_count hs Hwf) as Hsc.
  destruct Hwf as (_ & _ & _ & Hsum & _).
  exists (flat_map (tapered radius) (segment_counts hs)).
  split; [|split].
  - unfold generate_thickness. rewrite Hsc, Nat2Z.id.
    rewrite thickness_strands_run; [reflexivity|].
    intros k c Hk. apply well_formed_segment_count. exact Hk.
  - rewrite (flat_map_length_total _ (tapered_length radius)). exact Hsum.
  - exact (flat_map_strand_slice _ (tapered_length radius)
             (segment_counts hs) []).
Qed.

Lemma index_segments_run (n : nat) :
  forall i v ix,
    Z.of_nat (v + n) < 2 ^ 32 ->
    for_loop index_segment i n (v, ix)
    = Done ((v + n)%nat,
            ix ++ flat_map (fun a => [Z.of_nat a; Z.of_nat (S a)]) (seq v n)).
Proof.
  induction n as [|n IH]; intros i v ix Hv.
  - cbn. rewrite Nat.add_0_r, app_nil_r. reflexivity.
  - cbn [for_loop index_segment obind]. rewrite IH by lia.
    rewrite !u32_small by lia.
    cbn [seq flat_map]. rewrite <- app_assoc. cbn [app].
    replace (S v + n)%nat with (v + S n)%nat by lia. reflexivity.
Qed.

Lemma index_strands_run {F} (hs : HairStyle F) :
  forall (counts : list Z) (j o : nat) (ix : list Z),
    (forall k c, nth_error counts k = Some c ->
                 strand_segment_count hs (j + k) = Done c) ->
    Z.of_nat (o + vertex_total counts) < 2 ^ 32 ->
    for_loop (index_strand hs) j (length counts) (o, ix)
    = Done ((o + vertex_total counts)%nat,
            ix ++ flat_map strand_indices (table_from counts o)).
Proof.
  induction counts as [|c rest IH]; intros j o ix Hseg Hlt.
  - cbn. change (vertex_total []) with O.
    rewrite Nat.add_0_r, app_nil_r. reflexivity.
  - rewrite vertex_total_cons in Hlt |- *.
    cbn [length for_loop table_from flat_map]. unfold index_strand at 1.
    replace j with (j + 0)%nat at 1 by lia.
    rewrite (Hseg O c eq_refl). cbn [obind].
    rewrite index_segments_run by lia. cbn [obind].
    replace (S (o + Z.to_nat c)) with (o + Z.to_nat c + 1)%nat by lia.
    rewrite IH.
    + rewrite <- app_assoc. do 2 f_equal. lia.
    + intros k c' Hk. replace (S j + k)%nat with (j + S k)%nat by lia.
      apply Hseg. exact Hk.
    + lia.
Qed.

Lemma strand_indices_length (st : nat * Z) :
  length (strand_indices st) = (2 * Z.to_nat (snd st))%nat.
Proof.
  unfold strand_indices. generalize (fst st).
  induction (Z.to_nat (snd st)) as [|n IH]; intros o; [reflexivity|].
  cbn [seq flat_map app length]. rewrite IH. lia.
Qed.

Lemma table_indices_length (counts : list Z) : forall o,
  (length (flat_map strand_indices (table_from counts o))
   + 2 * length counts = 2 * vertex_total counts)%nat.
Proof.
  induction counts as [|c rest IH]; intros o; [reflexivity|].
  cbn [table_from flat_map length]. rewrite length_app, vertex_total_cons.
  rewrite strand_indices_length. cbn [snd].
  specialize (IH (o + Z.to_nat c + 1)%nat). lia.
Qed.

Lemma strand_indices_inside (st : nat * Z) (i : Z) :
  In i (strand_indices st) ->
  exists a, (fst st <= a < fst st + Z.to_nat (snd st))%nat
            /\ (i = Z.of_nat a \/ i = Z.of_nat (S a)).
Proof.
  unfold strand_indices. intros Hin. apply in_flat_map in Hin.
  destruct Hin as (a & Ha & Hi). apply in_seq in Ha.
  exists a. split; [lia|]. cbn in Hi. intuition.
Qed.

Lemma generate_indices_run {F} (hs : HairStyle F) :
  well_formed hs ->
  generate_indices hs
  = Done (set_indices hs (flat_map strand_indices (strand_table hs))).
Proof.
  intros Hwf.
  pose proof (well_formed_strand_count hs Hwf) as Hsc.
  destruct Hwf as (_ & Hpos & Hn & Hsum & Hv & _).
  unfold generate_indices. rewrite Hsc, Nat2Z.id.
  rewrite index_strands_run; [reflexivity| |cbn [Nat.add]; lia].
  intros k c Hk. apply well_formed_segment_count. exact Hk.
Qed.

Lemma generated_indices_size {F} (hs : HairStyle F) :
  well_formed hs ->
  size (flat_map strand_indices (strand_table hs))
  = get_segment_count hs * 2.
Proof.
  intros Hwf.
  pose proof (well_formed_strand_count hs Hwf) as Hsc.
  destruct Hwf as (_ & Hpos & Hn & Hsum & Hv & _).
  pose proof (table_indices_length (segment_counts hs) O) as Hlen.
  fold (strand_table hs) in Hlen.
  unfold get_segment_count, get_vertex_count. rewrite Hsc.
  unfold size. rewrite (u32_small (Z.of_nat (length (vertices hs)))) by lia.
  rewrite u32_small by lia. lia.
Qed.

Lemma generate_thickness_tapers_witness :
  well_formed (four_strands 1)
  /\ exists th,
       generate_thickness F32.one (four_strands 1)
       = Done (set_thickness (four_strands 1) th)
       /\ length th = length (vertices (four_strands 1))
       /\ Forall (fun st => strand_slice th st
                            = repeat F32.one (Z.to_nat (snd st)) ++ [F32.zero])
                 (strand_table (four_strands 1)).
Proof.
  split; [exact (four_strands_well_formed 1)|].
  exact (generate_thickness_tapers (four_strands 1) F32.one
           (four_strands_well_formed 1)).
Defined.

(** X2: on an asset that satisfies the invariants of the data model,
    [generate_indices] is defined and stores, strand by strand, the pair
    [(a, a + 1)] for every vertex [a] of the strand but its tip: two
    entries per segment, every entry the index of a vertex, and no pair
    joins two strands. *)
Theorem generate_indices_pairs {F} (hs : HairStyle F) :
  well_formed hs ->
  exists ix,
    generate_indices hs = Done (set_indices hs ix)
    /\ ix = flat_map strand_indices (strand_table hs)
    /\ size ix = get_segment_count hs * 2
    /\ Forall (fun i => 0 <= i < size (vertices hs)) ix.
Proof.
  intros Hwf.
  pose proof (well_formed_valid_strands hs Hwf) as Hvalid.
  exists (flat_map strand_indices (strand_table hs)).
  split; [exact (generate_indices_run hs Hwf)|].
  split; [reflexivity|].
  split; [exact (generated_indices_size hs Hwf)|].
  destruct Hwf as (_ & _ & _ & _ & Hv & _).
  apply Forall_forall. intros i Hin. apply in_flat_map in Hin.
  destruct Hin as (st & Hst & Hi).
  apply strand_indices_inside in Hi. destruct Hi as (a & Ha & Hi).
  rewrite Forall_forall in Hvalid. destruct (Hvalid st Hst) as (_ & Hb).
  unfold size. lia.
Qed.

Lemma generate_indices_pairs_witness :
  well_formed (three_strands 1)
  /\ exists ix,
       generate_indices (three_strands 1)
       = Done (set_indices (three_strands 1) ix)
       /\ ix = flat_map strand_indices (strand_table (three_strands 1))
       /\ size ix = get_segment_count (three_strands 1) * 2
       /\ Forall (fun i => 0 <= i < size (vertices (three_strands 1))) ix.
Proof.
  split; [exact (three_strands_well_formed 1)|].
  exact (generate_indices_pairs (three_strands 1)
           (three_strands_well_formed 1)).
Defined.

(* ===================================================================== *)
(** * The bounding box contains the asset *)
(* ===================================================================== *)

Lemma ltb_key (x y : float) :
  is_nan x = false -> is_nan y = false ->
  (F32.ltb x y = true <-> key_lt (order_key x) (order_key y)).
Proof.
  unfold F32.ltb, SFltb, SFcompare.
  destruct x as [sx|sx| |sx mx ex], y as [sy|sy| |sy my ey];
    cbn [is_nan order_key]; intros Hx Hy; try discriminate;
    try (destruct sx); try (destruct sy); cbn [key_lt];
    try (split; [intros; try discriminate; lia | intros; try reflexivity; lia]).
  - destruct (Z.compare_spec ex ey) as [He | He | He].
    + subst ey. change (Pos.compare_cont Eq mx my) with (Pos.compare mx my).
      destruct (Pos.compare_spec mx my); cbn [CompOpp];
        split; intros; try discriminate; try reflexivity; lia.
    + split; intros; try discriminate; lia.
    + split; intros; try reflexivity; lia.
  - destruct (Z.compare_spec ex ey) as [He | He | He].
    + subst ey. change (Pos.compare_cont Eq mx my) with (Pos.compare mx my).
      destruct (Pos.compare_spec mx my);
        split; intros; try discriminate; try reflexivity; lia.
    + split; intros; try reflexivity; lia.
    + split; intros; try discriminate; lia.
Qed.

Lemma key_lt_cases (a b : Z * Z * Z) : key_lt a b \/ a = b \/ key_lt b a.
Proof.
  destruct a as [[a1 a2] a3], b as [[b1 b2] b3]. cbn [key_lt].
  destruct (Z.lt_trichotomy a1 b1) as [?|[?|?]];
    destruct (Z.lt_trichotomy a2 b2) as [?|[?|?]];
    destruct (Z.lt_trichotomy a3 b3) as [?|[?|?]];
    subst; try (left; lia); try (right; right; lia).
  right; left; reflexivity.
Qed.

Lemma key_lt_trans (a b c : Z * Z * Z) :
  key_lt a b -> key_lt b c -> key_lt a c.
Proof.
  destruct a as [[a1 a2] a3], b as [[b1 b2] b3], c as [[c1 c2] c3].
  cbn [key_lt]. lia.
Qed.

Lemma key_lt_irrefl (a : Z * Z * Z) : ~ key_lt a a.
Proof. destruct a as [[a1 a2] a3]. cbn [key_lt]. lia. Qed.

Lemma ltb_is_nan (x y : float) :
  F32.ltb x y = true -> is_nan x = false /\ is_nan y = false.
Proof. destruct x, y; try discriminate; split; reflexivity. Qed.

Lemma le32_refl (x : float) : is_nan x = false -> le32 x x.
Proof.
  intros Hx. repeat split; try exact Hx.
  destruct (F32.ltb x x) eqn:E; [|reflexivity].
  apply (ltb_key x x Hx Hx) in E. destruct (key_lt_irrefl _ E).
Qed.

Lemma le32_of_ltb (x y : float) : F32.ltb x y = true -> le32 x y.
Proof.
  intros H. destruct (ltb_is_nan _ _ H) as (Hx & Hy).
  repeat split; try assumption.
  destruct (F32.ltb y x) eqn:E; [|reflexivity].
  apply (ltb_key _ _ Hx Hy) in H. apply (ltb_key _ _ Hy Hx) in E.
  destruct (key_lt_irrefl _ (key_lt_trans _ _ _ H E)).
Qed.

Lemma le32_trans (x y z : float) : le32 x y -> le32 y z -> le32 x z.
Proof.
  intros (Hx & Hy & Hxy) (_ & Hz & Hyz). repeat split; try assumption.
  destruct (F32.ltb z x) eqn:E; [|reflexivity].
  apply (ltb_key _ _ Hz Hx) in E.
  assert (Hnxy : ~ key_lt (order_key y) (order_key x)).
  { intros H. apply (ltb_key _ _ Hy Hx) in H. congruence. }
  assert (Hnyz : ~ key_lt (order_key z) (order_key y)).
  { intros H. apply (ltb_key _ _ Hz Hy) in H. congruence. }
  exfalso.
  destruct (key_lt_cases (order_key y) (order_key x)) as [H | [H | H]];
    [exact (Hnxy H) | |].
  - rewrite <- H in E. exact (Hnyz E).
  - exact (Hnyz (key_lt_trans _ _ _ E H)).
Qed.

(** One step of the reduction on one axis. *)
Lemma min_keeps (p lo x : float) :
  is_nan p = false -> le32 lo x -> le32 (F32.min p lo) x.
Proof.
  intros Hp Hle. unfold F32.min. destruct (F32.ltb lo p) eqn:E; [exact Hle|].
  apply le32_trans with lo; [|exact Hle].
  destruct Hle as (Hlo & _). repeat split; assumption.
Qed.

Lemma min_below (p lo : float) :
  is_nan p = false -> is_nan lo = false -> le32 (F32.min p lo) p.
Proof.
  intros Hp Hlo. unfold F32.min. destruct (F32.ltb lo p) eqn:E.
  - apply le32_of_ltb. exact E.
  - apply le32_refl. exact Hp.
Qed.

Lemma max_keeps (p hi x : float) :
  is_nan p = false -> le32 x hi -> le32 x (F32.max p hi).
Proof.
  intros Hp Hle. unfold F32.max. destruct (F32.ltb p hi) eqn:E; [exact Hle|].
  apply le32_trans with hi; [exact Hle|].
  destruct Hle as (_ & Hhi & _). repeat split; assumption.
Qed.

Lemma max_above (p hi : float) :
  is_nan p = false -> is_nan hi = false -> le32 p (F32.max p hi).
Proof.
  intros Hp Hhi. unfold F32.max. destruct (F32.ltb p hi) eqn:E.
  - apply le32_of_ltb. exact E.
  - apply le32_refl. exact Hp.
Qed.

Lemma grow_aabb_keeps (lo hi p x : vec3 float) :
  no_nan p -> inside_box lo hi x ->
  inside_box (fst (grow_aabb (lo, hi) p)) (snd (grow_aabb (lo, hi) p)) x.
Proof.
  intros (Hx & Hy & Hz) ((Lx & Ly & Lz) & (Ux & Uy & Uz)).
  cbn [grow_aabb fst snd].
  split; (split; [|split]); cbn [vx vy vz];
    auto using min_keeps, max_keeps.
Qed.

Lemma grow_aabb_takes (lo hi p : vec3 float) :
  no_nan p -> no_nan lo -> no_nan hi ->
  inside_box (fst (grow_aabb (lo, hi) p)) (snd (grow_aabb (lo, hi) p)) p.
Proof.
  intros (Hx & Hy & Hz) (Lx & Ly & Lz) (Ux & Uy & Uz).
  cbn [grow_aabb fst snd].
  split; (split; [|split]); cbn [vx vy vz];
    auto using min_below, max_above.
Qed.

Lemma inside_box_no_nan (lo hi x : vec3 float) :
  inside_box lo hi x -> no_nan lo /\ no_nan hi.
Proof.
  intros ((Lx & Ly & Lz) & (Ux & Uy & Uz)).
  unfold le32 in *. unfold no_nan. intuition.
Qed.

Lemma fold_grow_keeps (vs : list (vec3 float)) :
  forall lo hi x,
    Forall no_nan vs -> inside_box lo hi x ->
    inside_box (fst (fold_left grow_aabb vs (lo, hi)))
               (snd (fold_left grow_aabb vs (lo, hi))) x.
Proof.
  induction vs as [|p vs IH]; intros lo hi x Hvs Hin; [exact Hin|].
  inversion Hvs as [|? ? Hp Hrest]; subst. cbn [fold_left].
  pose proof (grow_aabb_keeps lo hi p x Hp Hin) as Hstep.
  destruct (grow_aabb (lo, hi) p) as [lo1 hi1]. apply IH; assumption.
Qed.

Lemma fold_grow_takes (vs : list (vec3 float)) :
  forall lo hi,
    Forall no_nan vs -> no_nan lo -> no_nan hi ->
    Forall (inside_box (fst (fold_left grow_aabb vs (lo, hi)))
                       (snd (fold_left grow_aabb vs (lo, hi)))) vs.
Proof.
  induction vs as [|p vs IH]; intros lo hi Hvs Hlo Hhi; [constructor|].
  inversion Hvs as [|? ? Hp Hrest]; subst. cbn [fold_left].
  pose proof (grow_aabb_takes lo hi p Hp Hlo Hhi) as Hstep.
  destruct (grow_aabb (lo, hi) p) as [lo1 hi1]. cbn [fst snd] in Hstep.
  destruct (inside_box_no_nan _ _ _ Hstep) as (Hlo1 & Hhi1).
  constructor.
  - apply fold_grow_keeps; assumption.
  - apply IH; assumption.
Qed.

(** X3: when no vertex coordinate is NaN, the box that
    [generate_bounding_box] stores in the header contains every vertex of
    the asset and the origin of the coordinate system, and the bounding
    box bit is set; the vertices are left as they were. *)
Theorem bounding_box_contains_vertices (hs : HairStyle float) :
  Forall no_nan (vertices hs) ->
  Forall (inside_box
            (bounding_box_min (file_header (generate_bounding_box hs)))
            (bounding_box_max (file_header (generate_bounding_box hs))))
         (vertices hs)
  /\ inside_box (bounding_box_min (file_header (generate_bounding_box hs)))
                (bounding_box_max (file_header (generate_bounding_box hs)))
                V3.zero
  /\ has_bounding_box (generate_bounding_box hs) = true
  /\ vertices (generate_bounding_box hs) = vertices hs.
Proof.
  intros Hvs. unfold generate_bounding_box.
  assert (Hzero : no_nan V3.zero) by (repeat split).
  pose proof (fold_grow_takes (vertices hs) V3.zero V3.zero Hvs Hzero Hzero)
    as Hall.
  assert (Hz : inside_box V3.zero V3.zero V3.zero)
    by (repeat split).
  pose proof (fold_grow_keeps (vertices hs) V3.zero V3.zero V3.zero Hvs Hz)
    as Horigin.
  destruct (fold_left grow_aabb (vertices hs) (V3.zero, V3.zero))
    as [min_aabb max_aabb].
  cbn. auto.
Qed.

Lemma bounding_box_contains_vertices_witness :
  Forall no_nan (vertices positive_cloud)
  /\ Forall (inside_box
               (bounding_box_min
                  (file_header (generate_bounding_box positive_cloud)))
               (bounding_box_max
                  (file_header (generate_bounding_box positive_cloud))))
            (vertices positive_cloud)
  /\ inside_box
       (bounding_box_min (file_header (generate_bounding_box positive_cloud)))
       (bounding_box_max (file_header (generate_bounding_box positive_cloud)))
       V3.zero
  /\ has_bounding_box (generate_bounding_box positive_cloud) = true
  /\ vertices (generate_bounding_box positive_cloud)
     = vertices positive_cloud.
Proof.
  assert (H : Forall no_nan (vertices positive_cloud))
    by (repeat constructor).
  split; [exact H|].
  exact (bounding_box_contains_vertices positive_cloud H).
Defined.

Lemma ltb_nan_r (x : float) : F32.ltb x S754_nan = false.
Proof. destruct x; reflexivity. Qed.

Lemma grow_aabb_nan (lo hi : vec3 float) :
  grow_aabb (lo, hi) nan_vertex = (nan_vertex, nan_vertex).
Proof.
  unfold grow_aabb, nan_vertex, F32.min, F32.max. cbn [vx vy vz].
  rewrite !ltb_nan_r. reflexivity.
Qed.

Lemma grow_aabb_after_nan (v : vec3 float) :
  grow_aabb (nan_vertex, nan_vertex) v = (v, v).
Proof.
  unfold grow_aabb, nan_vertex, F32.min, F32.max. cbn [vx vy vz].
  rewrite !ltb_nan_r. destruct v. reflexivity.
Qed.

(** X4: a vertex whose coordinates are NaN makes [generate_bounding_box]
    forget every vertex before it, and the origin with them: the
    comparisons with NaN fail, so the running extrema become NaN and then
    the next vertex.  The box stored is the result of the same reduction
    started from the vertex that follows: the true extrema of the vertices
    after the NaN vertex. *)
Theorem bounding_box_forgets_before_nan (hs : HairStyle float)
    (before after : list (vec3 float)) (v : vec3 float) :
  vertices hs = before ++ nan_vertex :: v :: after ->
  true_extrema (v :: after)
  = Some (bounding_box_min (file_header (generate_bounding_box hs)),
          bounding_box_max (file_header (generate_bounding_box hs))).
Proof.
  intros Hvs. unfold generate_bounding_box, true_extrema. rewrite Hvs.
  rewrite fold_left_app. cbn [fold_left].
  destruct (fold_left grow_aabb before (V3.zero, V3.zero)) as [lo hi].
  rewrite grow_aabb_nan, grow_aabb_after_nan.
  destruct (fold_left grow_aabb after (v, v)) as [lo' hi']. reflexivity.
Qed.

Lemma bounding_box_forgets_before_nan_witness :
  vertices poisoned_cloud = [point 5 5 5] ++ nan_vertex :: point 1 1 1 :: []
  /\ true_extrema (point 1 1 1 :: [])
     = Some (bounding_box_min
               (file_header (generate_bounding_box poisoned_cloud)),
             bounding_box_max
               (file_header (generate_bounding_box poisoned_cloud))).
Proof.
  split; [reflexivity|].
  exact (bounding_box_forgets_before_nan poisoned_cloud [point 5 5 5] []
           (point 1 1 1) eq_refl).
Defined.

(* ===================================================================== *)
(** * The fused per-vertex buffers *)
(* ===================================================================== *)

Lemma for_loop_collect {A} (entry : nat -> outcome A) (f : nat -> A) (n : nat) :
  forall i acc,
    (forall j, (i <= j < i + n)%nat -> entry j = Done (f j)) ->
    for_loop (fun i acc => e <- entry i ;; Done (acc ++ [e])) i n acc
    = Done (acc ++ map f (seq i n)).
Proof.
  induction n as [|n IH]; intros i acc Hentry.
  - cbn. rewrite app_nil_r. reflexivity.
  - cbn [for_loop]. rewrite Hentry by lia. cbn [obind].
    rewrite IH by (intros j Hj; apply Hentry; lia).
    cbn [seq map]. rewrite <- app_assoc. reflexivity.
Qed.

Lemma for_loop_collect_undefined {A} (entry : nat -> outcome A) (n : nat) :
  forall i acc j,
    (i <= j < i + n)%nat -> entry j = Undefined ->
    for_loop (fun i acc => e <- entry i ;; Done (acc ++ [e])) i n acc
    = Undefined.
Proof.
  induction n as [|n IH]; intros i acc j Hj Hentry; [lia|].
  cbn [for_loop]. destruct (entry i) as [e|] eqn:He; [|reflexivity].
  cbn [obind]. assert (i <> j) by congruence.
  apply (IH (S i) _ j); [lia | exact Hentry].
Qed.

Lemma int_of_unsigned_small (hs : HairStyle float) :
  size (vertices hs) < 2 ^ 31 ->
  Z.to_nat (get_vertex_count hs) = length (vertices hs)
  /\ Z.to_nat (int_of_unsigned (get_vertex_count hs)) = length (vertices hs).
Proof.
  intros Hlt. unfold get_vertex_count, int_of_unsigned, size in *.
  rewrite u32_small by lia.
  replace (Z.of_nat (length (vertices hs)) <? 2 ^ 31) with true
    by (symmetry; apply Z.ltb_lt; lia).
  rewrite Nat2Z.id. auto.
Qed.

Lemma fused_buffer_map (hs : HairStyle float)
    (entry : nat -> outcome (vec4 float)) (f : nat -> vec4 float) :
  size (vertices hs) < 2 ^ 31 ->
  (forall j, (j < length (vertices hs))%nat -> entry j = Done (f j)) ->
  fused_buffer hs entry = Done (map f (seq 0 (length (vertices hs)))).
Proof.
  intros Hlt Hentry. unfold fused_buffer.
  destruct (int_of_unsigned_small hs Hlt) as (-> & ->).
  rewrite (for_loop_collect entry f) by (intros j Hj; apply Hentry; lia).
  cbn [obind app]. rewrite Nat.sub_diag. cbn [repeat].
  rewrite app_nil_r. reflexivity.
Qed.

Lemma fused_buffer_undefined (hs : HairStyle float)
    (entry : nat -> outcome (vec4 float)) (j : nat) :
  size (vertices hs) < 2 ^ 31 ->
  (j < length (vertices hs))%nat -> entry j = Undefined ->
  fused_buffer hs entry = Undefined.
Proof.
  intros Hlt Hj Hentry. unfold fused_buffer.
  destruct (int_of_unsigned_small hs Hlt) as (-> & ->).
  rewrite (for_loop_collect_undefined entry _ 0 [] j) by (auto; lia).
  reflexivity.
Qed.

Lemma element_or_default {A} (a : list A) (n i : nat) (d : A) :
  a = [] \/ length a = n -> (i < n)%nat ->
  (if nonempty a then at_index a i else Done d) = Done (nth i a d).
Proof.
  intros [-> | Hlen] Hi.
  - destruct i; reflexivity.
  - destruct a as [|x a']; [cbn in Hlen; lia|]. cbn [nonempty].
    apply at_index_nth. lia.
Qed.

(** X5: on every asset that passes the structural check and has fewer
    than 2^31 vertices, [create_color_transparency_data] is defined and
    has one entry per vertex: the colour and the transparency of the
    vertex, each replaced by the default of the file header when its array
    is absent. *)
Theorem color_transparency_uses_defaults (hs : HairStyle float) :
  format_is_valid hs = true ->
  size (vertices hs) < 2 ^ 31 ->
  exists buffer,
    create_color_transparency_data hs = Done buffer
    /\ length buffer = length (vertices hs)
    /\ forall i, (i < length (vertices hs))%nat ->
         nth_error buffer i
         = Some (vec4_of (nth i (color hs) (get_default_color hs))
                         (nth i (transparency hs)
                              (get_default_transparency hs))).
Proof.
  intros Hvalid Hlt.
  destruct (format_is_valid_lengths hs Hvalid) as (_ & _ & Htr & Hco).
  set (f := fun i =>
              vec4_of (nth i (color hs) (get_default_color hs))
                      (nth i (transparency hs) (get_default_transparency hs))).
  exists (map f (seq 0 (length (vertices hs)))).
  split; [|split].
  - apply fused_buffer_map; [exact Hlt|].
    intros j Hj. unfold color_transparency_entry, has_transparency, has_color.
    rewrite (element_or_default _ _ j _ Htr Hj). cbn [obind].
    rewrite (element_or_default _ _ j _ Hco Hj). reflexivity.
  - rewrite length_map, length_seq. reflexivity.
  - intros i Hi. rewrite nth_error_map, nth_error_seq.
    replace (i <? length (vertices hs))%nat with true
      by (symmetry; apply Nat.ltb_lt; exact Hi).
    reflexivity.
Qed.

Lemma color_transparency_uses_defaults_witness :
  format_is_valid (four_strands 1) = true
  /\ size (vertices (four_strands 1)) < 2 ^ 31
  /\ exists buffer,
       create_color_transparency_data (four_strands 1) = Done buffer
       /\ length buffer = length (vertices (four_strands 1))
       /\ forall i, (i < length (vertices (four_strands 1)))%nat ->
            nth_error buffer i
            = Some (vec4_of
                      (nth i (color (four_strands 1))
                           (get_default_color (four_strands 1)))
                      (nth i (transparency (four_strands 1))
                           (get_default_transparency (four_strands 1)))).
Proof.
  assert (H1 : format_is_valid (four_strands 1) = true) by reflexivity.
  assert (H2 : size (vertices (four_strands 1)) < 2 ^ 31) by reflexivity.
  split; [exact H1|]. split; [exact H2|].
  exact (color_transparency_uses_defaults (four_strands 1) H1 H2).
Defined.

(** X6: the structural check says nothing about the tangents, and
    [create_tangent_transparency_data] reads one tangent per vertex: on an
    asset with fewer tangents than vertices (none at all, for one) it
    indexes the tangent array past its end. *)
Theorem tangent_transparency_needs_tangents (hs : HairStyle float) :
  size (vertices hs) < 2 ^ 31 ->
  (length (tangents hs) < length (vertices hs))%nat ->
  create_tangent_transparency_data hs = Undefined.
Proof.
  intros Hlt Hshort.
  apply (fused_buffer_undefined hs _ (length (tangents hs)) Hlt Hshort).
  unfold tangent_transparency_entry.
  destruct (if has_transparency hs
            then at_index (transparency hs) (length (tangents hs))
            else Done (get_default_transparency hs)); [|reflexivity].
  cbn [obind]. unfold at_index.
  replace (nth_error (tangents hs) (length (tangents hs)))
    with (@None (vec3 float))
    by (symmetry; apply nth_error_None; lia).
  reflexivity.
Qed.

Lemma tangent_transparency_needs_tangents_witness :
  size (vertices (four_strands 1)) < 2 ^ 31
  /\ (length (tangents (four_strands 1))
      < length (vertices (four_strands 1)))%nat
  /\ create_tangent_transparency_data (four_strands 1) = Undefined.
Proof.
  assert (H1 : size (vertices (four_strands 1)) < 2 ^ 31) by reflexivity.
  assert (H2 : (length (tangents (four_strands 1))
                < length (vertices (four_strands 1)))%nat)
    by (cbn; lia).
  split; [exact H1|]. split; [exact H2|].
  exact (tangent_transparency_needs_tangents (four_strands 1) H1 H2).
Defined.

(** X7: [generate_tangents] leaves what
    [create_tangent_transparency_data] needs.  On an asset that satisfies
    the invariants of the data model and whose first strand has a segment,
    generating the tangents and then building the buffer is defined, and
    entry [i] of the buffer is the tangent of vertex [i] with the
    transparency of the vertex, or the default of the header when the
    asset has no transparency array. *)
Theorem tangent_transparency_after_generate_tangents (hs : HairStyle float) :
  well_formed hs ->
  first_strand_has_segment hs ->
  exists hs' buffer,
    generate_tangents hs = Done hs'
    /\ create_tangent_transparency_data hs' = Done buffer
    /\ length buffer = length (vertices hs)
    /\ forall i, (i < length (vertices hs))%nat ->
         nth_error buffer i
         = Some (vec4_of (nth i (tangents hs') V3.zero)
                         (nth i (transparency hs)
                              (get_default_transparency hs))).
Proof.
  intros Hwf Hfirst.
  destruct (generate_tangents_rule hs Hwf Hfirst) as (ts & Hgen & Hlen & _).
  destruct Hwf as (_ & _ & _ & _ & Hv & _ & _ & Atr & _).
  set (hs' := set_tangents hs ts).
  set (f := fun i =>
              vec4_of (nth i ts V3.zero)
                      (nth i (transparency hs) (get_default_transparency hs))).
  exists hs', (map f (seq 0 (length (vertices hs)))).
  split; [exact Hgen|]. split; [|split].
  - apply (fused_buffer_map hs'); [exact Hv|].
    intros j Hj. unfold tangent_transparency_entry, has_transparency.
    cbn [hs' set_tangents transparency tangents vertices] in *.
    change (get_default_transparency (set_tangents hs ts))
      with (get_default_transparency hs).
    rewrite (element_or_default _ _ j _ Atr Hj). cbn [obind].
    rewrite (at_index_nth ts j V3.zero) by lia. reflexivity.
  - rewrite length_map, length_seq. reflexivity.
  - intros i Hi. rewrite nth_error_map, nth_error_seq.
    replace (i <? length (vertices hs))%nat with true
      by (symmetry; apply Nat.ltb_lt; exact Hi).
    reflexivity.
Qed.

Lemma bent_strand_well_formed : well_formed bent_strand.
Proof. well_formed_sample. Qed.

Lemma tangent_transparency_after_generate_tangents_witness :
  well_formed bent_strand
  /\ first_strand_has_segment bent_strand
  /\ exists hs' buffer,
       generate_tangents bent_strand = Done hs'
       /\ create_tangent_transparency_data hs' = Done buffer
       /\ length buffer = length (vertices bent_strand)
       /\ forall i, (i < length (vertices bent_strand))%nat ->
            nth_error buffer i
            = Some (vec4_of (nth i (tangents hs') V3.zero)
                            (nth i (transparency bent_strand)
                                 (get_default_transparency bent_strand))).
Proof.
  assert (H : first_strand_has_segment bent_strand) by (cbn; lia).
  split; [exact bent_strand_well_formed|]. split; [exact H|].
  exact (tangent_transparency_after_generate_tangents bent_strand
           bent_strand_well_formed H).
Defined.

(* ===================================================================== *)
(** * What [save] accepts and what [load] leaves behind *)
(* ===================================================================== *)



Lemma firstn_app_exact {A} (a r : list A) (n : nat) :
  length a = n -> firstn n (a ++ r) = a.
Proof.
  intros Hlen. pose proof (split_at_app a r n Hlen) as H.
  unfold split_at in H. injection H as H _. exact H.
Qed.

Section SaveLoad.
Context {F : Type} (cF : Codec F) (information_size : nat).


Hypothesis HcF : lawful cF.

Lemma write_section_length {T} (c : Codec T) (v : list T) :
  lawful c ->
  length (write_section c (nonempty v) v) = (length v * width c)%nat.
Proof.
  intros Hc. destruct v as [|x v]; [reflexivity|].
  cbn [nonempty write_section]. apply write_field_length. exact Hc.
Qed.

Lemma save_length (hs saved : HairStyle F) (bytes : list byte) :
  save cF information_size hs = (saved, Some bytes) ->
  length bytes
  = (header_size cF information_size
     + length (segments hs) * 2
     + length (vertices hs) * (3 * width cF)
     + length (thickness hs) * width cF
     + length (transparency hs) * width cF
     + length (color hs) * (3 * width cF)
     + length (tangents hs) * (3 * width cF)
     + length (indices hs) * 4)%nat.
Proof.
  unfold save.
  destruct (format_is_valid (complete_header hs)); [|discriminate].
  cbn [negb]. intros H. injection H as _ <-.
  pose proof (vec3_codec_lawful cF HcF) as HcV.
  assert (Hlen :
    length
      (encode_header cF information_size (file_header (complete_header hs))
       ++ write_section u16_codec (nonempty (segments hs)) (segments hs)
       ++ write_section (vec3_codec cF) (nonempty (vertices hs)) (vertices hs)
       ++ write_section cF (nonempty (thickness hs)) (thickness hs)
       ++ write_section cF (nonempty (transparency hs)) (transparency hs)
       ++ write_section (vec3_codec cF) (nonempty (color hs)) (color hs)
       ++ write_section (vec3_codec cF) (nonempty (tangents hs)) (tangents hs)
       ++ write_section u32_codec (nonempty (indices hs)) (indices hs))
    = (header_size cF information_size
       + length (segments hs) * 2
       + length (vertices hs) * (3 * width cF)
       + length (thickness hs) * width cF
       + length (transparency hs) * width cF
       + length (color hs) * (3 * width cF)
       + length (tangents hs) * (3 * width cF)
       + length (indices hs) * 4)%nat).
  { rewrite !length_app, (encode_header_length cF information_size HcF).
    rewrite !write_section_length
      by (assumption || apply unsigned_codec_lawful).
    cbn [width u16_codec u32_codec unsigned_codec vec3_codec]. lia. }
  exact Hlen.
Qed.

Lemma save_header_prefix (hs saved : HairStyle F) (bytes : list byte) :
  save cF information_size hs = (saved, Some bytes) ->
  firstn (header_size cF information_size) bytes
  = encode_header cF information_size (file_header (complete_header hs)).
Proof.
  unfold save.
  destruct (format_is_valid (complete_header hs)); [|discriminate].
  cbn [negb]. intros H. injection H as _ <-.
  exact (firstn_app_exact
           (encode_header cF information_size
              (file_header (complete_header hs))) _ _
           (encode_header_length cF information_size HcF _)).
Qed.

End SaveLoad.


(* ===================================================================== *)
(** * The shape of a loaded asset *)
(* ===================================================================== *)

Lemma decode_elements_length {T} (c : Codec T) (n : nat) :
  forall bytes, length (decode_elements c n bytes) = n.
Proof.
  induction n as [|n IH]; intros bytes; [reflexivity|].
  cbn [decode_elements length]. rewrite IH. reflexivity.
Qed.

Lemma read_section_shape {T} (c : Codec T) (present : bool) (n : Z)
    (old v : list T) (file rest : list byte) :
  read_section c present n old file = Some (v, rest) ->
  section_shape present (Z.to_nat n) old v
  /\ (length file
      = (if present then Z.to_nat n * width c else 0) + length rest)%nat.
Proof.
  unfold read_section, read_field, section_shape. destruct present.
  - destruct (Nat.leb_spec (Z.to_nat n * width c) (length file))
      as [Hle | Hgt]; [|discriminate].
    intros H. injection H as <- <-.
    rewrite decode_elements_length, length_skipn. split; [reflexivity | lia].
  - intros H. injection H as <- <-. split; reflexivity.
Qed.

Section LoadShape.
Context {F : Type} (cF : Codec F) (information_size : nat).

(** What a successful [load] went through: the header that was decoded,
    and the arrays, each resized and read or left alone. *)
Lemma load_inversion (bytes : list byte) (hs0 loaded : HairStyle F) :
  load cF information_size (Some bytes) hs0 = inr loaded ->
  let h := decode_header cF information_size
             (firstn (header_size cF information_size) bytes) in
  let b := field h in
  exists se ve th tr co ta ix,
    loaded = set_error_state
               (with_arrays (set_file_header hs0 h) se ve th tr co ta ix)
               ErrNone
    /\ (header_size cF information_size <= length bytes)%nat
    /\ valid_signature (set_file_header hs0 h) = true
    /\ format_is_valid loaded = true
    /\ section_shape (has_segments_bit b) (Z.to_nat (strand_count h))
         (segments hs0) se
    /\ section_shape (has_vertices_bit b) (Z.to_nat (vertex_count h))
         (vertices hs0) ve
    /\ section_shape (has_thickness_bit b) (Z.to_nat (vertex_count h))
         (thickness hs0) th
    /\ section_shape (has_transparency_bit b) (Z.to_nat (vertex_count h))
         (transparency hs0) tr
    /\ section_shape (has_color_bit b) (Z.to_nat (vertex_count h))
         (color hs0) co
    /\ section_shape (has_tangents_bit b) (Z.to_nat (vertex_count h))
         (tangents hs0) ta
    /\ section_shape (has_indices_bit b)
         (Z.to_nat (u32 (get_segment_count loaded * 2)))
         (indices hs0) ix
    /\ (header_size cF information_size
        + (if has_segments_bit b then length se * 2 else 0)
        + (if has_vertices_bit b then length ve * (3 * width cF) else 0)
        + (if has_thickness_bit b then length th * width cF else 0)
        + (if has_transparency_bit b then length tr * width cF else 0)
        + (if has_color_bit b then length co * (3 * width cF) else 0)
        + (if has_tangents_bit b then length ta * (3 * width cF) else 0)
        + (if has_indices_bit b then length ix * 4 else 0)
        <= length bytes)%nat.
Proof.
  cbv zeta. unfold load.
  destruct (Nat.leb_spec (header_size cF information_size) (length bytes))
    as [Hhdr|]; [|discriminate].
  cbn [negb split_at].
  set (h := decode_header cF information_size
              (firstn (header_size cF information_size) bytes)).
  set (file := skipn (header_size cF information_size) bytes).
  cbn [set_file_header file_header segments vertices thickness transparency
       color tangents indices].
  destruct (valid_signature (set_file_header hs0 h)) eqn:Hsig;
    [|discriminate].
  cbn [negb].
  destruct (read_section u16_codec _ _ (segments hs0) file)
    as [[se f1]|] eqn:R1; [|discriminate].
  destruct (read_section (vec3_codec cF) _ _ (vertices hs0) f1)
    as [[ve f2]|] eqn:R2; [|discriminate].
  destruct (read_section cF _ _ (thickness hs0) f2)
    as [[th f3]|] eqn:R3; [|discriminate].
  destruct (read_section cF _ _ (transparency hs0) f3)
    as [[tr f4]|] eqn:R4; [|discriminate].
  destruct (read_section (vec3_codec cF) _ _ (color hs0) f4)
    as [[co f5]|] eqn:R5; [|discriminate].
  destruct (read_section (vec3_codec cF) _ _ (tangents hs0) f5)
    as [[ta f6]|] eqn:R6; [|discriminate].
  destruct (read_section u32_codec _ _ (indices hs0) f6)
    as [[ix f7]|] eqn:R7; [|discriminate].
  destruct (format_is_valid _) eqn:Hvalid; [|discriminate].
  intros H. injection H as <-.
  apply read_section_shape in R1, R2, R3, R4, R5, R6, R7.
  destruct R1 as (S1 & L1), R2 as (S2 & L2), R3 as (S3 & L3),
    R4 as (S4 & L4), R5 as (S5 & L5), R6 as (S6 & L6), R7 as (S7 & L7).
  assert (Hfile : length bytes
                  = (header_size cF information_size + length file)%nat).
  { unfold file. rewrite length_skipn. lia. }
  exists se, ve, th, tr, co, ta, ix.
  split; [reflexivity|]. split; [exact Hhdr|].
  split; [first [exact Hsig | reflexivity]|].
  split; [first [exact Hvalid | reflexivity]|].
  split; [exact S1|]. split; [exact S2|]. split; [exact S3|].
  split; [exact S4|]. split; [exact S5|]. split; [exact S6|].
  split; [exact S7|].
  cbn [width u16_codec u32_codec unsigned_codec vec3_codec] in *.
  unfold section_shape in *.
  destruct (has_segments_bit (field h)), (has_vertices_bit (field h)),
    (has_thickness_bit (field h)), (has_transparency_bit (field h)),
    (has_color_bit (field h)), (has_tangents_bit (field h)),
    (has_indices_bit (field h));
    repeat match goal with
           | H : length ?v = _ |- _ => rewrite H; clear H
           end; lia.
Qed.

(** X10: after a successful [load], every section whose bit is set in the
    header of the file has been resized to the count of the header
    (strands for the segments, vertices for the per-vertex arrays, twice
    the segment count for the indices), and every array whose bit is clear
    is the array the object held before the call: [load] does not clear
    it.  The asset passes the structural check and its error state is
    [None]. *)
Theorem load_sizes_present_keeps_absent (bytes : list byte)
    (before loaded : HairStyle F) :
  load cF information_size (Some bytes) before = inr loaded ->
  file_header loaded
  = decode_header cF information_size
      (firstn (header_size cF information_size) bytes)
  /\ error_state loaded = ErrNone
  /\ format_is_valid loaded = true
  /\ section_shape (has_segments_bit (field (file_header loaded)))
       (Z.to_nat (strand_count (file_header loaded)))
       (segments before) (segments loaded)
  /\ section_shape (has_vertices_bit (field (file_header loaded)))
       (Z.to_nat (vertex_count (file_header loaded)))
       (vertices before) (vertices loaded)
  /\ section_shape (has_thickness_bit (field (file_header loaded)))
       (Z.to_nat (vertex_count (file_header loaded)))
       (thickness before) (thickness loaded)
  /\ section_shape (has_transparency_bit (field (file_header loaded)))
       (Z.to_nat (vertex_count (file_header loaded)))
       (transparency before) (transparency loaded)
  /\ section_shape (has_color_bit (field (file_header loaded)))
       (Z.to_nat (vertex_count (file_header loaded)))
       (color before) (color loaded)
  /\ section_shape (has_tangents_bit (field (file_header loaded)))
       (Z.to_nat (vertex_count (file_header loaded)))
       (tangents before) (tangents loaded)
  /\ section_shape (has_indices_bit (field (file_header loaded)))
       (Z.to_nat (u32 (get_segment_count loaded * 2)))
       (indices before) (indices loaded).
Proof.
  intros Hload. apply load_inversion in Hload. cbv zeta in Hload.
  destruct Hload as (se & ve & th & tr & co & ta & ix & Heq & _ & _ & Hvalid
                     & S1 & S2 & S3 & S4 & S5 & S6 & S7 & _).
  rewrite Heq in *.
  cbn [set_error_state with_arrays set_file_header file_header segments
       vertices thickness transparency color tangents indices error_state]
    in *.
  repeat split; assumption.
Qed.
End LoadShape.

Lemma load_sizes_present_keeps_absent_witness :
  load raw_codec 64 (Some full_asset_file) empty_asset = inr full_asset_loaded
  /\ file_header full_asset_loaded
     = decode_header raw_codec 64
         (firstn (header_size raw_codec 64) full_asset_file)
  /\ error_state full_asset_loaded = ErrNone
  /\ format_is_valid full_asset_loaded = true
  /\ section_shape (has_segments_bit (field (file_header full_asset_loaded)))
       (Z.to_nat (strand_count (file_header full_asset_loaded)))
       (segments empty_asset) (segments full_asset_loaded)
  /\ section_shape (has_vertices_bit (field (file_header full_asset_loaded)))
       (Z.to_nat (vertex_count (file_header full_asset_loaded)))
       (vertices empty_asset) (vertices full_asset_loaded)
  /\ section_shape
       (has_thickness_bit (field (file_header full_asset_loaded)))
       (Z.to_nat (vertex_count (file_header full_asset_loaded)))
       (thickness empty_asset) (thickness full_asset_loaded)
  /\ section_shape
       (has_transparency_bit (field (file_header full_asset_loaded)))
       (Z.to_nat (vertex_count (file_header full_asset_loaded)))
       (transparency empty_asset) (transparency full_asset_loaded)
  /\ section_shape (has_color_bit (field (file_header full_asset_loaded)))
       (Z.to_nat (vertex_count (file_header full_asset_loaded)))
       (color empty_asset) (color full_asset_loaded)
  /\ section_shape (has_tangents_bit (field (file_header full_asset_loaded)))
       (Z.to_nat (vertex_count (file_header full_asset_loaded)))
       (tangents empty_asset) (tangents full_asset_loaded)
  /\ section_shape (has_indices_bit (field (file_header full_asset_loaded)))
       (Z.to_nat (u32 (get_segment_count full_asset_loaded * 2)))
       (indices empty_asset) (indices full_asset_loaded).
Proof.
  assert (H : load raw_codec 64 (Some full_asset_file) empty_asset
              = inr full_asset_loaded) by reflexivity.
  split; [exact H|].
  exact (load_sizes_present_keeps_absent raw_codec 64 full_asset_file
           empty_asset full_asset_loaded H).
Defined.

(* ===================================================================== *)
(** * Bytes after the last section *)
(* ===================================================================== *)

Lemma decode_elements_app {T} (c : Codec T) (n : nat) :
  forall file extra,
    (n * width c <= length file)%nat ->
    decode_elements c n (file ++ extra) = decode_elements c n file.
Proof.
  induction n as [|n IH]; intros file extra Hlen; [reflexivity|].
  cbn [decode_elements].
  rewrite firstn_app, skipn_app.
  replace (width c - length file)%nat with O by lia.
  cbn [firstn skipn]. rewrite app_nil_r.
  rewrite IH by (rewrite length_skipn; lia). reflexivity.
Qed.

Lemma read_section_app {T} (c : Codec T) (present : bool) (n : Z)
    (old v : list T) (file rest extra : list byte) :
  read_section c present n old file = Some (v, rest) ->
  read_section c present n old (file ++ extra) = Some (v, rest ++ extra).
Proof.
  unfold read_section, read_field. destruct present.
  - destruct (Nat.leb_spec (Z.to_nat n * width c) (length file))
      as [Hle | Hgt]; [|discriminate].
    intros H. injection H as <- <-.
    replace (Z.to_nat n * width c <=? length (file ++ extra))%nat with true
      by (symmetry; apply Nat.leb_le; rewrite length_app; lia).
    rewrite decode_elements_app by exact Hle.
    rewrite skipn_app.
    replace (Z.to_nat n * width c - length file)%nat with O by lia.
    reflexivity.
  - intros H. injection H as <- <-. reflexivity.
Qed.

Section Trailing.
Context {F : Type} (cF : Codec F) (information_size : nat).

(** X11: [load] reads the header and the sections the header announces and
    nothing more: a file that loads still loads, into the same asset, when
    any bytes are appended to it. *)
Theorem load_ignores_trailing_bytes (bytes extra : list byte)
    (before loaded : HairStyle F) :
  load cF information_size (Some bytes) before = inr loaded ->
  load cF information_size (Some (bytes ++ extra)) before = inr loaded.
Proof.
  unfold load.
  destruct (Nat.leb_spec (header_size cF information_size) (length bytes))
    as [Hhdr|]; [|discriminate].
  replace (header_size cF information_size <=? length (bytes ++ extra))%nat
    with true by (symmetry; apply Nat.leb_le; rewrite length_app; lia).
  cbn [negb split_at].
  rewrite firstn_app, skipn_app.
  replace (header_size cF information_size - length bytes)%nat with O by lia.
  cbn [firstn skipn]. rewrite app_nil_r.
  set (h := decode_header cF information_size
              (firstn (header_size cF information_size) bytes)).
  set (file := skipn (header_size cF information_size) bytes).
  cbn [set_file_header file_header segments vertices thickness transparency
       color tangents indices].
  destruct (valid_signature (set_file_header before h)); [|discriminate].
  cbn [negb].
  destruct (read_section u16_codec _ _ (segments before) file)
    as [[se f1]|] eqn:R1; [|discriminate].
  rewrite (read_section_app _ _ _ _ _ _ _ extra R1).
  destruct (read_section (vec3_codec cF) _ _ (vertices before) f1)
    as [[ve f2]|] eqn:R2; [|discriminate].
  rewrite (read_section_app _ _ _ _ _ _ _ extra R2).
  destruct (read_section cF _ _ (thickness before) f2)
    as [[th f3]|] eqn:R3; [|discriminate].
  rewrite (read_section_app _ _ _ _ _ _ _ extra R3).
  destruct (read_section cF _ _ (transparency before) f3)
    as [[tr f4]|] eqn:R4; [|discriminate].
  rewrite (read_section_app _ _ _ _ _ _ _ extra R4).
  destruct (read_section (vec3_codec cF) _ _ (color before) f4)
    as [[co f5]|] eqn:R5; [|discriminate].
  rewrite (read_section_app _ _ _ _ _ _ _ extra R5).
  destruct (read_section (vec3_codec cF) _ _ (tangents before) f5)
    as [[ta f6]|] eqn:R6; [|discriminate].
  rewrite (read_section_app _ _ _ _ _ _ _ extra R6).
  destruct (read_section u32_codec _ _ (indices before) f6)
    as [[ix f7]|] eqn:R7; [|discriminate].
  rewrite (read_section_app _ _ _ _ _ _ _ extra R7).
  intros H. exact H.
Qed.
End Trailing.

Lemma load_ignores_trailing_bytes_witness :
  load raw_codec 64 (Some full_asset_file) empty_asset = inr full_asset_loaded
  /\ load raw_codec 64 (Some (full_asset_file ++ [Byte.xff; Byte.xff]))
       empty_asset
     = inr full_asset_loaded.
Proof.
  assert (H : load raw_codec 64 (Some full_asset_file) empty_asset
              = inr full_asset_loaded) by reflexivity.
  split; [exact H|].
  exact (load_ignores_trailing_bytes raw_codec 64 full_asset_file
           [Byte.xff; Byte.xff] empty_asset full_asset_loaded H).
Defined.

(* ===================================================================== *)
(** * Truncated files *)
(* ===================================================================== *)

Lemma nonempty_length {A} (v : list A) (k : nat) :
  ((if nonempty v then length v * k else 0) = length v * k)%nat.
Proof. destruct v; reflexivity. Qed.

Lemma shape_from_fresh {T} (v new : list T) (n : nat) :
  section_shape (nonempty v) n [] new ->
  (v <> [] -> n = length v) ->
  length new = length v /\ nonempty new = nonempty v.
Proof.
  unfold section_shape. destruct v as [|x v]; cbn [nonempty].
  - intros -> _. split; reflexivity.
  - intros Hlen Hn. rewrite Hn in Hlen by discriminate.
    split; [exact Hlen|]. destruct new; [discriminate | reflexivity].
Qed.

Section Truncation.
Context {F : Type} (cF : Codec F) (information_size : nat).
Hypothesis HcF : lawful cF.

(** X12: no proper prefix of a file written by [save] is accepted by
    [load]: a truncated file is always reported as an error.  The asset is
    one that [save] and [load] agree on: its values fit the fields of the
    file, its tangents are absent or one per vertex and its indices absent
    or two per segment; the file is loaded into a freshly constructed
    object. *)
Theorem load_rejects_truncated_file (asset saved fresh : HairStyle F)
    (bytes : list byte) (n : nat) :
  storable cF information_size asset ->
  aligned (tangents asset) (vertices asset) ->
  indices_sized asset ->
  default_constructed fresh ->
  save cF information_size asset = (saved, Some bytes) ->
  (n < length bytes)%nat ->
  exists e, load cF information_size (Some (firstn n bytes)) fresh = inl e.
Proof.
  intros Hst Hta Hix Hfresh Hsave Hn.
  destruct (load cF information_size (Some (firstn n bytes)) fresh)
    as [e | loaded] eqn:Hload; [exists e; reflexivity|].
  exfalso.
  pose proof (save_length cF information_size HcF _ _ _ Hsave) as Hlen.
  pose proof (save_header_prefix cF information_size HcF _ _ _ Hsave)
    as Hprefix.
  assert (Hvalid : format_is_valid (complete_header asset) = true).
  { unfold save in Hsave.
    destruct (format_is_valid (complete_header asset));
      [reflexivity | discriminate]. }
  pose proof (format_is_valid_lengths _ Hvalid) as (Hne & Ath & Atr & Aco).
  cbn [complete_header set_file_header vertices thickness transparency color]
    in Hne, Ath, Atr, Aco.
  destruct Hst as (Hsegs & Hverts & Hsc & Hds & Hinfo & Rth & Rtr & Rco & Rlo
                   & Rhi & _).
  destruct Hfresh as (E1 & E2 & E3 & E4 & E5 & E6 & E7).
  apply load_inversion in Hload. cbv zeta in Hload.
  destruct Hload as (se & ve & th & tr & co & ta & ix & Heq & Hhdr & _ & _
                     & S1 & S2 & S3 & S4 & S5 & S6 & S7 & Hsum).
  rewrite length_firstn in Hhdr, Hsum.
  rewrite firstn_firstn in *.
  replace (Nat.min (header_size cF information_size) n)
    with (header_size cF information_size) in * by lia.
  rewrite Hprefix in *.
  set (h := file_header (complete_header asset)) in *.
  assert (Hgsc : 0 <= get_strand_count asset < 2 ^ 32).
  { unfold get_strand_count. destruct (has_segments asset);
      [apply u32_range | exact Hsc]. }
  assert (Hdec : decode_header cF information_size
                   (encode_header cF information_size h) = h).
  { apply decode_encode_header; try assumption; try reflexivity.
    apply u32_range. }
  rewrite Hdec in *.
  change (field h) with (update_bitfield asset) in *.
  change (strand_count h) with (get_strand_count asset) in *.
  change (vertex_count h) with (get_vertex_count asset) in *.
  cbn [update_bitfield has_segments_bit has_vertices_bit has_thickness_bit
       has_transparency_bit has_color_bit has_tangents_bit has_indices_bit]
    in *.
  unfold has_segments, has_vertices, has_thickness, has_transparency,
    has_color, has_tangents, has_indices in S1, S2, S3, S4, S5, S6, S7, Hsum.
  rewrite E1 in S1. rewrite E2 in S2. rewrite E3 in S3. rewrite E4 in S4.
  rewrite E5 in S5. rewrite E6 in S6. rewrite E7 in S7.
  assert (Hnv : Z.to_nat (get_vertex_count asset) = length (vertices asset)).
  { unfold get_vertex_count. rewrite u32_small by (unfold size in *; lia).
    apply to_nat_size. }
  apply shape_from_fresh in S1.
  2:{ intros Hs. unfold get_strand_count, has_segments.
      destruct (segments asset); [contradiction|]. cbn [nonempty].
      rewrite u32_small by (unfold size in *; lia). apply to_nat_size. }
  apply shape_from_fresh in S2; [|intros _; exact Hnv].
  apply shape_from_fresh in S3;
    [|intros Hs; rewrite Hnv; symmetry; apply aligned_length; assumption].
  apply shape_from_fresh in S4;
    [|intros Hs; rewrite Hnv; symmetry; apply aligned_length; assumption].
  apply shape_from_fresh in S5;
    [|intros Hs; rewrite Hnv; symmetry; apply aligned_length; assumption].
  apply shape_from_fresh in S6;
    [|intros Hs; rewrite Hnv; symmetry; apply aligned_length; assumption].
  destruct S1 as (L1 & N1), S2 as (L2 & N2), S3 as (L3 & _), S4 as (L4 & _),
    S5 as (L5 & _), S6 as (L6 & _).
  assert (Hgs : get_segment_count loaded = get_segment_count asset).
  { rewrite Heq. unfold get_segment_count, get_vertex_count, get_strand_count,
      has_segments, size.
    cbn [set_error_state with_arrays set_file_header file_header segments
         vertices].
    rewrite L1, L2, N1.
    destruct (nonempty (segments asset)) eqn:E; [reflexivity|].
    subst h. cbn [complete_header set_file_header file_header strand_count].
    unfold get_strand_count, has_segments. rewrite E. reflexivity. }
  rewrite Hgs in S7.
  apply shape_from_fresh in S7.
  2:{ intros Hs. destruct Hix as [Hix | Hix]; [contradiction|].
      rewrite <- Hix. apply to_nat_size. }
  destruct S7 as (L7 & _).
  rewrite L1, L2, L3, L4, L5, L6, L7 in Hsum.
  rewrite !nonempty_length in Hsum. lia.
Qed.
End Truncation.

Lemma load_rejects_truncated_file_witness :
  lawful raw_codec
  /\ storable raw_codec 64 full_asset
  /\ aligned (tangents full_asset) (vertices full_asset)
  /\ indices_sized full_asset
  /\ default_constructed empty_asset
  /\ save raw_codec 64 full_asset = (full_asset_saved, Some full_asset_file)
  /\ (200 < length full_asset_file)%nat
  /\ exists e,
       load raw_codec 64 (Some (firstn 200 full_asset_file)) empty_asset
       = inl e.
Proof.
  assert (H1 : storable raw_codec 64 full_asset) by exact full_asset_storable.
  assert (H2 : aligned (tangents full_asset) (vertices full_asset))
    by (right; reflexivity).
  assert (H3 : indices_sized full_asset) by (right; reflexivity).
  assert (H4 : default_constructed empty_asset)
    by (repeat split; reflexivity).
  assert (H5 : save raw_codec 64 full_asset
               = (full_asset_saved, Some full_asset_file)) by reflexivity.
  assert (H6 : (200 < length full_asset_file)%nat)
    by (apply Nat.ltb_lt; vm_compute; reflexivity).
  split; [exact raw_codec_lawful|]. split; [exact H1|]. split; [exact H2|].
  split; [exact H3|]. split; [exact H4|]. split; [exact H5|].
  split; [exact H6|].
  exact (load_rejects_truncated_file raw_codec 64 raw_codec_lawful full_asset
           full_asset_saved empty_asset full_asset_file 200
           H1 H2 H3 H4 H5 H6).
Defined.

(* ===================================================================== *)
(** * The first checks of [load] *)
(* ===================================================================== *)

Section LoadErrors.
Context {F : Type} (cF : Codec F) (information_size : nat).

Lemma decode_header_signature (b : list byte) :
  signature (decode_header cF information_size b)
  = (nth 0 b Byte.x00, nth 1 b Byte.x00, nth 2 b Byte.x00, nth 3 b Byte.x00).
Proof.
  unfold decode_header, split_at. cbn [signature].
  destruct b as [|b0 [|b1 [|b2 [|b3 b]]]]; reflexivity.
Qed.

Lemma byte_eqb_true (a b : byte) : Byte.eqb a b = true -> a = b.
Proof. intros H. apply Byte.byte_dec_bl. exact H. Qed.

(** X24: [load] reports the first thing that goes wrong.  A file that
    cannot be opened gives [OpeningFile]; a file shorter than the header
    gives [ReadingFileHeader]; a file with a whole header whose first four
    bytes are not the letters HAIR gives [InvalidSignature], whatever
    follows them and whatever the object held. *)
Theorem load_reports_first_failure (bytes : list byte) (hs : HairStyle F) :
  load cF information_size None hs = inl OpeningFile
  /\ ((length bytes < header_size cF information_size)%nat ->
      load cF information_size (Some bytes) hs = inl ReadingFileHeader)
  /\ ((header_size cF information_size <= length bytes)%nat ->
      firstn 4 bytes <> [Byte.x48; Byte.x41; Byte.x49; Byte.x52] ->
      load cF information_size (Some bytes) hs = inl InvalidSignature).
Proof.
  split; [reflexivity|]. split.
  - intros Hshort. unfold load.
    destruct (Nat.leb_spec (header_size cF information_size) (length bytes));
      [lia | reflexivity].
  - intros Hlong Hsig. unfold load.
    destruct (Nat.leb_spec (header_size cF information_size) (length bytes))
      as [_ | Hlt]; [|lia].
    cbn [negb split_at].
    destruct (valid_signature _) eqn:Hvalid; [|reflexivity].
    exfalso. apply Hsig.
    unfold valid_signature in Hvalid.
    cbn [set_file_header file_header] in Hvalid.
    rewrite decode_header_signature in Hvalid.
    assert (Hfour : (4 <= length bytes)%nat)
      by (unfold header_size in Hlong; lia).
    destruct bytes as [|b0 [|b1 [|b2 [|b3 rest]]]];
      try (cbn [length] in Hfour; lia).
    assert (Hh : (4 <= header_size cF information_size)%nat)
      by (unfold header_size; lia).
    destruct (header_size cF information_size) as [|[|[|[|n]]]]; try lia.
    cbn [firstn nth] in Hvalid |- *.
    apply andb_prop in Hvalid. destruct Hvalid as (Hvalid & H3).
    apply andb_prop in Hvalid. destruct Hvalid as (Hvalid & H2).
    apply andb_prop in Hvalid. destruct Hvalid as (H0 & H1).
    apply byte_eqb_true in H0, H1, H2, H3. subst. reflexivity.
Qed.
End LoadErrors.

(* ===================================================================== *)
(** * The information text *)
(* ===================================================================== *)

Lemma firstn_repeat_min {A} (a : A) (m k : nat) :
  firstn m (repeat a k) = repeat a (Nat.min m k).
Proof.
  revert k. induction m as [|m IH]; intros [|k]; try reflexivity.
  cbn [firstn repeat Nat.min]. rewrite IH. reflexivity.
Qed.

Lemma skipn_repeat_sub {A} (a : A) (m k : nat) :
  skipn m (repeat a k) = repeat a (k - m).
Proof.
  revert k. induction m as [|m IH]; intros [|k]; try reflexivity.
  cbn [skipn repeat Nat.sub]. apply IH.
Qed.

Lemma c_str_length (s : list byte) : (length (c_str s) <= length s)%nat.
Proof.
  induction s as [|b s IH]; [reflexivity|]. cbn [c_str].
  destruct (Byte.eqb b Byte.x00); cbn [length]; lia.
Qed.

Lemma c_str_no_null (s : list byte) : ~ In Byte.x00 (c_str s).
Proof.
  induction s as [|b s IH]; [intros []|]. cbn [c_str].
  destruct (Byte.eqb b Byte.x00) eqn:E; [intros []|].
  intros [-> | Hin]; [discriminate | exact (IH Hin)].
Qed.

Lemma c_str_full (s : list byte) :
  length (c_str s) = length s -> c_str s = s.
Proof.
  induction s as [|b s IH]; [reflexivity|]. cbn [c_str].
  destruct (Byte.eqb b Byte.x00).
  - discriminate.
  - cbn [length]. intros H. rewrite IH by lia. reflexivity.
Qed.

(** Reading back characters that contain no null: all of them when a
    null follows, and all of them when nothing follows. *)
Lemma c_str_terminated (c rest : list byte) :
  ~ In Byte.x00 c -> c_str (c ++ Byte.x00 :: rest) = c.
Proof.
  induction c as [|b c IH]; intros Hno; [reflexivity|].
  cbn [app c_str].
  destruct (Byte.eqb b Byte.x00) eqn:E.
  - exfalso. apply Hno. left. destruct b; try discriminate. reflexivity.
  - rewrite IH; [reflexivity|]. intros Hin. apply Hno. right. exact Hin.
Qed.

Lemma c_str_unterminated (c : list byte) :
  ~ In Byte.x00 c -> c_str c = c.
Proof.
  induction c as [|b c IH]; intros Hno; [reflexivity|]. cbn [c_str].
  destruct (Byte.eqb b Byte.x00) eqn:E.
  - exfalso. apply Hno. left. destruct b; try discriminate. reflexivity.
  - rewrite IH; [reflexivity|]. intros Hin. apply Hno. right. exact Hin.
Qed.

Lemma strncpy_cleared (text : list byte) (info_size : nat) :
  strncpy (repeat Byte.x00 info_size) text
    (Nat.min info_size (length text))
  = firstn info_size (c_str text ++ repeat Byte.x00 info_size).
Proof.
  unfold strncpy. pose proof (c_str_length text) as Hc.
  set (c := c_str text) in *. set (k := Nat.min info_size (length text)).
  rewrite skipn_repeat_sub, !firstn_app, !firstn_repeat_min.
  destruct (Nat.le_gt_cases k (length c)) as [Hge | Hlt].
  - replace (k - length c)%nat with O by lia. cbn [Nat.min repeat].
    rewrite app_nil_r.
    destruct (Nat.le_gt_cases info_size (length text)) as [Hfull | Hshort].
    + replace k with info_size by (unfold k; lia).
      rewrite Nat.sub_diag.
      replace (info_size - length c)%nat with O by (unfold k in Hge; lia).
      cbn [Nat.min repeat]. reflexivity.
    + assert (Hk : k = length text) by (unfold k; lia).
      assert (Hlen : length c = length text) by lia.
      rewrite Hk, <- Hlen, firstn_all.
      rewrite (firstn_all2 c) by lia.
      f_equal. f_equal. lia.
  - rewrite (firstn_all2 c) by lia.
    rewrite (firstn_all2 c) by (unfold k in Hlt; lia).
    rewrite <- app_assoc, <- repeat_app. f_equal. f_equal. unfold k in *. lia.
Qed.

(** X13: [set_information] always leaves a buffer of the size of the
    header field: the characters of the text up to its first null, cut to
    the size of the buffer, and nulls after them.  Read back as a C string
    the buffer gives that text; it holds a terminating null exactly when
    the text is shorter than the buffer, so a text that fills the buffer
    is stored without a terminator. *)
Theorem set_information_fills_buffer {F} (information_size : nat)
    (text : list byte) (hs : HairStyle F) :
  get_information (set_information information_size text hs)
  = firstn information_size (c_str text ++ repeat Byte.x00 information_size)
  /\ length (get_information (set_information information_size text hs))
     = information_size
  /\ c_str (get_information (set_information information_size text hs))
     = firstn information_size (c_str text)
  /\ (In Byte.x00 (get_information (set_information information_size text hs))
      <-> (length (c_str text) < information_size)%nat).
Proof.
  unfold get_information, set_information.
  cbn [set_file_header file_header information].
  rewrite strncpy_cleared.
  pose proof (c_str_no_null text) as Hno.
  set (c := c_str text) in *. split; [reflexivity|].
  rewrite firstn_app, firstn_repeat_min.
  destruct (Nat.le_gt_cases information_size (length c)) as [Hfull | Hshort].
  - replace (information_size - length c)%nat with O by lia.
    cbn [Nat.min repeat]. rewrite app_nil_r.
    assert (Hno' : ~ In Byte.x00 (firstn information_size c)).
    { intros Hin. apply Hno. eapply List.In_firstn_to_In; eassumption. }
    split; [rewrite length_firstn; lia|]. split.
    + apply c_str_unterminated. exact Hno'.
    + split; [intros Hin; destruct (Hno' Hin) | lia].
  - rewrite (firstn_all2 c) by lia.
    replace (Nat.min (information_size - length c) information_size)
      with (S (information_size - length c - 1)) by lia.
    cbn [repeat]. split; [|split].
    + rewrite length_app. cbn [length]. rewrite repeat_length. lia.
    + apply c_str_terminated. exact Hno.
    + split; [intros _; exact Hshort|].
      intros _. apply in_or_app. right. left. reflexivity.
Qed.

(* ===================================================================== *)
(** * The generator is a permutation of the 64-bit states *)
(* ===================================================================== *)

Lemma u64_bits (a : Z) (i : Z) :
  0 <= i -> Z.testbit (u64 a) i = if i <? 64 then Z.testbit a i else false.
Proof.
  intros Hi. unfold u64. destruct (Z.ltb_spec i 64).
  - apply Z.mod_pow2_bits_low. lia.
  - apply Z.mod_pow2_bits_high. lia.
Qed.

Lemma high_bits_range (a : Z) :
  0 <= a < 2 ^ 64 <-> (forall i, 64 <= i -> Z.testbit a i = false) /\ 0 <= a.
Proof.
  split.
  - intros Ha. split; [|lia]. intros i Hi.
    rewrite <- (Z.mod_small a (2 ^ 64)) by lia.
    apply Z.mod_pow2_bits_high. lia.
  - intros (Hbits & Hpos). split; [exact Hpos|].
    assert (Hmod : a mod 2 ^ 64 = a).
    { apply Z.bits_inj'. intros i Hi. destruct (Z.ltb_spec i 64).
      - apply Z.mod_pow2_bits_low. lia.
      - rewrite Z.mod_pow2_bits_high by lia. symmetry. apply Hbits. lia. }
    rewrite <- Hmod. apply Z.mod_pos_bound. lia.
Qed.

Lemma lxor_range (a b : Z) :
  0 <= a < 2 ^ 64 -> 0 <= b < 2 ^ 64 -> 0 <= Z.lxor a b < 2 ^ 64.
Proof.
  intros Ha Hb. apply high_bits_range. split.
  - intros i Hi. rewrite Z.lxor_spec.
    rewrite (proj1 (proj1 (high_bits_range a) Ha) i Hi).
    rewrite (proj1 (proj1 (high_bits_range b) Hb) i Hi). reflexivity.
  - apply Z.lxor_nonneg. lia.
Qed.

Lemma u64_range (a : Z) : 0 <= u64 a < 2 ^ 64.
Proof. unfold u64. apply Z.mod_pos_bound. lia. Qed.

Lemma shiftr_range (a k : Z) :
  0 <= k -> 0 <= a < 2 ^ 64 -> 0 <= Z.shiftr a k < 2 ^ 64.
Proof.
  intros Hk Ha. rewrite Z.shiftr_div_pow2 by lia. split.
  - apply Z.div_pos; lia.
  - apply Z.le_lt_trans with a; [|lia].
    apply Z.div_le_upper_bound; [lia|]. nia.
Qed.

Lemma xor_shl_range (k x : Z) :
  0 <= x < 2 ^ 64 -> 0 <= xor_shl k x < 2 ^ 64.
Proof. intros Hx. apply lxor_range; [exact Hx | apply u64_range]. Qed.

Lemma xor_shr_range (k x : Z) :
  0 <= k -> 0 <= x < 2 ^ 64 -> 0 <= xor_shr k x < 2 ^ 64.
Proof.
  intros Hk Hx. apply lxor_range; [exact Hx | apply shiftr_range; lia].
Qed.

Lemma xor_shl_bit (k x i : Z) :
  0 < k -> 0 <= i < 64 ->
  Z.testbit x i = xorb (Z.testbit (xor_shl k x) i) (Z.testbit x (i - k)).
Proof.
  intros Hk Hi. unfold xor_shl. rewrite Z.lxor_spec, u64_bits by lia.
  replace (i <? 64) with true by (symmetry; apply Z.ltb_lt; lia).
  rewrite Z.shiftl_spec by lia.
  destruct (Z.testbit x i), (Z.testbit x (i - k)); reflexivity.
Qed.

Lemma xor_shr_bit (k x i : Z) :
  0 < k -> 0 <= i ->
  Z.testbit x i = xorb (Z.testbit (xor_shr k x) i) (Z.testbit x (i + k)).
Proof.
  intros Hk Hi. unfold xor_shr. rewrite Z.lxor_spec.
  rewrite Z.shiftr_spec by lia.
  destruct (Z.testbit x i), (Z.testbit x (i + k)); reflexivity.
Qed.

Lemma xor_shl_injective (k x y : Z) :
  0 < k -> 0 <= x < 2 ^ 64 -> 0 <= y < 2 ^ 64 ->
  xor_shl k x = xor_shl k y -> x = y.
Proof.
  intros Hk Hx Hy Heq. apply Z.bits_inj'.
  assert (Hall : forall n : nat, forall i, 0 <= i < Z.of_nat n ->
            Z.testbit x i = Z.testbit y i).
  { induction n as [|n IH]; intros i Hi; [lia|].
    destruct (Z.ltb_spec i 64) as [Hlt | Hge].
    - rewrite (xor_shl_bit k x i), (xor_shl_bit k y i) by lia.
      rewrite Heq. f_equal.
      destruct (Z.ltb_spec (i - k) 0) as [Hneg | Hpos].
      + rewrite !Z.testbit_neg_r by lia. reflexivity.
      + apply IH. lia.
    - rewrite (proj1 (proj1 (high_bits_range x) Hx) i Hge).
      rewrite (proj1 (proj1 (high_bits_range y) Hy) i Hge). reflexivity. }
  intros i Hi. apply (Hall (Z.to_nat i + 1)%nat). lia.
Qed.

Lemma xor_shr_injective (k x y : Z) :
  0 < k -> 0 <= x < 2 ^ 64 -> 0 <= y < 2 ^ 64 ->
  xor_shr k x = xor_shr k y -> x = y.
Proof.
  intros Hk Hx Hy Heq. apply Z.bits_inj'.
  assert (Hall : forall n : nat, forall i, 64 - Z.of_nat n <= i -> 0 <= i ->
            Z.testbit x i = Z.testbit y i).
  { induction n as [|n IH]; intros i Hi Hpos.
    - rewrite (proj1 (proj1 (high_bits_range x) Hx) i) by lia.
      rewrite (proj1 (proj1 (high_bits_range y) Hy) i) by lia. reflexivity.
    - rewrite (xor_shr_bit k x i), (xor_shr_bit k y i) by lia.
      rewrite Heq. f_equal. apply IH; lia. }
  intros i Hi. apply (Hall 64%nat); lia.
Qed.

Lemma xorshift64_steps (x : Z) :
  xorshift64 x = xor_shl 17 (xor_shr 7 (xor_shl 13 x)).
Proof. reflexivity. Qed.

Lemma xorshift64_range (x : Z) :
  0 <= x < 2 ^ 64 -> 0 <= xorshift64 x < 2 ^ 64.
Proof.
  intros Hx. rewrite xorshift64_steps.
  apply xor_shl_range, xor_shr_range; [lia|]. apply xor_shl_range. exact Hx.
Qed.

Lemma xorshift64_injective (x y : Z) :
  0 <= x < 2 ^ 64 -> 0 <= y < 2 ^ 64 ->
  xorshift64 x = xorshift64 y -> x = y.
Proof.
  intros Hx Hy. rewrite !xorshift64_steps. intros H.
  pose proof (xor_shl_range 13 x Hx) as Hx1.
  pose proof (xor_shl_range 13 y Hy) as Hy1.
  apply xor_shl_injective in H;
    [|lia|apply xor_shr_range; [lia|assumption]
     |apply xor_shr_range; [lia|assumption]].
  apply xor_shr_injective in H; [|lia|assumption|assumption].
  apply xor_shl_injective in H; [exact H|lia|assumption|assumption].
Qed.

(** X14: on the 64-bit states [xorshift64] is one-to-one and stays in
    range, so a state other than zero is never followed by zero: however
    many strands are drawn, a generator seeded with a non-zero value never
    reaches the state in which every draw selects slot zero. *)
Theorem xorshift64_never_reaches_zero (x : Z) :
  0 <= x < 2 ^ 64 ->
  (forall y, 0 <= y < 2 ^ 64 -> xorshift64 x = xorshift64 y -> x = y)
  /\ (forall n, 0 <= Nat.iter n xorshift64 x < 2 ^ 64)
  /\ (x <> 0 -> forall n, Nat.iter n xorshift64 x <> 0).
Proof.
  intros Hx.
  assert (Hrange : forall n, 0 <= Nat.iter n xorshift64 x < 2 ^ 64).
  { induction n as [|n IH]; [exact Hx|].
    rewrite Nat.iter_succ. apply xorshift64_range. exact IH. }
  split; [|split].
  - intros y Hy. apply xorshift64_injective; assumption.
  - exact Hrange.
  - intros Hnz. induction n as [|n IH]; [exact Hnz|].
    rewrite Nat.iter_succ. intros H0. apply IH.
    apply xorshift64_injective; [apply Hrange | lia |].
    rewrite H0. symmetry. exact xorshift64_zero.
Qed.

Lemma xorshift64_never_reaches_zero_witness :
  0 <= 1 < 2 ^ 64
  /\ (forall y, 0 <= y < 2 ^ 64 -> xorshift64 1 = xorshift64 y -> 1 = y)
  /\ (forall n, 0 <= Nat.iter n xorshift64 1 < 2 ^ 64)
  /\ (1 <> 0 -> forall n, Nat.iter n xorshift64 1 <> 0).
Proof.
  assert (H : 0 <= 1 < 2 ^ 64) by lia.
  split; [exact H|].
  exact (xorshift64_never_reaches_zero 1 H).
Defined.

(* ===================================================================== *)
(** * Density normalization *)
(* ===================================================================== *)

Lemma stretch_rows_checked :
  forallb (fun r => row_from_zero_ok (stretch_row r)) (seq 1 255) = true.
Proof. vm_compute. reflexivity. Qed.

Lemma row_ok_entries (row : list (outcome Z)) :
  forall prev,
    row_ok prev row = true ->
    forall i o, nth_error row i = Some o ->
      exists t, o = Done t /\ prev <= t <= 255
                /\ row_ok t (skipn (S i) row) = true.
Proof.
  induction row as [|[t0|] row IH]; intros prev Hok i o Hi.
  - destruct i; discriminate.
  - cbn [row_ok] in Hok.
    apply andb_prop in Hok. destruct Hok as (Hok & Hrest).
    apply andb_prop in Hok. destruct Hok as (H1 & H2).
    destruct i as [|i].
    + injection Hi as <-. exists t0. cbn [skipn]. repeat split; try lia.
      exact Hrest.
    + cbn [nth_error] in Hi.
      destruct (IH t0 Hrest i o Hi) as (t & -> & Ht & Hskip).
      exists t. repeat split; try lia. exact Hskip.
  - discriminate.
Qed.

Lemma row_ok_monotone (row : list (outcome Z)) (prev : Z) (i j : nat)
    (ti tj : Z) :
  row_ok prev row = true -> (i <= j)%nat ->
  nth_error row i = Some (Done ti) -> nth_error row j = Some (Done tj) ->
  ti <= tj.
Proof.
  intros Hok Hij Hi Hj.
  destruct (row_ok_entries row prev Hok i _ Hi) as (t & Ht & _ & Hskip).
  injection Ht as <-.
  destruct (Nat.eq_dec i j) as [-> | Hne].
  - rewrite Hi in Hj. injection Hj as ->. lia.
  - assert (Hj' : nth_error (skipn (S i) row) (j - S i) = Some (Done tj)).
    { rewrite nth_error_skipn. replace (S i + (j - S i))%nat with j by lia.
      exact Hj. }
    destruct (row_ok_entries _ ti Hskip _ _ Hj') as (t & Ht & Hle & _).
    injection Ht as <-. lia.
Qed.

Lemma row_ok_last (row : list (outcome Z)) :
  forall prev,
    row_ok prev row = true ->
    forall t, nth_error row (length row - 1) = Some (Done t) -> 254 <= t.
Proof.
  intros prev Hok t Hlast.
  destruct (row_ok_entries row prev Hok _ _ Hlast) as (t' & Ht & _ & Hskip).
  injection Ht as <-.
  rewrite skipn_all2 in Hskip by lia. cbn [row_ok] in Hskip. lia.
Qed.

Lemma stretch_row_nth (r v : nat) :
  (v <= r)%nat ->
  nth_error (stretch_row r) v = Some (stretch (Z.of_nat r) (Z.of_nat v)).
Proof.
  intros Hv. unfold stretch_row, stretch.
  rewrite nth_error_map, nth_error_seq.
  replace (v <? S r)%nat with true by (symmetry; apply Nat.ltb_lt; lia).
  reflexivity.
Qed.

(** The table of [stretch] on the ranges that an [unsigned char] volume
    can have. *)
Lemma stretch_facts (r : Z) :
  1 <= r <= 255 ->
  (forall v, 0 <= v <= r -> stretch r v = Done (stretched r v))
  /\ stretched r 0 = 0
  /\ 254 <= stretched r r
  /\ (forall a b, 0 <= a <= b -> b <= r ->
        0 <= stretched r a <= stretched r b /\ stretched r b <= 255).
Proof.
  intros Hr.
  assert (Hin : In (Z.to_nat r) (seq 1 255)) by (apply in_seq; lia).
  pose proof (proj1 (forallb_forall _ _) stretch_rows_checked
                (Z.to_nat r) Hin) as Hrow.
  cbv beta in Hrow.
  assert (Hnth : forall v, 0 <= v <= r ->
            nth_error (stretch_row (Z.to_nat r)) (Z.to_nat v)
            = Some (stretch r v)).
  { intros v Hv. rewrite stretch_row_nth by lia.
    rewrite !Z2Nat.id by lia. reflexivity. }
  assert (Hlen : length (stretch_row (Z.to_nat r)) = S (Z.to_nat r)).
  { unfold stretch_row. rewrite length_map, length_seq. reflexivity. }
  unfold row_from_zero_ok in Hrow.
  destruct (stretch_row (Z.to_nat r)) as [|[t0|] row] eqn:Erow;
    try discriminate.
  destruct t0; try discriminate.
  assert (Hok : row_ok 0 (Done 0 :: row) = true).
  { cbn [row_ok]. rewrite Hrow. reflexivity. }
  assert (Hdone : forall v, 0 <= v <= r ->
            stretch r v = Done (stretched r v)).
  { intros v Hv.
    destruct (row_ok_entries _ 0 Hok _ _ (Hnth v Hv)) as (t & Ht & _).
    unfold stretched. rewrite Ht. reflexivity. }
  split; [exact Hdone|]. split; [|split].
  - specialize (Hnth 0 ltac:(lia)). cbn [Z.to_nat nth_error] in Hnth.
    injection Hnth as Hz. unfold stretched. rewrite <- Hz. reflexivity.
  - apply (row_ok_last _ 0 Hok).
    rewrite Hlen. replace (S (Z.to_nat r) - 1)%nat with (Z.to_nat r) by lia.
    rewrite (Hnth r) by lia. rewrite Hdone by lia. reflexivity.
  - intros a b Hab Hb.
    pose proof (Hnth a ltac:(lia)) as Ha'. rewrite Hdone in Ha' by lia.
    pose proof (Hnth b ltac:(lia)) as Hb'. rewrite Hdone in Hb' by lia.
    destruct (row_ok_entries _ 0 Hok _ _ Ha') as (ta & Hta & Hra & _).
    destruct (row_ok_entries _ 0 Hok _ _ Hb') as (tb & Htb & Hrb & _).
    injection Hta as <-. injection Htb as <-.
    pose proof (row_ok_monotone _ 0 (Z.to_nat a) (Z.to_nat b) _ _ Hok
                  ltac:(lia) Ha' Hb').
    lia.
Qed.

Lemma scan_fold (dens : list Z) :
  forall mn mx,
    fold_left scan_density dens (mn, mx)
    = (fold_left Z.min dens mn, fold_left Z.max dens mx).
Proof.
  induction dens as [|d dens IH]; intros mn mx; [reflexivity|].
  cbn [fold_left scan_density]. rewrite IH. f_equal; f_equal.
  - destruct (Z.ltb_spec d mn); lia.
  - destruct (Z.ltb_spec mx d); lia.
Qed.

Lemma fold_min_least (lo : Z) (dens : list Z) :
  forall a,
    Forall (fun d => lo <= d) dens -> lo <= a ->
    In lo dens \/ a = lo ->
    fold_left Z.min dens a = lo.
Proof.
  induction dens as [|d dens IH]; intros a Hall Ha Hin.
  - destruct Hin as [[] | ->]. reflexivity.
  - inversion Hall as [|? ? Hd Hrest]; subst. cbn [fold_left].
    apply IH; [exact Hrest | lia |].
    destruct Hin as [[-> | Hin] | ->]; [right; lia | left; exact Hin
                                       | right; lia].
Qed.

Lemma fold_max_greatest (hi : Z) (dens : list Z) :
  forall a,
    Forall (fun d => d <= hi) dens -> a <= hi ->
    In hi dens \/ a = hi ->
    fold_left Z.max dens a = hi.
Proof.
  induction dens as [|d dens IH]; intros a Hall Ha Hin.
  - destruct Hin as [[] | ->]. reflexivity.
  - inversion Hall as [|? ? Hd Hrest]; subst. cbn [fold_left].
    apply IH; [exact Hrest | lia |].
    destruct Hin as [[-> | Hin] | ->]; [right; lia | left; exact Hin
                                       | right; lia].
Qed.

Lemma scan_extrema_spec (dens : list Z) (lo hi : Z) :
  Forall (fun d => 0 <= d <= 255) dens ->
  In lo dens -> In hi dens ->
  Forall (fun d => lo <= d <= hi) dens ->
  scan_extrema dens = (lo, hi).
Proof.
  intros Hbyte Hlo Hhi Hall. unfold scan_extrema. rewrite scan_fold.
  rewrite Forall_forall in Hbyte, Hall.
  pose proof (Hbyte lo Hlo). pose proof (Hbyte hi Hhi).
  f_equal.
  - apply fold_min_least; [|lia|left; exact Hlo].
    apply Forall_forall. intros d Hd. apply Hall. exact Hd.
  - apply fold_max_greatest; [|lia|left; exact Hhi].
    apply Forall_forall. intros d Hd. apply Hall. exact Hd.
Qed.

Lemma rescale_all_map (scaling : float) (data_min : Z) (g : Z -> Z)
    (dens : list Z) :
  Forall (fun d => rescale scaling data_min d = Done (g d)) dens ->
  rescale_all scaling data_min dens = Done (map g dens).
Proof.
  induction 1 as [|d dens Hd _ IH]; [reflexivity|].
  cbn [rescale_all map]. rewrite Hd, IH. reflexivity.
Qed.

(** X15: on a volume whose densities are not all equal, [normalize] is
    defined and replaces every density by a value that depends only on it,
    does not decrease with it and lies in the byte range; the smallest
    density becomes 0 and the largest becomes 254 or 255.  Both occur: a
    range of 255 ends at 255, a range of 7 at 254, because the product
    with the rounded scaling factor falls just below 255 and the
    conversion truncates. *)
Theorem normalize_stretches (vol : Volume) (lo hi : Z) :
  Forall (fun d => 0 <= d <= 255) (densities vol) ->
  In lo (densities vol) -> In hi (densities vol) ->
  Forall (fun d => lo <= d <= hi) (densities vol) ->
  lo < hi ->
  exists g : Z -> Z,
    normalize vol
    = Done {| resolution := resolution vol; bounds := bounds vol;
              densities := map g (densities vol);
              voxel_tangents := voxel_tangents vol |}
    /\ g lo = 0
    /\ 254 <= g hi <= 255
    /\ (forall a b, lo <= a <= b -> b <= hi ->
          0 <= g a <= g b /\ g b <= 255)
    /\ (hi - lo = 7 -> g hi = 254)
    /\ (hi - lo = 255 -> g hi = 255).
Proof.
  intros Hbyte Hlo Hhi Hall Hlt.
  assert (Hr : 1 <= hi - lo <= 255).
  { rewrite Forall_forall in Hbyte.
    pose proof (Hbyte lo Hlo). pose proof (Hbyte hi Hhi). lia. }
  destruct (stretch_facts (hi - lo) Hr) as (Hdone & Hzero & Hlast & Hmono).
  exists (fun d => stretched (hi - lo) (d - lo)).
  split; [|split; [|split; [|split; [|split]]]].
  - unfold normalize.
    rewrite (scan_extrema_spec _ lo hi Hbyte Hlo Hhi Hall).
    rewrite (rescale_all_map _ _ (fun d => stretched (hi - lo) (d - lo)));
      [reflexivity|].
    eapply Forall_impl; [|exact Hall]. cbn beta. intros d Hd.
    unfold rescale, u8. rewrite Z.mod_small by lia.
    apply (Hdone (d - lo)). lia.
  - rewrite Z.sub_diag. exact Hzero.
  - split; [exact Hlast|]. apply (Hmono (hi - lo) (hi - lo)); lia.
  - intros a b Hab Hb. apply Hmono; lia.
  - intros ->. vm_compute. reflexivity.
  - intros ->. vm_compute. reflexivity.
Qed.

Lemma normalize_stretches_witness :
  Forall (fun d => 0 <= d <= 255) (densities two_voxels)
  /\ In 3 (densities two_voxels)
  /\ In 10 (densities two_voxels)
  /\ Forall (fun d => 3 <= d <= 10) (densities two_voxels)
  /\ 3 < 10
  /\ exists g : Z -> Z,
       normalize two_voxels
       = Done {| resolution := resolution two_voxels;
                 bounds := bounds two_voxels;
                 densities := map g (densities two_voxels);
                 voxel_tangents := voxel_tangents two_voxels |}
       /\ g 3 = 0
       /\ 254 <= g 10 <= 255
       /\ (forall a b, 3 <= a <= b -> b <= 10 ->
             0 <= g a <= g b /\ g b <= 255)
       /\ (10 - 3 = 7 -> g 10 = 254)
       /\ (10 - 3 = 255 -> g 10 = 255).
Proof.
  assert (H1 : Forall (fun d => 0 <= d <= 255) (densities two_voxels))
    by (repeat constructor; lia).
  assert (H2 : In 3 (densities two_voxels)) by (left; reflexivity).
  assert (H3 : In 10 (densities two_voxels))
    by (right; left; reflexivity).
  assert (H4 : Forall (fun d => 3 <= d <= 10) (densities two_voxels))
    by (repeat constructor; lia).
  assert (H5 : 3 < 10) by lia.
  split; [exact H1|]. split; [exact H2|]. split; [exact H3|].
  split; [exact H4|]. split; [exact H5|].
  exact (normalize_stretches two_voxels 3 10 H1 H2 H3 H4 H5).
Defined.

(** X16: on a volume whose densities are all equal (an empty grid, for
    one) the scaling factor of [normalize] is 255 divided by zero; the
    first density becomes zero times infinity, which is not a number, and
    its conversion to a byte is undefined. *)
Theorem normalize_constant_undefined (vol : Volume) (c : Z) :
  densities vol <> [] ->
  Forall (fun d => d = c) (densities vol) ->
  0 <= c <= 255 ->
  normalize vol = Undefined.
Proof.
  intros Hne Hall Hc. unfold normalize.
  destruct (densities vol) as [|d dens] eqn:E; [contradiction|].
  inversion Hall as [|? ? Hd Hrest]; subst d.
  assert (Hin : In c (c :: dens)) by (left; reflexivity).
  rewrite (scan_extrema_spec (c :: dens) c c).
  - cbn [rescale_all]. unfold rescale, u8. rewrite !Z.sub_diag.
    reflexivity.
  - apply Forall_forall. intros d Hd'. rewrite Forall_forall in Hall.
    rewrite (Hall d Hd'). exact Hc.
  - exact Hin.
  - exact Hin.
  - apply Forall_forall. intros d Hd'. rewrite Forall_forall in Hall.
    rewrite (Hall d Hd'). lia.
Qed.

Lemma normalize_constant_undefined_witness :
  densities empty_grid <> []
  /\ Forall (fun d => d = 0) (densities empty_grid)
  /\ 0 <= 0 <= 255
  /\ normalize empty_grid = Undefined.
Proof.
  assert (H1 : densities empty_grid <> []) by discriminate.
  assert (H2 : Forall (fun d => d = 0) (densities empty_grid))
    by (repeat constructor).
  assert (H3 : 0 <= 0 <= 255) by lia.
  split; [exact H1|]. split; [exact H2|]. split; [exact H3|].
  exact (normalize_constant_undefined empty_grid 0 H1 H2 H3).
Defined.

(* ===================================================================== *)
(** * Voxel densities *)
(* ===================================================================== *)

Lemma set_index_done {A} (v v' : list A) (i : nat) (a : A) :
  set_index v i a = Done v' ->
  (i < length v)%nat /\ v' = firstn i v ++ a :: skipn (S i) v.
Proof.
  unfold set_index. destruct (Nat.ltb_spec i (length v)) as [Hi|];
    [|discriminate].
  intros H. split; [exact Hi | congruence].
Qed.

Lemma set_index_length {A} (v v' : list A) (i : nat) (a : A) :
  set_index v i a = Done v' -> length v' = length v.
Proof.
  intros H. apply set_index_done in H. destruct H as (Hi & ->).
  rewrite length_app, length_firstn.
  change (length (a :: skipn (S i) v)) with (S (length (skipn (S i) v))).
  rewrite length_skipn. lia.
Qed.

Lemma total_density_app (a b : list Z) :
  total_density (a ++ b) = total_density a + total_density b.
Proof.
  unfold total_density. induction a as [|x a IH]; [reflexivity|].
  cbn [app fold_right]. rewrite IH. lia.
Qed.

Lemma set_index_total (dens dens' : list Z) (i : nat) (d d' : Z) :
  at_index dens i = Done d ->
  set_index dens i d' = Done dens' ->
  total_density dens' = total_density dens - d + d'
  /\ (forall lo hi, Forall (fun x => lo <= x <= hi) dens -> lo <= d' <= hi ->
        Forall (fun x => lo <= x <= hi) dens').
Proof.
  unfold at_index. intros Hd Hs.
  destruct (nth_error dens i) as [d0|] eqn:E; [|discriminate].
  injection Hd as ->.
  apply set_index_done in Hs. destruct Hs as (Hi & ->).
  apply nth_error_split in E. destruct E as (l1 & l2 & Hsplit & Hlen).
  subst dens i. rewrite firstn_app, firstn_all, Nat.sub_diag.
  cbn [firstn]. rewrite app_nil_r.
  replace (skipn (S (length l1)) (l1 ++ d :: l2)) with l2.
  2:{ rewrite skipn_app, skipn_all2 by lia.
      replace (S (length l1) - length l1)%nat with 1%nat by lia.
      reflexivity. }
  split.
  - rewrite !total_density_app. unfold total_density. cbn [fold_right]. lia.
  - intros lo hi Hall Hd'. apply Forall_app in Hall.
    destruct Hall as (H1 & H2). inversion H2; subst.
    apply Forall_app. split; [exact H1|]. constructor; assumption.
Qed.

(** One splat keeps the size of the grid, counts at most one sample and
    never lets a density pass 255. *)
Lemma splat_count (pos : nat) (tangent : outcome (vec3 float))
    (dens dens' : list Z) (pt pt' : list (vec3 float)) :
  splat pos tangent (dens, pt) = Done (dens', pt') ->
  length dens' = length dens
  /\ total_density dens' <= total_density dens + 1
  /\ (Forall (fun d => 0 <= d <= 255) dens ->
      Forall (fun d => 0 <= d <= 255) dens').
Proof.
  unfold splat. destruct (at_index dens pos) as [d|] eqn:Ed; [|discriminate].
  cbn [obind]. destruct (Z.eqb_spec d 255) as [-> | Hne].
  - intros H. injection H as <- <-. repeat split; [lia | auto].
  - destruct (at_index pt pos) as [t|]; [|discriminate]. cbn [obind].
    destruct tangent as [tg|]; [|discriminate]. cbn [obind].
    destruct (set_index pt pos (V3.add t tg)) as [pt1|]; [|discriminate].
    cbn [obind].
    destruct (set_index dens pos (d + 1)) as [dens1|] eqn:Es;
      [|discriminate].
    cbn [obind]. intros H. injection H as <- <-.
    destruct (set_index_total _ _ _ _ _ Ed Es) as (Htot & Hkeep).
    split; [exact (set_index_length _ _ _ _ Es)|]. split; [lia|].
    intros Hall. apply Hkeep; [exact Hall|].
    assert (Hin : In d dens).
    { unfold at_index in Ed. destruct (nth_error dens pos) eqn:E;
        [|discriminate]. injection Ed as ->.
      eapply nth_error_In. exact E. }
    rewrite Forall_forall in Hall. specialize (Hall d Hin). lia.
Qed.

Lemma voxelize_vertex_count (hs : HairStyle float) (vol : Volume)
    (voxel_size : vec3 float) (width height : Z) (i : nat)
    (dens dens' : list Z) (pt pt' : list (vec3 float)) :
  voxelize_vertex hs vol voxel_size width height i (dens, pt)
  = Done (dens', pt') ->
  length dens' = length dens
  /\ total_density dens' <= total_density dens + 1
  /\ (Forall (fun d => 0 <= d <= 255) dens ->
      Forall (fun d => 0 <= d <= 255) dens').
Proof.
  unfold voxelize_vertex.
  destruct (at_index (vertices hs) i) as [vertex|]; [|discriminate].
  cbn [obind].
  destruct (to_unsigned 64 _) as [pos|]; [|discriminate]. cbn [obind].
  apply splat_count.
Qed.

Lemma accumulate_count (body : nat -> list Z * list (vec3 float)
                               -> outcome (list Z * list (vec3 float)))
    (n : nat) :
  (forall i dens pt dens' pt',
      body i (dens, pt) = Done (dens', pt') ->
      length dens' = length dens
      /\ total_density dens' <= total_density dens + 1
      /\ (Forall (fun d => 0 <= d <= 255) dens ->
          Forall (fun d => 0 <= d <= 255) dens')) ->
  forall i dens pt dens' pt',
    for_loop body i n (dens, pt) = Done (dens', pt') ->
    length dens' = length dens
    /\ total_density dens' <= total_density dens + Z.of_nat n
    /\ (Forall (fun d => 0 <= d <= 255) dens ->
        Forall (fun d => 0 <= d <= 255) dens').
Proof.
  intros Hbody. induction n as [|n IH]; intros i dens pt dens' pt' Hrun.
  - cbn in Hrun. injection Hrun as <- <-. repeat split; [lia | auto].
  - cbn [for_loop] in Hrun.
    destruct (body i (dens, pt)) as [[dens1 pt1]|] eqn:E; [|discriminate].
    cbn [obind] in Hrun.
    destruct (Hbody _ _ _ _ _ E) as (L1 & T1 & K1).
    destruct (IH _ _ _ _ _ Hrun) as (L2 & T2 & K2).
    split; [lia|]. split; [lia|]. auto.
Qed.

Lemma total_density_repeat (n : nat) : total_density (repeat 0 n) = 0.
Proof. induction n as [|n IH]; [reflexivity|]. cbn. exact IH. Qed.

Lemma empty_voxel_exists (dens : list Z) :
  Forall (fun d => 0 <= d <= 255) dens ->
  total_density dens < Z.of_nat (length dens) ->
  In 0 dens.
Proof.
  induction dens as [|d dens IH]; intros Hall Htot; [cbn in Htot; lia|].
  inversion Hall as [|? ? Hd Hrest]; subst.
  destruct (Z.eq_dec d 0) as [-> | Hne]; [left; reflexivity|].
  right. apply IH; [exact Hrest|].
  unfold total_density in *. cbn [fold_right length] in Htot. lia.
Qed.

Lemma divide_by_zero_density (x : float) :
  to_signed 8 (F32.mul (F32.div x (F32.of_int 0)) (F32.of_int 127))
  = Undefined.
Proof. destruct x as [s|s| |s m e]; try destruct s; reflexivity. Qed.

Lemma quantize_empty_voxel_undefined (precise_tangents : list (vec3 float))
    (dens : list Z) :
  In 0 dens -> quantize_tangents precise_tangents dens = Undefined.
Proof.
  revert precise_tangents.
  induction dens as [|d dens IH]; intros pt Hin; [destruct Hin|].
  destruct pt as [|t pt]; [reflexivity|]. cbn [quantize_tangents].
  destruct Hin as [-> | Hin].
  - unfold quantize_voxel, average_tangent, V3.scale, V3.div_scalar.
    cbn [vx]. rewrite divide_by_zero_density. reflexivity.
  - destruct (quantize_voxel t d); [|reflexivity]. cbn [obind].
    rewrite (IH pt Hin). reflexivity.
Qed.

(** X17: [voxelize_vertices] counts at most one sample per vertex and its
    finalization divides the summed tangent of every voxel by the density
    of the voxel, so it is undefined on every grid with more voxels than
    the asset has vertices: some voxel is left empty and its tangent, a
    division by zero, has no conversion to signed bytes. *)
Theorem voxelize_vertices_needs_dense_grid (hs : HairStyle float)
    (width height depth : Z) :
  size (vertices hs) < u64 (width * height * depth) ->
  voxelize_vertices hs width height depth = Undefined.
Proof.
  intros Hfew. unfold voxelize_vertices.
  destruct (accumulate_vertices hs width height depth)
    as [[dens pt]|] eqn:Hacc; [|reflexivity].
  cbn [obind]. unfold accumulate_vertices in Hacc.
  apply (accumulate_count _ _
           (fun i dens pt dens' pt' =>
              voxelize_vertex_count hs _ _ width height i dens dens' pt pt'))
    in Hacc.
  destruct Hacc as (Hlen & Htot & Hkeep).
  cbn [new_volume densities] in Hlen, Htot, Hkeep.
  rewrite repeat_length in Hlen. rewrite total_density_repeat in Htot.
  assert (Hcount : Z.of_nat (Z.to_nat (get_vertex_count hs))
                   <= size (vertices hs)).
  { unfold get_vertex_count, u32, size.
    pose proof (Z.mod_pos_bound (Z.of_nat (length (vertices hs))) (2 ^ 32)
                  ltac:(lia)).
    rewrite Z2Nat.id by lia. apply Z.mod_le; lia. }
  pose proof (u64_range (width * height * depth)) as Hu.
  rewrite (quantize_empty_voxel_undefined pt dens); [reflexivity|].
  apply empty_voxel_exists.
  - apply Hkeep. apply Forall_forall. intros d Hd.
    apply repeat_spec in Hd. lia.
  - rewrite Hlen. lia.
Qed.

Lemma voxelize_vertices_needs_dense_grid_witness :
  size (vertices diagonal_strand) < u64 (4 * 4 * 4)
  /\ voxelize_vertices diagonal_strand 4 4 4 = Undefined.
Proof.
  assert (H : size (vertices diagonal_strand) < u64 (4 * 4 * 4))
    by reflexivity.
  split; [exact H|].
  exact (voxelize_vertices_needs_dense_grid diagonal_strand 4 4 4 H).
Defined.



Lemma walk_segment_keeps (vol : Volume) (width height : Z)
    (tangent : outcome (vec3 float)) (direction : vec3 float) (fuel : nat) :
  forall steps root dens pt dens' pt',
    walk_segment fuel vol width height tangent steps root direction (dens, pt)
    = Some (Done (dens', pt')) ->
    length dens' = length dens
    /\ (Forall (fun d => 0 <= d <= 255) dens ->
        Forall (fun d => 0 <= d <= 255) dens').
Proof.
  induction fuel as [|fuel IH]; intros steps root dens pt dens' pt' Hrun;
    cbn [walk_segment] in Hrun;
    destruct (F32.ltb F32.zero steps).
  - discriminate.
  - injection Hrun as <- <-. split; [reflexivity | auto].
  - destruct (to_signed 32 _) as [voxel_index|]; [|discriminate].
    destruct (voxel_index <? 0); [discriminate|].
    destruct (splat _ tangent (dens, pt)) as [[dens1 pt1]|] eqn:Es;
      [|discriminate].
    destruct (splat_count _ _ _ _ _ _ Es) as (L1 & _ & K1).
    destruct (IH _ _ _ _ _ _ Hrun) as (L2 & K2).
    split; [lia | auto].
  - injection Hrun as <- <-. split; [reflexivity | auto].
Qed.

Lemma voxelize_segment_keeps (fuel : nat) (hs : HairStyle float)
    (vol : Volume) (voxel_size : vec3 float) (width height : Z) (k : nat)
    (dens dens' : list Z) (pt pt' : list (vec3 float)) :
  voxelize_segment fuel hs vol voxel_size width height k (dens, pt)
  = Some (Done (dens', pt')) ->
  length dens' = length dens
  /\ (Forall (fun d => 0 <= d <= 255) dens ->
      Forall (fun d => 0 <= d <= 255) dens').
Proof.
  unfold voxelize_segment.
  destruct (obind (at_index (indices hs) (2 * k)) _) as [[[a va] vb]|];
    [|discriminate].
  apply walk_segment_keeps.
Qed.

Lemma voxelize_segment_loop_keeps (fuel : nat) (hs : HairStyle float)
    (vol : Volume) (voxel_size : vec3 float) (width height : Z) (n : nat) :
  forall k dens pt dens' pt',
    voxelize_segment_loop fuel hs vol voxel_size width height k n (dens, pt)
    = Some (Done (dens', pt')) ->
    length dens' = length dens
    /\ (Forall (fun d => 0 <= d <= 255) dens ->
        Forall (fun d => 0 <= d <= 255) dens').
Proof.
  induction n as [|n IH]; intros k dens pt dens' pt' Hrun;
    cbn [voxelize_segment_loop] in Hrun.
  - injection Hrun as <- <-. split; [reflexivity | auto].
  - destruct (voxelize_segment fuel hs vol voxel_size width height k
                (dens, pt)) as [[[dens1 pt1]|]|] eqn:Es; try discriminate.
    destruct (voxelize_segment_keeps _ _ _ _ _ _ _ _ _ _ _ Es) as (L1 & K1).
    destruct (IH _ _ _ _ _ Hrun) as (L2 & K2).
    split; [lia | auto].
Qed.

Lemma quantize_tangents_length (dens : list Z) :
  forall pt qs,
    quantize_tangents pt dens = Done qs -> length qs = length dens.
Proof.
  induction dens as [|d dens IH]; intros pt qs Hq.
  - destruct pt; cbn [quantize_tangents] in Hq; injection Hq as <-;
      reflexivity.
  - destruct pt as [|t pt]; cbn [quantize_tangents] in Hq; [discriminate|].
    destruct (quantize_voxel t d); [|discriminate]. cbn [obind] in Hq.
    destruct (quantize_tangents pt dens) as [qs'|] eqn:E; [|discriminate].
    cbn [obind] in Hq. injection Hq as <-. cbn [length].
    rewrite (IH _ _ E). reflexivity.
Qed.

(** X19: what [voxelize_segments] returns, when it returns, is a grid of
    [width * height * depth] voxels whose densities lie between 1 and 255,
    with one quantized tangent per voxel; and it returns only on an asset
    that has indices, since the bound [indices.size() - 1] of its loop
    wraps around when there are none. *)
Theorem voxelize_segments_counts (fuel : nat) (hs : HairStyle float)
    (width height depth : Z) (vol : Volume) :
  voxelize_segments fuel hs width height depth = Some (Done vol) ->
  indices hs <> []
  /\ length (densities vol) = Z.to_nat (u64 (width * height * depth))
  /\ length (voxel_tangents vol) = length (densities vol)
  /\ Forall (fun d => 1 <= d <= 255) (densities vol).
Proof.
  unfold voxelize_segments.
  destruct (accumulate_segments fuel hs width height depth)
    as [[[dens pt]|]|] eqn:Hacc; try discriminate.
  cbn [obind].
  destruct (quantize_tangents pt dens) as [qs|] eqn:Hq; [|discriminate].
  cbn [obind]. intros H. injection H as <-. cbn [densities voxel_tangents].
  unfold accumulate_segments in Hacc.
  destruct (indices hs) as [|i0 ix] eqn:Eix; [discriminate|].
  split; [discriminate|].
  apply voxelize_segment_loop_keeps in Hacc. destruct Hacc as (Hlen & Hkeep).
  cbn [new_volume densities] in Hlen, Hkeep.
  rewrite repeat_length in Hlen.
  assert (Hbyte : Forall (fun d => 0 <= d <= 255) dens).
  { apply Hkeep. apply Forall_forall. intros d Hd.
    apply repeat_spec in Hd. lia. }
  split; [exact Hlen|]. split; [exact (quantize_tangents_length _ _ _ Hq)|].
  apply Forall_forall. intros d Hd.
  rewrite Forall_forall in Hbyte. specialize (Hbyte d Hd).
  destruct (Z.eq_dec d 0) as [-> | Hne]; [|lia].
  rewrite (quantize_empty_voxel_undefined pt dens Hd) in Hq. discriminate.
Qed.

Lemma voxelize_segments_counts_witness :
  voxelize_segments 4 diagonal_strand 2 1 1 = Some (Done diagonal_volume)
  /\ indices diagonal_strand <> []
  /\ length (densities diagonal_volume) = Z.to_nat (u64 (2 * 1 * 1))
  /\ length (voxel_tangents diagonal_volume)
     = length (densities diagonal_volume)
  /\ Forall (fun d => 1 <= d <= 255) (densities diagonal_volume).
Proof.
  assert (H : voxelize_segments 4 diagonal_strand 2 1 1
              = Some (Done diagonal_volume))
    by (vm_compute; reflexivity).
  split; [exact H|].
  exact (voxelize_segments_counts 4 diagonal_strand 2 1 1 diagonal_volume H).
Defined.

(* ===================================================================== *)
(** * Shading: degenerate alignment and opacity *)
(* ===================================================================== *)

Lemma mul_nan_r (x : float) : F32.mul x S754_nan = S754_nan.
Proof. destruct x; reflexivity. Qed.

Lemma add_nan_l (x : float) : F32.add S754_nan x = S754_nan.
Proof. reflexivity. Qed.

Section Shading.
Variable powf : float -> float -> float.

(** X20: when the square of the cosine between tangent and light is
    exactly one (the hair points along the light), [kajiya_kay] computes
    the sine as zero divided by the square root of zero: every component
    of the colour it returns is NaN, whatever the colours, the exponent
    and the eye direction. *)
Theorem kajiya_kay_along_the_light (diffuse specular : vec3 float)
    (p : float) (tangent light eye : vec3 float) :
  F32.mul (V3.dot tangent light) (V3.dot tangent light) = F32.one ->
  kajiya_kay powf diffuse specular p tangent light eye
  = Vec3 S754_nan S754_nan S754_nan.
Proof.
  intros Hcos. unfold kajiya_kay. rewrite Hcos.
  change (F32.div (F32.sub F32.one F32.one)
                  (F32.sqrt (F32.sub F32.one F32.one))) with S754_nan.
  unfold V3.add, V3.map2, V3.scale. cbn [vx vy vz].
  rewrite !mul_nan_r, !add_nan_l. reflexivity.
Qed.

(** X21: every pixel that the draw pass writes for a hit is fully
    opaque: its alpha channel is 255, lit or not, with shadows on or off,
    whatever the tangent at the hit; a miss leaves the cleared pixel. *)
Theorem hit_pixels_are_opaque (shadows_off blocked : bool)
    (tangent cleared : vec4 float) :
  ww (draw_pixel powf shadows_off (Some (blocked, tangent)) cleared)
  = F32.of_int 255
  /\ draw_pixel powf shadows_off None cleared = cleared.
Proof.
  split; [|reflexivity].
  unfold draw_pixel, pixel_of, shade_hit. cbn [ww].
  destruct shadows_off, blocked; cbn [orb occluded_by is_occluded];
    try (change (F32.ltb (S754_infinity true) F32.zero) with true);
    try (change (F32.ltb (S754_infinity false) F32.zero) with false);
    cbn [ww vec4_of V4.add]; reflexivity.
Qed.
End Shading.

Lemma kajiya_kay_along_the_light_witness :
  F32.mul (V3.dot x_axis x_axis) (V3.dot x_axis x_axis) = F32.one
  /\ kajiya_kay (fun x _ => x) hair_color light_color (F32.of_int 80)
       x_axis x_axis V3.zero
     = Vec3 S754_nan S754_nan S754_nan.
Proof.
  assert (H : F32.mul (V3.dot x_axis x_axis) (V3.dot x_axis x_axis)
              = F32.one) by reflexivity.
  split; [exact H|].
  exact (kajiya_kay_along_the_light (fun x _ => x) hair_color light_color
           (F32.of_int 80) x_axis x_axis V3.zero H).
Defined.

(* ===================================================================== *)
(** * What [reduce] hands on *)
(* ===================================================================== *)

Lemma for_loop_ext {St} (f g : nat -> St -> outcome St) (n : nat) :
  (forall i s, f i s = g i s) ->
  forall i s, for_loop f i n s = for_loop g i n s.
Proof.
  intros Hfg. induction n as [|n IH]; intros i s; [reflexivity|].
  cbn [for_loop]. rewrite Hfg. destruct (g i s); [|reflexivity].
  cbn [obind]. apply IH.
Qed.

(** [generate_indices] reads the header and the segments and nothing
    else. *)
Lemma generate_indices_depends {F} (h1 h2 : HairStyle F) (ix : list Z) :
  file_header h1 = file_header h2 -> segments h1 = segments h2 ->
  generate_indices h1 = Done (set_indices h1 ix) ->
  generate_indices h2 = Done (set_indices h2 ix).
Proof.
  intros Hh Hs. unfold generate_indices.
  assert (Hsc : get_strand_count h2 = get_strand_count h1).
  { unfold get_strand_count, has_segments. rewrite Hh, Hs. reflexivity. }
  rewrite Hsc.
  rewrite (for_loop_ext (index_strand h2) (index_strand h1)).
  - destruct (for_loop (index_strand h1) 0 _ (O, [])) as [[v ix']|];
      [|discriminate].
    cbn [obind]. intros H.
    assert (ix' = ix) by (unfold set_indices in H; congruence).
    subst ix'. reflexivity.
  - intros i s. unfold index_strand, strand_segment_count, has_segments,
      get_default_segment_count. rewrite Hh, Hs. reflexivity.
Qed.

Lemma reduce_regenerates_indices {F} (hs hs' : HairStyle F) (ratio : float)
    (picks : list nat) :
  reduce ratio hs = Done (hs', picks) ->
  generate_indices hs' = Done hs'.
Proof.
  unfold reduce.
  destruct (count_left (get_strand_count hs) ratio); [|discriminate].
  cbn [obind].
  destruct (count_left (get_vertex_count hs) ratio); [|discriminate].
  cbn [obind].
  destruct (strand_offsets hs); [|discriminate]. cbn [obind].
  destruct (sample_loop _ hs _) as [s|]; [|discriminate]. cbn [obind].
  match goal with
  | |- context [generate_indices ?h] =>
      destruct (generate_indices_defined h) as (ix & Hgen); rewrite Hgen
  end.
  cbn [obind]. intros H. injection H as <- _.
  eapply generate_indices_depends in Hgen; [rewrite Hgen| |];
    reflexivity.
Qed.

Lemma vertex_total_app (a b : list Z) :
  vertex_total (a ++ b) = (vertex_total a + vertex_total b)%nat.
Proof.
  unfold vertex_total. rewrite map_app, list_sum_app. reflexivity.
Qed.

Lemma aligned_slices {F A} (hs : HairStyle F) (a : list A)
    (P : list (nat * Z)) :
  Forall (valid_strand hs) P ->
  aligned a (vertices hs) ->
  aligned (flat_map (strand_slice a) P)
          (flat_map (strand_slice (vertices hs)) P).
Proof.
  intros Hvalid [-> | Hlen].
  - left. apply flat_map_slice_nil.
  - right. rewrite (slices_length hs a P Hvalid Hlen).
    rewrite (slices_length hs (vertices hs) P Hvalid eq_refl). reflexivity.
Qed.

(** X22: [reduce] keeps the invariants of the data model.  On an asset
    that satisfies them, when every draw lands inside the working set and
    at least one strand is kept, the result satisfies them again; it has
    as many strands as the loop made iterations, the target
    [strands_left] less one, at most all of them; and its index array is
    the one [generate_indices] computes for the surviving strands: two
    entries per segment. *)
Theorem reduce_keeps_invariants {F} (hs : HairStyle F) (ratio : float)
    (left vleft : Z) :
  well_formed hs ->
  count_left (get_strand_count hs) ratio = Done left ->
  count_left (get_vertex_count hs) ratio = Done vleft ->
  draws_in_range (seed hs) (length (segment_counts hs))
    (iterations left (length (segment_counts hs))) = true ->
  (0 < iterations left (length (segment_counts hs)))%nat ->
  exists hs' picks,
    reduce ratio hs = Done (hs', picks)
    /\ well_formed hs'
    /\ length (segments hs') = iterations left (length (segment_counts hs))
    /\ generate_indices hs' = Done hs'
    /\ size (indices hs') = get_segment_count hs' * 2.
Proof.
  intros Hwf Hleft Hvleft Hdraws Hkept.
  destruct (reduce_spec hs ratio left vleft Hwf Hleft Hvleft Hdraws)
    as (hs' & picks & W & P & Hred & Hperm & HlP & _ & Hse & Hve & Hth & Hta
        & Htr & Hco).
  pose proof (picked_strands_valid hs W P Hwf Hperm) as Hvalid.
  pose proof (reduce_regenerates_indices _ _ _ _ Hred) as Hgen.
  assert (Hwf' : well_formed hs').
  { destruct Hwf as (_ & _ & Hn & Hsum & Hv & Ath & Ata & Atr & Aco).
    assert (Hcounts : segment_counts hs' = map snd P).
    { unfold segment_counts, has_segments. rewrite Hse.
      destruct P as [|st P]; [cbn in HlP; lia | reflexivity]. }
    pose proof (Permutation_map snd Hperm) as Hpm.
    unfold strand_table in Hpm. rewrite table_from_snd, map_app in Hpm.
    pose proof (vertex_total_perm _ _ Hpm) as Hvt.
    rewrite vertex_total_app in Hvt.
    pose proof (Permutation_length Hpm) as Hpl.
    rewrite length_app, !length_map in Hpl.
    unfold well_formed. rewrite Hcounts, Hve, Hth, Hta, Htr, Hco.
    rewrite length_map.
    split; [|split; [|split; [|split; [|split; [|split; [|split; [|split]]]]]]].
    - apply Forall_forall. intros c Hc. apply in_map_iff in Hc.
      destruct Hc as (st & <- & Hst).
      rewrite Forall_forall in Hvalid. destruct (Hvalid st Hst) as (Hc & _).
      exact Hc.
    - lia.
    - lia.
    - symmetry. apply (slices_length hs); [exact Hvalid | reflexivity].
    - rewrite (slices_length hs (vertices hs) P Hvalid eq_refl). lia.
    - apply aligned_slices; assumption.
    - apply aligned_slices; assumption.
    - apply aligned_slices; assumption.
    - apply aligned_slices; assumption. }
  exists hs', picks. split; [exact Hred|]. split; [exact Hwf'|].
  split; [rewrite Hse, length_map; exact HlP|].
  split; [exact Hgen|].
  pose proof (generate_indices_run hs' Hwf') as Hix.
  rewrite Hgen in Hix.
  assert (Hsame : indices hs'
                  = flat_map strand_indices (strand_table hs')).
  { injection Hix as Hix. rewrite Hix at 1. reflexivity. }
  rewrite Hsame. exact (generated_indices_size hs' Hwf').
Qed.

Lemma reduce_keeps_invariants_witness :
  well_formed (four_strands 1)
  /\ count_left (get_strand_count (four_strands 1)) one_half = Done 2
  /\ count_left (get_vertex_count (four_strands 1)) one_half = Done 4
  /\ draws_in_range (seed (four_strands 1))
       (length (segment_counts (four_strands 1)))
       (iterations 2 (length (segment_counts (four_strands 1)))) = true
  /\ (0 < iterations 2 (length (segment_counts (four_strands 1))))%nat
  /\ exists hs' picks,
       reduce one_half (four_strands 1) = Done (hs', picks)
       /\ well_formed hs'
       /\ length (segments hs')
          = iterations 2 (length (segment_counts (four_strands 1)))
       /\ generate_indices hs' = Done hs'
       /\ size (indices hs') = get_segment_count hs' * 2.
Proof.
  assert (H1 : count_left (get_strand_count (four_strands 1)) one_half
               = Done 2) by (vm_compute; reflexivity).
  assert (H2 : count_left (get_vertex_count (four_strands 1)) one_half
               = Done 4) by (vm_compute; reflexivity).
  assert (H3 : draws_in_range (seed (four_strands 1))
                 (length (segment_counts (four_strands 1)))
                 (iterations 2 (length (segment_counts (four_strands 1))))
               = true) by (vm_compute; reflexivity).
  assert (H4 : (0 < iterations 2
                      (length (segment_counts (four_strands 1))))%nat)
    by (apply Nat.ltb_lt; vm_compute; reflexivity).
  split; [exact (four_strands_well_formed 1)|]. split; [exact H1|].
  split; [exact H2|]. split; [exact H3|]. split; [exact H4|].
  exact (reduce_keeps_invariants (four_strands 1) one_half 2 4
           (four_strands_well_formed 1) H1 H2 H3 H4).
Defined.

(** X23: on an asset without strands (no segment array and a strand count
    of zero in the header, as in a freshly constructed object) [reduce],
    and with it [shuffle], writes [strand_offset[0]] of an empty offset
    table: undefined behaviour for every ratio. *)
Theorem reduce_without_strands_undefined {F} (hs : HairStyle F)
    (ratio : float) :
  segments hs = [] ->
  strand_count (file_header hs) = 0 ->
  reduce ratio hs = Undefined /\ shuffle hs = Undefined.
Proof.
  intros Hs Hc.
  assert (Hoff : strand_offsets hs = Undefined).
  { unfold strand_offsets, get_strand_count, has_segments.
    rewrite Hs. cbn [nonempty]. rewrite Hc. reflexivity. }
  assert (Hany : forall r, reduce r hs = Undefined).
  { intros r. unfold reduce.
    destruct (count_left (get_strand_count hs) r); [|reflexivity].
    cbn [obind].
    destruct (count_left (get_vertex_count hs) r); [|reflexivity].
    cbn [obind]. rewrite Hoff. reflexivity. }
  split; [apply Hany | apply Hany].
Qed.

Lemma reduce_without_strands_undefined_witness :
  segments empty_asset = []
  /\ strand_count (file_header empty_asset) = 0
  /\ reduce one_half empty_asset = Undefined
  /\ shuffle empty_asset = Undefined.
Proof.
  split; [reflexivity|]. split; [reflexivity|].
  exact (reduce_without_strands_undefined empty_asset one_half
           eq_refl eq_refl).
Defined.
